(** * Established libp2p connection

    Shallow embedding of [src/network/libp2p/connection/established.rs]:
    the [Established] state machine, its [read_write] step, [update_now],
    [add_request], [open_notifications_substream] and
    [ConnectionPrototype::into_connection].

    The noise cipher, the yamux frame codec, multistream-select and the
    LEB128 framed reader live in other files of the repository; they are
    parameters of the development (the record [Collab]).  The yamux
    substream table, whose behaviour the engine relies on, is modelled
    concretely from the spec.

    Conventions:
    - time ([TNow]) is a [nat] counted in seconds, so
      [now + Duration::from_secs(20)] is [now + 20];
    - a substream id ([yamux::SubstreamId]) is a [nat];
    - the two outgoing regions are given by their lengths: the engine only
      slices them, the bytes written into them are the cipher's concern;
    - the unbounded [loop]s and [while]s of the source are run on a fuel
      argument; running out of fuel stands for a call that does not return;
    - a Rust panic ([unwrap] on [Err]/[None], [todo!], [unreachable!],
      out-of-range slicing) is the outcome [Panic]; [debug_assert!]s are
      not checked (release build). *)

From Stdlib Require Import String NArith List Arith Lia Bool.
Import ListNotations.

Definition byte := Byte.byte.

(** ** Results and the outcome monad *)

Inductive result (A E : Type) : Type :=
| Ok (a : A)
| Err (e : E).
Arguments Ok {A E} a.
Arguments Err {A E} e.

(** Outcome of a computation of the engine: a value, a connection error
    returned by [read_write] ([Err(Error)]), a panic, or no answer within
    the given fuel. *)
Inductive exec (E A : Type) : Type :=
| Ret (a : A)
| Fail (e : E)
| Panic
| NoFuel.
Arguments Ret {E A} a.
Arguments Fail {E A} e.
Arguments Panic {E A}.
Arguments NoFuel {E A}.

Definition bind {E A B} (m : exec E A) (k : A -> exec E B) : exec E B :=
  match m with
  | Ret a => k a
  | Fail e => Fail e
  | Panic => Panic
  | NoFuel => NoFuel
  end.

Notation "x <- m ;; k" := (bind m (fun x => k))
  (at level 61, m at next level, right associativity).

(** ** Collaborators *)

(** [multistream_select::Config]. *)
Inductive NegoConfig : Type :=
| Listener (supported_protocols : list string)
| Dialer (requested_protocol : string).

(** [multistream_select::Negotiation]. *)
Inductive Negotiation (InProgress : Type) : Type :=
| NegInProgress (nego : InProgress)
| NegSuccess (protocol : string)
| NegNotAvailable.
Arguments NegInProgress {InProgress} nego.
Arguments NegSuccess {InProgress} protocol.
Arguments NegNotAvailable {InProgress}.

(** A frame as recognised by the yamux codec, before the substream table
    is consulted. *)
Inductive RawFrame : Type :=
| RawNone
| RawOpen
| RawReset (substream_id : nat)
| RawData (start_offset : nat) (substream_id : nat).

(** The interfaces of [noise::Noise], of the yamux frame codec, of
    [multistream_select::InProgress] and of [leb128::Framed] /
    [leb128::encode_usize], as [established.rs] consumes them. *)
Record Collab : Type := {
  NoiseState : Type;
  CipherError : Type;
  inject_inbound_data : NoiseState -> list byte -> result (NoiseState * nat) CipherError;
  decoded_inbound_data : NoiseState -> list byte;
  consume_inbound_data : NoiseState -> nat -> NoiseState;
  encrypt_size_conv : NoiseState -> nat -> nat;
  (** [encrypt(buffers, (out0, out1))] returns the new cipher state and
      [(read, written)]; the regions are given by their lengths. *)
  encrypt : NoiseState -> list (list byte) -> nat -> nat -> NoiseState * nat * nat;

  YamuxCodec : Type;
  YamuxError : Type;
  decode_frame : YamuxCodec -> list byte -> result (YamuxCodec * nat * RawFrame) YamuxError;

  InProgress : Type;
  NegoError : Type;
  nego_new : NegoConfig -> InProgress;
  read_write_vec : InProgress -> list byte ->
                   result (Negotiation InProgress * nat * list byte) NegoError;

  Framed : Type;
  FramedError : Type;
  framed_new : N -> Framed;
  inject_data : Framed -> list byte -> result (Framed * nat) FramedError;
  (** [take_frame(&mut self)]: the frame, if complete, and the reader
      after the call. *)
  take_frame : Framed -> option (list byte) * Framed;
  encode_usize : nat -> list byte;

  (** [Noise::is_initiator] and the codec part of [yamux::Yamux::new]
      (is_initiator, capacity, randomness_seed). *)
  is_initiator : NoiseState -> bool;
  yamux_codec_new : bool -> nat -> N * N -> YamuxCodec
}.

Section Established.

Variable C : Collab.
Variable TRqUd : Type.
Variable TNotifUd : Type.

Definition TNow := nat.

(** ** Substream states: [enum Substream] *)

Inductive Substream : Type :=
| Poisoned
| InboundNegotiating (nego : InProgress C)
| NegotiationFailed
| NotificationsOutNegotiating (timeout : TNow) (negotiation : InProgress C)
    (handshake : list byte)
| NotificationsOutHandshakeRecv (handshake : Framed C)
| NotificationsOut
| NotificationsInHandshake (handshake : Framed C) (protocol : string)
| NotificationsInWait
| RequestOutNegotiating (timeout : TNow) (negotiation : InProgress C)
    (request : list byte) (user_data : TRqUd)
| RequestOut (timeout : TNow) (user_data : TRqUd) (response : Framed C)
| RequestInRecv (request : Framed C) (protocol : string)
| RequestInSend
| PingIn (payload : list byte).

(** ** The multiplexer

    Modelled from the spec: [yamux::Yamux] (not part of this file).  It
    owns a table of open substreams, each with its user data, its write
    queue and whether its writing side is closed; it allocates substream
    identifiers itself; [incoming_data] runs the frame codec on the
    decoded plaintext and reports a new inbound substream, a reset (the
    substream leaves the table and its user data is handed back) or a data
    frame; [extract_out] hands out up to [n] bytes of queued outbound data. *)

Record SubEntry : Type := {
  se_id : nat;
  se_user_data : Substream;
  se_write_queue : list (list byte);
  se_closed : bool
}.

Record Yamux : Type := {
  y_codec : YamuxCodec C;
  y_substreams : list SubEntry;
  y_pending : bool;
  y_next_id : nat;
  y_resets : list nat
}.

Inductive IncomingDataDetail : Type :=
| IncomingSubstream
| StreamReset (substream_id : nat) (user_data : Substream)
| DataFrame (start_offset : nat) (substream_id : nat).

Definition user_datas (y : Yamux) : list (nat * Substream) :=
  map (fun s => (se_id s, se_user_data s)) (y_substreams y).

Definition lookup_sub (y : Yamux) (id : nat) : option SubEntry :=
  find (fun s => se_id s =? id) (y_substreams y).

Fixpoint remove_sub (id : nat) (l : list SubEntry) : option (Substream * list SubEntry) :=
  match l with
  | [] => None
  | s :: l' =>
      if se_id s =? id then Some (se_user_data s, l')
      else match remove_sub id l' with
           | Some (ud, l'') => Some (ud, s :: l'')
           | None => None
           end
  end.

Definition map_sub (id : nat) (f : SubEntry -> SubEntry) (l : list SubEntry) : list SubEntry :=
  map (fun s => if se_id s =? id then f s else s) l.

Definition with_substreams (y : Yamux) (l : list SubEntry) : Yamux :=
  {| y_codec := y_codec y; y_substreams := l; y_pending := y_pending y;
     y_next_id := y_next_id y; y_resets := y_resets y |}.

Definition incoming_data (y : Yamux) (data : list byte)
  : result (Yamux * nat * option IncomingDataDetail) (YamuxError C) :=
  match decode_frame C (y_codec y) data with
  | Err e => Err e
  | Ok (codec, n, frame) =>
      let y1 := {| y_codec := codec; y_substreams := y_substreams y;
                   y_pending := y_pending y; y_next_id := y_next_id y;
                   y_resets := y_resets y |} in
      match frame with
      | RawNone => Ok (y1, n, None)
      | RawOpen =>
          Ok ({| y_codec := codec; y_substreams := y_substreams y;
                 y_pending := true; y_next_id := y_next_id y;
                 y_resets := y_resets y |}, n, Some IncomingSubstream)
      | RawReset id =>
          match remove_sub id (y_substreams y) with
          | Some (ud, l) => Ok (with_substreams y1 l, n, Some (StreamReset id ud))
          | None => Ok (y1, n, None)
          end
      | RawData start id =>
          match lookup_sub y id with
          | Some _ => Ok (y1, n, Some (DataFrame start id))
          | None => Ok (y1, n, None)
          end
      end
  end.

Definition new_entry (id : nat) (ud : Substream) : SubEntry :=
  {| se_id := id; se_user_data := ud; se_write_queue := []; se_closed := false |}.

Definition accept_pending_substream (y : Yamux) (ud : Substream) : Yamux :=
  {| y_codec := y_codec y;
     y_substreams := y_substreams y ++ [new_entry (y_next_id y) ud];
     y_pending := false; y_next_id := S (y_next_id y); y_resets := y_resets y |}.

Definition open_substream (y : Yamux) (ud : Substream) : Yamux * nat :=
  ({| y_codec := y_codec y;
      y_substreams := y_substreams y ++ [new_entry (y_next_id y) ud];
      y_pending := y_pending y; y_next_id := S (y_next_id y);
      y_resets := y_resets y |}, y_next_id y).

(** Operations on the substream handle [substream_by_id(id)]. *)
Definition sub_write (y : Yamux) (id : nat) (buf : list byte) : Yamux :=
  with_substreams y (map_sub id (fun s =>
    {| se_id := se_id s; se_user_data := se_user_data s;
       se_write_queue := se_write_queue s ++ [buf]; se_closed := se_closed s |})
    (y_substreams y)).

Definition sub_close (y : Yamux) (id : nat) : Yamux :=
  with_substreams y (map_sub id (fun s =>
    {| se_id := se_id s; se_user_data := se_user_data s;
       se_write_queue := se_write_queue s; se_closed := true |})
    (y_substreams y)).

Definition set_user_data (y : Yamux) (id : nat) (ud : Substream) : Yamux :=
  with_substreams y (map_sub id (fun s =>
    {| se_id := se_id s; se_user_data := ud;
       se_write_queue := se_write_queue s; se_closed := se_closed s |})
    (y_substreams y)).

(** [reset()] removes the substream from the table, queues a reset frame
    and hands back the user data. *)
Definition sub_reset (y : Yamux) (id : nat) : Yamux * option Substream :=
  match remove_sub id (y_substreams y) with
  | Some (ud, l) =>
      ({| y_codec := y_codec y; y_substreams := l; y_pending := y_pending y;
          y_next_id := y_next_id y; y_resets := y_resets y ++ [id] |}, Some ud)
  | None => (y, None)
  end.

(** Takes up to [n] bytes from the write queues, substream after
    substream; empty buffers are dropped. *)
Fixpoint take_queue (n : nat) (q : list (list byte)) : list (list byte) * list (list byte) :=
  match q with
  | [] => ([], [])
  | b :: q' =>
      match b with
      | [] => take_queue n q'
      | _ =>
          if n =? 0 then ([], q)
          else if length b <=? n then
            let (out, rest) := take_queue (n - length b) q' in (b :: out, rest)
          else ([firstn n b], skipn n b :: q')
      end
  end.

Fixpoint extract_subs (n : nat) (l : list SubEntry) : list (list byte) * list SubEntry :=
  match l with
  | [] => ([], [])
  | s :: l' =>
      let (out, q) := take_queue n (se_write_queue s) in
      let s' := {| se_id := se_id s; se_user_data := se_user_data s;
                   se_write_queue := q; se_closed := se_closed s |} in
      let (out', l'') := extract_subs (n - length (concat out)) l' in
      (out ++ out', s' :: l'')
  end.

Definition extract_out (y : Yamux) (n : nat) : Yamux * list (list byte) :=
  let (out, l) := extract_subs n (y_substreams y) in
  (with_substreams y l, out).

(** ** The engine: [struct Established] *)

Record Established : Type := {
  encryption : NoiseState C;
  yamux : Yamux;
  next_timeout : option TNow;
  in_request_protocols : list string;
  in_notifications_protocols : list string;
  ping_protocol : string
}.

Definition set_yamux (e : Established) (y : Yamux) : Established :=
  {| encryption := encryption e; yamux := y; next_timeout := next_timeout e;
     in_request_protocols := in_request_protocols e;
     in_notifications_protocols := in_notifications_protocols e;
     ping_protocol := ping_protocol e |}.

Definition set_encryption (e : Established) (n : NoiseState C) : Established :=
  {| encryption := n; yamux := yamux e; next_timeout := next_timeout e;
     in_request_protocols := in_request_protocols e;
     in_notifications_protocols := in_notifications_protocols e;
     ping_protocol := ping_protocol e |}.

Definition set_next_timeout (e : Established) (t : option TNow) : Established :=
  {| encryption := encryption e; yamux := yamux e; next_timeout := t;
     in_request_protocols := in_request_protocols e;
     in_notifications_protocols := in_notifications_protocols e;
     ping_protocol := ping_protocol e |}.

(** [enum RequestError]. *)
Inductive RequestError : Type :=
| Timeout
| ProtocolNotAvailable
| SubstreamReset
| NegotiationError (err : NegoError C)
| ResponseLebError (err : FramedError C).

(** [enum Event]; the [SubstreamId] wrapper is the id itself. *)
Inductive Event : Type :=
| EndOfData
| RequestIn (id : nat) (protocol : string) (request : list byte)
| Response (response : result (list byte) RequestError) (id : nat) (user_data : TRqUd)
| NotificationsInOpen (id : nat) (protocol : string) (handshake : list byte)
| NotificationsOutAccept (id : nat) (user_data : TNotifUd) (remote_handshake : list byte)
| NotificationsOutReject (id : nat) (user_data : TNotifUd).

(** [enum Error]. *)
Inductive Error : Type :=
| ErrNoise (e : CipherError C)
| ErrYamux (e : YamuxError C).

(** [struct ReadWrite]. *)
Record ReadWrite : Type := {
  connection : Established;
  read_bytes : nat;
  written_bytes : nat;
  wake_up_after : option TNow;
  event : option Event
}.

(** ** [update_now] *)

Definition timed_out (now : TNow) (ud : Substream) : bool :=
  match ud with
  | RequestOutNegotiating timeout _ _ _ | RequestOut timeout _ _ => timeout <=? now
  | _ => false
  end.

Definition deadline (ud : Substream) : option TNow :=
  match ud with
  | RequestOutNegotiating timeout _ _ _ | RequestOut timeout _ _ => Some timeout
  | _ => None
  end.

(** [Iterator::min] over the deadlines of the listed substreams. *)
Fixpoint min_deadline (l : list (nat * Substream)) : option TNow :=
  match l with
  | [] => None
  | (_, ud) :: l' =>
      match deadline ud, min_deadline l' with
      | Some t, Some m => Some (Nat.min t m)
      | Some t, None => Some t
      | None, m => m
      end
  end.

Definition update_now (e : Established) (now : TNow)
  : exec Error (Established * option Event) :=
  if match next_timeout e with None => true | Some t => now <? t end
  then Ret (e, None)
  else
    let timed_out_substream :=
      option_map fst (find (fun p => timed_out now (snd p)) (user_datas (yamux e))) in
    ev_y <-
      match timed_out_substream with
      | Some id =>
          match sub_reset (yamux e) id with
          | (y, Some (RequestOutNegotiating _ _ _ user_data))
          | (y, Some (RequestOut _ user_data _)) =>
              Ret (y, Some (Response (Err Timeout) id user_data))
          | _ => Panic
          end
      | None => Ret (yamux e, None)
      end ;;
    let (y, ev) := ev_y in
    Ret (set_next_timeout (set_yamux e y) (min_deadline (user_datas y)), ev).

(** ** Per-substream dispatch: the body of [while !data.is_empty()] *)

(** [leb128::Framed::new(10 * 1024 * 1024)]. *)
Definition framed_capacity : N := 10 * 1024 * 1024.

(** [data = &data[n..]]: out of range slicing panics. *)
Definition advance {A} (data : list byte) (n : nat) (k : list byte -> exec Error A)
  : exec Error A :=
  if n <=? length data then k (skipn n data) else Panic.

(** The inner loop of the [PingIn] branch: push byte after byte into the
    32-byte [ArrayVec], and write it out and clear it when it is full. *)
Fixpoint ping_echo (y : Yamux) (id : nat) (payload data : list byte)
  : exec Error (Yamux * list byte) :=
  match data with
  | [] => Ret (y, payload)
  | b :: data' =>
      if length payload <? 32 then
        let payload := payload ++ [b] in
        if length payload =? 32 then ping_echo (sub_write y id payload) id [] data'
        else ping_echo y id payload data'
      else Panic
  end.

(** Outcome of one turn of the per-substream loop. *)
Inductive SubStep : Type :=
| SubContinue (y : Yamux) (data : list byte)
| SubBreak (y : Yamux)
| SubEvent (y : Yamux) (ev : Event).

(** One turn: the state is moved out (leaving [Poisoned]), matched, and a
    next state is put back, unless the substream is reset. *)
Definition sub_step (e : Established) (y : Yamux) (id : nat) (data : list byte)
  : exec Error SubStep :=
  match lookup_sub y id with
  | None => Panic
  | Some s =>
  let y := set_user_data y id Poisoned in
  match se_user_data s with
  | Poisoned => Panic
  | InboundNegotiating nego =>
      match read_write_vec C nego data with
      | Ok (NegInProgress nego, read, out_buffer) =>
          advance data read (fun data =>
            let y := sub_write y id out_buffer in
            Ret (SubContinue (set_user_data y id (InboundNegotiating nego)) data))
      | Ok (NegSuccess protocol, num_read, out_buffer) =>
          let y := sub_write y id out_buffer in
          advance data num_read (fun data =>
            if String.eqb protocol (ping_protocol e) then
              Ret (SubContinue (set_user_data y id (PingIn [])) data)
            else if existsb (fun p => String.eqb p protocol) (in_request_protocols e) then
              Ret (SubContinue (set_user_data y id
                     (RequestInRecv (framed_new C framed_capacity) protocol)) data)
            else
              Ret (SubContinue (set_user_data y id
                     (NotificationsInHandshake (framed_new C framed_capacity) protocol)) data))
      | Ok (NegNotAvailable, num_read, out_buffer) =>
          advance data num_read (fun data =>
            let y := sub_close (sub_write y id out_buffer) id in
            Ret (SubContinue (set_user_data y id NegotiationFailed) data))
      | Err _ => Ret (SubBreak (fst (sub_reset y id)))
      end
  | NegotiationFailed =>
      Ret (SubContinue (set_user_data y id NegotiationFailed) [])
  | NotificationsOutNegotiating timeout negotiation handshake =>
      match read_write_vec C negotiation data with
      | Ok (NegInProgress nego, read, out_buffer) =>
          advance data read (fun data =>
            let y := sub_write y id out_buffer in
            Ret (SubContinue (set_user_data y id
                   (NotificationsOutNegotiating timeout nego handshake)) data))
      | Ok (NegSuccess _, num_read, out_buffer) =>
          let y := sub_write y id out_buffer in
          advance data num_read (fun data =>
            let y := sub_write y id (encode_usize C (length handshake)) in
            let y := sub_write y id handshake in
            Ret (SubContinue (set_user_data y id
                   (NotificationsOutHandshakeRecv (framed_new C framed_capacity))) data))
      | _ => Panic
      end
  | NotificationsOutHandshakeRecv handshake =>
      match inject_data C handshake data with
      | Err _ => Panic
      | Ok (handshake, num_read) =>
          advance data num_read (fun data =>
            match take_frame C handshake with
            | (Some _, _) => Panic
            | (None, handshake) =>
                Ret (SubContinue (set_user_data y id
                       (NotificationsOutHandshakeRecv handshake)) data)
            end)
      end
  | RequestOutNegotiating timeout negotiation request user_data =>
      match read_write_vec C negotiation data with
      | Ok (NegInProgress nego, read, out_buffer) =>
          advance data read (fun data =>
            let y := sub_write y id out_buffer in
            Ret (SubContinue (set_user_data y id
                   (RequestOutNegotiating timeout nego request user_data)) data))
      | Ok (NegSuccess _, num_read, out_buffer) =>
          let y := sub_write y id out_buffer in
          advance data num_read (fun data =>
            let y := sub_write y id (encode_usize C (length request)) in
            let y := sub_write y id request in
            let y := sub_close y id in
            Ret (SubContinue (set_user_data y id
                   (RequestOut timeout user_data (framed_new C framed_capacity))) data))
      | Ok (NegNotAvailable, _, _) =>
          Ret (SubEvent (fst (sub_reset y id))
                 (Response (Err ProtocolNotAvailable) id user_data))
      | Err err =>
          Ret (SubEvent (fst (sub_reset y id))
                 (Response (Err (NegotiationError err)) id user_data))
      end
  | RequestOut timeout user_data response =>
      match inject_data C response data with
      | Err err =>
          Ret (SubEvent (fst (sub_reset y id))
                 (Response (Err (ResponseLebError err)) id user_data))
      | Ok (response, num_read) =>
          advance data num_read (fun data =>
            match take_frame C response with
            | (Some frame, _) =>
                Ret (SubEvent (set_user_data y id NegotiationFailed)
                       (Response (Ok frame) id user_data))
            | (None, response) =>
                Ret (SubContinue (set_user_data y id
                       (RequestOut timeout user_data response)) data)
            end)
      end
  | RequestInRecv request protocol =>
      Ret (SubContinue (set_user_data y id (RequestInRecv request protocol)) [])
  | NotificationsInHandshake handshake protocol =>
      match inject_data C handshake data with
      | Err _ => Panic
      | Ok (handshake, num_read) =>
          advance data num_read (fun data =>
            match take_frame C handshake with
            | (Some frame, _) =>
                Ret (SubEvent (set_user_data y id NotificationsInWait)
                       (NotificationsInOpen id protocol frame))
            | (None, handshake) =>
                Ret (SubContinue (set_user_data y id
                       (NotificationsInHandshake handshake protocol)) data)
            end)
      end
  | NotificationsInWait =>
      Ret (SubContinue (set_user_data y id NotificationsInWait) [])
  | PingIn payload =>
      r <- ping_echo y id payload data ;;
      let (y, payload) := r in
      Ret (SubContinue (set_user_data y id (PingIn payload)) [])
  | NotificationsOut | RequestInSend => Panic
  end
  end.

Fixpoint sub_loop (fuel : nat) (e : Established) (y : Yamux) (id : nat) (data : list byte)
  : exec Error (Yamux * option Event) :=
  match data with
  | [] => Ret (y, None)
  | _ =>
      match fuel with
      | 0 => NoFuel
      | S fuel =>
          st <- sub_step e y id data ;;
          match st with
          | SubContinue y data => sub_loop fuel e y id data
          | SubBreak y => Ret (y, None)
          | SubEvent y ev => Ret (y, Some ev)
          end
      end
  end.

(** ** The decoding loop of [read_write] *)

Inductive DecodeExit : Type :=
| DecodeDone (e : Established) (total_read : nat)
| DecodeEvent (e : Established) (total_read : nat) (ev : Event).

Definition consume (e : Established) (n : nat) : Established :=
  set_encryption e (consume_inbound_data C (encryption e) n).

(** The listener negotiation of an accepted inbound substream. *)
Definition inbound_nego (e : Established) : InProgress C :=
  nego_new C (Listener (in_request_protocols e ++ in_notifications_protocols e
                        ++ [ping_protocol e])).

(** One turn of the decoding loop: push the inbound bytes into the
    cipher, then let the multiplexer parse the decoded plaintext. *)
Definition inject_step (e : Established) (incoming : option (list byte)) (total_read : nat)
  : exec Error (Established * option (list byte) * nat) :=
  match incoming with
  | Some data =>
      match inject_inbound_data C (encryption e) data with
      | Err err => Fail (ErrNoise err)
      | Ok (n, num_read) =>
          if num_read <=? length data
          then Ret (set_encryption e n, Some (skipn num_read data), total_read + num_read)
          else Panic
      end
  | None => Ret (e, None, total_read)
  end.

Fixpoint decode_loop (fuel : nat) (e : Established) (incoming : option (list byte))
  (total_read : nat) : exec Error DecodeExit :=
  match fuel with
  | 0 => NoFuel
  | S fuel =>
  st <- inject_step e incoming total_read ;;
  let '(e, incoming, total_read) := st in
  match incoming_data (yamux e) (decoded_inbound_data C (encryption e)) with
  | Err err => Fail (ErrYamux err)
  | Ok (y, bytes_read, detail) =>
      let e := set_yamux e y in
      match detail with
      | None =>
          if bytes_read =? 0 then Ret (DecodeDone e total_read)
          else decode_loop fuel (consume e bytes_read) incoming total_read
      | Some IncomingSubstream =>
          let e := set_yamux e (accept_pending_substream (yamux e)
                                  (InboundNegotiating (inbound_nego e))) in
          decode_loop fuel (consume e bytes_read) incoming total_read
      | Some (StreamReset id ud) =>
          match ud with
          | Poisoned => Panic
          | InboundNegotiating _ | NegotiationFailed =>
              decode_loop fuel e incoming total_read
          | RequestOutNegotiating _ _ _ user_data | RequestOut _ user_data _ =>
              Ret (DecodeEvent e total_read (Response (Err SubstreamReset) id user_data))
          | RequestInRecv _ _ | NotificationsInHandshake _ _ | NotificationsInWait
          | PingIn _ =>
              decode_loop fuel e incoming total_read
          | _ => Panic
          end
      | Some (DataFrame start_offset id) =>
          let decoded := decoded_inbound_data C (encryption e) in
          if (start_offset <=? bytes_read) && (bytes_read <=? length decoded) then
            let data := firstn (bytes_read - start_offset) (skipn start_offset decoded) in
            match lookup_sub (yamux e) id with
            | None => Panic
            | Some _ =>
                r <- sub_loop fuel e (yamux e) id data ;;
                let (y, ev) := r in
                let e := set_yamux e y in
                match ev with
                | Some ev => Ret (DecodeEvent e total_read ev)
                | None =>
                    if bytes_read =? 0 then Ret (DecodeDone e total_read)
                    else decode_loop fuel (consume e bytes_read) incoming total_read
                end
            end
          else Panic
      end
  end
  end.

(** ** The encrypt-out loop of [read_write] *)

Fixpoint encrypt_out_loop (fuel : nat) (e : Established) (out0 out1 : nat)
  (total_written : nat) : exec Error (Established * nat) :=
  match fuel with
  | 0 => NoFuel
  | S fuel =>
      let bytes_out := encrypt_size_conv C (encryption e) (out0 + out1) in
      if bytes_out =? 0 then Ret (e, total_written)
      else
        let (y, buffers) := extract_out (yamux e) bytes_out in
        let e := set_yamux e y in
        match buffers with
        | [] => Ret (e, total_written)
        | _ =>
            let '(n, _, written) := encrypt C (encryption e) buffers out0 out1 in
            let e := set_encryption e n in
            if written - out0 <=? out1 then
              let total_written := total_written + written in
              let out0' := out0 - Nat.min written out0 in
              let out1' := out1 - (written - out0) in
              if out0' =? 0 then encrypt_out_loop fuel e out1' out0' total_written
              else encrypt_out_loop fuel e out0' out1' total_written
            else Panic
        end
  end.

(** ** [read_write] *)

Definition read_write (fuel : nat) (e : Established) (now : TNow)
  (incoming_buffer : option (list byte)) (out0 out1 : nat) : exec Error ReadWrite :=
  u <- update_now e now ;;
  let (e, ev) := u in
  match ev with
  | Some ev =>
      Ret {| connection := e; read_bytes := 0; written_bytes := 0;
             wake_up_after := next_timeout e; event := Some ev |}
  | None =>
      d <- decode_loop fuel e incoming_buffer 0 ;;
      match d with
      | DecodeEvent e total_read ev =>
          Ret {| connection := e; read_bytes := total_read; written_bytes := 0;
                 wake_up_after := next_timeout e; event := Some ev |}
      | DecodeDone e total_read =>
          w <- encrypt_out_loop fuel e out0 out1 0 ;;
          let (e, total_written) := w in
          Ret {| connection := e; read_bytes := total_read;
                 written_bytes := total_written;
                 wake_up_after := next_timeout e; event := None |}
      end
  end.

(** ** Host operations *)

(** [next_timeout] lowered to [timeout] if it is later (or absent). *)
Definition lower_next_timeout (e : Established) (timeout : TNow) : option TNow :=
  if match next_timeout e with None => true | Some t => timeout <? t end
  then Some timeout else next_timeout e.

(** [add_request]; [None] is the panic of [unwrap] / [unreachable!]. *)
Definition add_request (e : Established) (now : TNow) (protocol : string)
  (request : list byte) (user_data : TRqUd) : option (Established * nat) :=
  match read_write_vec C (nego_new C (Dialer protocol)) [] with
  | Ok (NegInProgress negotiation, _, out_buffer) =>
      let timeout := now + 20 in
      let e := set_next_timeout e (lower_next_timeout e timeout) in
      let (y, id) := open_substream (yamux e)
                       (RequestOutNegotiating timeout negotiation request user_data) in
      Some (set_yamux e (sub_write y id out_buffer), id)
  | _ => None
  end.

(** [open_notifications_substream]. *)
Definition open_notifications_substream (e : Established) (now : TNow) (protocol : string)
  (handshake : list byte) : option (Established * nat) :=
  match read_write_vec C (nego_new C (Dialer protocol)) [] with
  | Ok (NegInProgress negotiation, _, out_buffer) =>
      let timeout := now + 20 in
      let e := set_next_timeout e (lower_next_timeout e timeout) in
      let (y, id) := open_substream (yamux e)
                       (NotificationsOutNegotiating timeout negotiation handshake) in
      Some (set_yamux e (sub_write y id out_buffer), id)
  | _ => None
  end.

(** [struct Config]. *)
Record Config : Type := {
  cfg_in_request_protocols : list string;
  cfg_in_notifications_protocols : list string;
  cfg_ping_protocol : string;
  randomness_seed : N * N
}.

(** [ConnectionPrototype::into_connection]; the multiplexer starts with
    no substream (identifiers from 1). *)
Definition into_connection (encryption : NoiseState C) (config : Config) : Established :=
  {| encryption := encryption;
     yamux := {| y_codec := yamux_codec_new C (is_initiator C encryption) 64
                              (randomness_seed config);
                 y_substreams := []; y_pending := false; y_next_id := 1;
                 y_resets := [] |};
     next_timeout := None;
     in_request_protocols := cfg_in_request_protocols config;
     in_notifications_protocols := cfg_in_notifications_protocols config;
     ping_protocol := cfg_ping_protocol config |}.

End Established.

Arguments Poisoned {C TRqUd}.
Arguments InboundNegotiating {C TRqUd} nego.
Arguments NegotiationFailed {C TRqUd}.
Arguments NotificationsOutNegotiating {C TRqUd} timeout negotiation handshake.
Arguments NotificationsOutHandshakeRecv {C TRqUd} handshake.
Arguments NotificationsOut {C TRqUd}.
Arguments NotificationsInHandshake {C TRqUd} handshake protocol.
Arguments NotificationsInWait {C TRqUd}.
Arguments RequestOutNegotiating {C TRqUd} timeout negotiation request user_data.
Arguments RequestOut {C TRqUd} timeout user_data response.
Arguments RequestInRecv {C TRqUd} request protocol.
Arguments RequestInSend {C TRqUd}.
Arguments PingIn {C TRqUd} payload.
Arguments EndOfData {C TRqUd TNotifUd}.
Arguments RequestIn {C TRqUd TNotifUd} id protocol request.
Arguments Response {C TRqUd TNotifUd} response id user_data.
Arguments NotificationsOutAccept {C TRqUd TNotifUd} id user_data remote_handshake.
Arguments NotificationsOutReject {C TRqUd TNotifUd} id user_data.
Arguments NotificationsInOpen {C TRqUd TNotifUd} id protocol handshake.
Arguments Timeout {C}.
Arguments DecodeDone {C TRqUd TNotifUd} e total_read.
Arguments DecodeEvent {C TRqUd TNotifUd} e total_read ev.
Arguments SubContinue {C TRqUd TNotifUd} y data.
Arguments SubBreak {C TRqUd TNotifUd} y.
Arguments SubEvent {C TRqUd TNotifUd} y ev.
Arguments IncomingSubstream {C TRqUd}.
Arguments StreamReset {C TRqUd} substream_id user_data.
Arguments DataFrame {C TRqUd} start_offset substream_id.
Arguments ProtocolNotAvailable {C}.
Arguments SubstreamReset {C}.

(** ** A small instance of the collaborators

    Used to run the engine on concrete inputs.  The cipher is the
    identity (its state is the decoded buffer); a yamux frame is
    [tag; id; len] followed by [len] payload bytes (tag 0 opens a
    substream, 1 carries data, 2 resets); a dialer negotiation sends one
    byte and reads one answer byte (1: accepted, otherwise refused); a
    listener reads the index of the protocol in its list; a frame of the
    framed reader is a length byte followed by that many bytes. *)
Module Toy.

Definition b2n (b : byte) : nat := Byte.to_nat b.

Definition n2b (n : nat) : byte :=
  match Byte.of_nat n with Some b => b | None => Byte.x00 end.

Definition decode (c : unit) (d : list byte) : result (unit * nat * RawFrame) unit :=
  match d with
  | tag :: id :: len :: _ =>
      let total := 3 + b2n len in
      if total <=? length d then
        match b2n tag with
        | 0 => Ok (c, total, RawOpen)
        | 1 => Ok (c, total, RawData 3 (b2n id))
        | 2 => Ok (c, total, RawReset (b2n id))
        | _ => Err tt
        end
      else Ok (c, 0, RawNone)
  | _ => Ok (c, 0, RawNone)
  end.

Definition nego_step (n : NegoConfig) (d : list byte)
  : result (Negotiation NegoConfig * nat * list byte) unit :=
  match n, d with
  | Dialer p, [] => Ok (NegInProgress (Dialer p), 0, [Byte.x01])
  | Dialer p, b :: _ =>
      if b2n b =? 1 then Ok (NegSuccess p, 1, []) else Ok (NegNotAvailable, 1, [])
  | Listener l, [] => Ok (NegInProgress (Listener l), 0, [])
  | Listener l, b :: _ =>
      match nth_error l (b2n b) with
      | Some p => Ok (NegSuccess p, 1, [Byte.x01])
      | None => Ok (NegNotAvailable, 1, [Byte.x00])
      end
  end.

Definition take (f : list byte) : option (list byte) * list byte :=
  match f with
  | len :: rest =>
      if b2n len <=? length rest then (Some (firstn (b2n len) rest), skipn (b2n len) rest)
      else (None, f)
  | [] => (None, [])
  end.

Definition collab : Collab := {|
  NoiseState := list byte;
  CipherError := unit;
  inject_inbound_data := fun n d => Ok (n ++ d, length d);
  decoded_inbound_data := fun n => n;
  consume_inbound_data := fun n k => skipn k n;
  encrypt_size_conv := fun _ cap => cap;
  encrypt := fun n bufs l0 l1 =>
    (n, length (concat bufs), Nat.min (length (concat bufs)) (l0 + l1));
  YamuxCodec := unit;
  YamuxError := unit;
  decode_frame := decode;
  InProgress := NegoConfig;
  NegoError := unit;
  nego_new := fun c => c;
  read_write_vec := nego_step;
  Framed := list byte;
  FramedError := unit;
  framed_new := fun _ => [];
  inject_data := fun f d => Ok (f ++ d, length d);
  take_frame := take;
  encode_usize := fun n => [n2b n];
  is_initiator := fun _ => true;
  yamux_codec_new := fun _ _ _ => tt
|}.

Definition config : Config := {|
  cfg_in_request_protocols := ["/x/req"%string];
  cfg_in_notifications_protocols := ["/x/notif"%string];
  cfg_ping_protocol := "/ipfs/ping/1.0.0"%string;
  randomness_seed := (0%N, 0%N)
|}.

(** A fresh connection. *)
Definition conn0 : Established collab nat := into_connection collab nat [] config.

Definition opt_fst {A B} (o : option (A * B)) : option A := option_map fst o.

Definition or_conn0 (o : option (Established collab nat * nat)) : Established collab nat :=
  match o with Some (e, _) => e | None => conn0 end.

(** One request opened at time 0 (deadline 20, tag 42, substream 1). *)
Definition conn1 : Established collab nat :=
  or_conn0 (add_request collab nat conn0 0 "/x/req" [Byte.x07] 42).

(** A second request opened at time 5 (deadline 25, tag 43, substream 2). *)
Definition conn2 : Established collab nat :=
  or_conn0 (add_request collab nat conn1 5 "/x/req" [Byte.x08] 43).

(** A notifications substream opened at time 0 (substream 1). *)
Definition conn_notif : Established collab nat :=
  or_conn0 (open_notifications_substream collab nat conn0 0 "/x/notif" [Byte.x01]).

(** A yamux frame of the toy codec. *)
Definition frame (tag id : nat) (payload : list byte) : list byte :=
  n2b tag :: n2b id :: n2b (length payload) :: payload.

(** The value of a call that returns, or [d]. *)
Definition ret_or {E A} (d : A) (x : exec E A) : A :=
  match x with Ret a => a | _ => d end.

Definition rw_default : ReadWrite collab nat unit :=
  {| connection := conn0; read_bytes := 0; written_bytes := 0;
     wake_up_after := None; event := None |}.

(** The result of a [read_write] call on the toy collaborators. *)
Definition run (fuel : nat) (e : Established collab nat) (now : nat)
  (inb : option (list byte)) (out0 out1 : nat) : ReadWrite collab nat unit :=
  ret_or rw_default (read_write collab nat unit fuel e now inb out0 out1).

(** The state [add_request] gives substream 1 of [conn1]. *)
Definition req1 : Substream collab nat :=
  @RequestOutNegotiating collab nat 20 (Dialer "/x/req") [Byte.x07] 42.

(** A table with one accepted inbound substream (id 1), still negotiating. *)
Definition y_in : Yamux collab nat :=
  accept_pending_substream collab nat (yamux _ _ conn0)
    (InboundNegotiating (inbound_nego collab nat conn0)).

Definition s_in : SubEntry collab nat :=
  new_entry collab nat 1 (InboundNegotiating (inbound_nego collab nat conn0)).

(** A table with one inbound ping substream (id 1) and no byte buffered. *)
Definition y_ping : Yamux collab nat :=
  accept_pending_substream collab nat (yamux _ _ conn0) (PingIn []).

Definition s_ping : SubEntry collab nat := new_entry collab nat 1 (PingIn []).

(** One turn of [inject_step] on the toy collaborators, and what the
    multiplexer then parses from the decoded buffer. *)
Definition inj (e : Established collab nat) (inc : option (list byte)) (tr : nat)
  : Established collab nat * option (list byte) * nat :=
  ret_or (e, inc, tr) (inject_step collab nat e inc tr).

Definition dec (e : Established collab nat) : Yamux collab nat * nat :=
  match incoming_data collab nat (yamux _ _ e) (decoded_inbound_data collab (encryption _ _ e)) with
  | Ok (y, n, _) => (y, n)
  | Err _ => (yamux _ _ e, 0)
  end.

(** The remote resets substream 1 of [conn1]. *)
Definition reset1 := inj conn1 (Some (frame 2 1 [])) 0.
Definition reset1_dec := dec (fst (fst reset1)).

(** The remote opens a substream on [conn0]. *)
Definition open0 := inj conn0 (Some (frame 0 0 [])) 0.
Definition open0_dec := dec (fst (fst open0)).

End Toy.

(** The toy collaborators with failures: the cipher, the negotiation and
    the framed reader reject any input that starts with the byte [0xff]. *)
Module Faulty.

Definition bad (d : list byte) : bool :=
  match d with b :: _ => Byte.eqb b Byte.xff | [] => false end.

Definition collab : Collab := {|
  NoiseState := list byte;
  CipherError := unit;
  inject_inbound_data := fun n d => if bad d then Err tt else Ok (n ++ d, length d);
  decoded_inbound_data := fun n => n;
  consume_inbound_data := fun n k => skipn k n;
  encrypt_size_conv := fun _ cap => cap;
  encrypt := fun n bufs l0 l1 =>
    (n, length (concat bufs), Nat.min (length (concat bufs)) (l0 + l1));
  YamuxCodec := unit;
  YamuxError := unit;
  decode_frame := Toy.decode;
  InProgress := NegoConfig;
  NegoError := unit;
  nego_new := fun c => c;
  read_write_vec := fun n d => if bad d then Err tt else Toy.nego_step n d;
  Framed := list byte;
  FramedError := unit;
  framed_new := fun _ => [];
  inject_data := fun f d => if bad d then Err tt else Ok (f ++ d, length d);
  take_frame := Toy.take;
  encode_usize := fun n => [Toy.n2b n];
  is_initiator := fun _ => true;
  yamux_codec_new := fun _ _ _ => tt
|}.

Definition conn0 : Established collab nat := into_connection collab nat [] Toy.config.

(** One request opened at time 0 (deadline 20, tag 42, substream 1). *)
Definition conn1 : Established collab nat :=
  match add_request collab nat conn0 0 "/x/req" [Byte.x07] 42 with
  | Some (e, _) => e
  | None => conn0
  end.

(** The state and the entry [add_request] gives substream 1 of [conn1]. *)
Definition req1 : Substream collab nat :=
  @RequestOutNegotiating collab nat 20 (Dialer "/x/req") [Byte.x07] 42.

Definition s_req1 : SubEntry collab nat :=
  {| se_id := 1; se_user_data := req1; se_write_queue := [[Byte.x01]]; se_closed := false |}.

(** A table with one substream (id 1) in the state [ud], and its entry. *)
Definition table (ud : Substream collab nat) : Yamux collab nat :=
  accept_pending_substream collab nat (yamux _ _ conn0) ud.

Definition entry (ud : Substream collab nat) : SubEntry collab nat :=
  new_entry collab nat 1 ud.

End Faulty.

(** Substream tables of the toy collaborators. *)
Module Samples.

(** A table with one substream (id 1) in the state [ud], and its entry. *)
Definition table (ud : Substream Toy.collab nat) : Yamux Toy.collab nat :=
  accept_pending_substream Toy.collab nat (yamux _ _ Toy.conn0) ud.

Definition entry (ud : Substream Toy.collab nat) : SubEntry Toy.collab nat :=
  new_entry Toy.collab nat 1 ud.

(** The entry of the request of [Toy.conn1]: the dialer's first byte is queued. *)
Definition s_req1 : SubEntry Toy.collab nat :=
  {| se_id := 1; se_user_data := Toy.req1; se_write_queue := [[Byte.x01]];
     se_closed := false |}.

(** The entry of the notifications substream of [Toy.conn_notif]. *)
Definition notif1 : Substream Toy.collab nat :=
  @NotificationsOutNegotiating Toy.collab nat 20 (Dialer "/x/notif") [Byte.x01].

Definition s_notif1 : SubEntry Toy.collab nat :=
  {| se_id := 1; se_user_data := notif1; se_write_queue := [[Byte.x01]];
     se_closed := false |}.

End Samples.

(** * Properties *)

(** The formal reading of C1: [wake_up_after], when present, is at least
    the smallest deadline of the deadline-bearing substreams; when absent,
    there is no such substream. *)
Definition wake_claim {C TRqUd TNotifUd} (r : ReadWrite C TRqUd TNotifUd) : Prop :=
  match wake_up_after C TRqUd TNotifUd r,
        min_deadline C TRqUd (user_datas C TRqUd (yamux C TRqUd (connection C TRqUd TNotifUd r)))
  with
  | Some w, Some m => m <= w
  | None, Some _ => False
  | _, _ => True
  end.

(** ** General properties *)

Section Proofs.

Variable C : Collab.
Variable TRqUd : Type.
Variable TNotifUd : Type.

Ltac unfold_ud := unfold user_datas.
Ltac unfold_rw := unfold read_write.
Ltac unfold_rw_in H := unfold read_write in H.
Ltac unfold_inc H := unfold incoming_data in H.
Ltac unfold_un H := unfold update_now in H.
Ltac unfold_un_goal := unfold update_now.

Local Abbreviation Established := (Established C TRqUd).
Local Abbreviation Yamux := (Yamux C TRqUd).
Local Abbreviation Substream := (Substream C TRqUd).
Local Abbreviation user_datas := (user_datas C TRqUd).
Local Abbreviation read_write := (read_write C TRqUd TNotifUd).
Local Abbreviation decode_loop := (decode_loop C TRqUd TNotifUd).
Local Abbreviation sub_loop := (sub_loop C TRqUd TNotifUd).
Local Abbreviation sub_step := (sub_step C TRqUd TNotifUd).
Local Abbreviation encrypt_out_loop := (encrypt_out_loop C TRqUd).
Local Abbreviation update_now := (update_now C TRqUd TNotifUd).
Local Abbreviation inject_step := (inject_step C TRqUd).

Local Abbreviation NF := (@NegotiationFailed C TRqUd).
Local Abbreviation ping_echo := (ping_echo C TRqUd).
Local Abbreviation incoming_data := (incoming_data C TRqUd).
Local Abbreviation Event := (Event C TRqUd TNotifUd).

(** *** Definitions used by the statements and the proofs *)

Definition len_opt (o : option (list byte)) : nat :=
  match o with Some d => length d | None => 0 end.

Definition exit_read (d : DecodeExit C TRqUd TNotifUd) : nat :=
  match d with DecodeDone _ tr => tr | DecodeEvent _ tr _ => tr end.

Definition set_ud (id : nat) (ud : Substream) (l : list (nat * Substream))
  : list (nat * Substream) :=
  map (fun p => if fst p =? id then (fst p, ud) else p) l.

Fixpoint remove_ud (id : nat) (l : list (nat * Substream)) : list (nat * Substream) :=
  match l with
  | [] => []
  | p :: l' => if fst p =? id then l' else p :: remove_ud id l'
  end.

(** A state may turn into another one with no deadline or with the same
    deadline; [NegotiationFailed] only turns into itself. *)
Definition evolved (ud ud' : Substream) : Prop :=
  (deadline _ _ ud' = None \/ deadline _ _ ud' = deadline _ _ ud) /\
  (ud = NF -> ud' = NF).

Definition evolves (y y' : Yamux) : Prop :=
  y_next_id _ _ y <= y_next_id _ _ y' /\
  forall j ud', In (j, ud') (user_datas y') ->
    (exists ud, In (j, ud) (user_datas y) /\ evolved ud ud') \/
    (y_next_id _ _ y <= j /\ deadline _ _ ud' = None).

(** Well-formed table: distinct identifiers, all below [y_next_id]. *)
Definition WF (y : Yamux) : Prop :=
  NoDup (map fst (user_datas y)) /\
  forall j, In j (map fst (user_datas y)) -> j < y_next_id _ _ y.

(** Where the id of an event can come from: a substream of the table at
    the start of the call that is not in [NegotiationFailed], or a
    substream accepted during the call. *)
Definition origin (y : Yamux) (j : nat) : Prop :=
  (exists ud, In (j, ud) (user_datas y) /\ ud <> NF) \/ y_next_id _ _ y <= j.

(** The substream [X] is silent: every entry it has is in
    [NegotiationFailed], and it cannot be allocated again. *)
Definition quiet (X : nat) (y : Yamux) : Prop :=
  (forall ud, In (X, ud) (user_datas y) -> ud = NF) /\ X < y_next_id _ _ y.

(** ... and it is still in the table, in [NegotiationFailed]. *)
Definition closed_ok (X : nat) (y : Yamux) : Prop :=
  quiet X y /\ In (X, NF) (user_datas y).

Definition event_id (ev : Event) : option nat :=
  match ev with
  | EndOfData => None
  | RequestIn id _ _ => Some id
  | Response _ id _ => Some id
  | NotificationsInOpen id _ _ => Some id
  | NotificationsOutAccept id _ _ => Some id
  | NotificationsOutReject id _ => Some id
  end.

Definition step_ok (y : Yamux) (id : nat) (st : SubStep C TRqUd TNotifUd) : Prop :=
  match st with
  | SubContinue y' _ | SubBreak y' => WF y' /\ evolves y y'
  | SubEvent y' ev =>
      WF y' /\ evolves y y' /\ event_id ev = Some id /\
      (exists ud, In (id, ud) (user_datas y) /\ ud <> NF) /\
      (forall f j u, ev = Response (Ok f) j u -> closed_ok id y')
  end.

Definition loop_ok (y : Yamux) (id : nat) (r : Yamux * option Event) : Prop :=
  WF (fst r) /\ evolves y (fst r) /\
  forall ev, snd r = Some ev ->
    event_id ev = Some id /\ origin y id /\
    (forall f j u, ev = Response (Ok f) j u -> closed_ok id (fst r)).

Definition decode_engine (d : DecodeExit C TRqUd TNotifUd) : Established :=
  match d with DecodeDone e _ => e | DecodeEvent e _ _ => e end.

Definition decode_ok (e : Established) (d : DecodeExit C TRqUd TNotifUd) : Prop :=
  WF (yamux _ _ (decode_engine d)) /\
  evolves (yamux _ _ e) (yamux _ _ (decode_engine d)) /\
  next_timeout _ _ (decode_engine d) = next_timeout _ _ e /\
  match d with
  | DecodeDone _ _ => True
  | DecodeEvent e' _ ev =>
      (forall j, event_id ev = Some j -> origin (yamux _ _ e) j) /\
      (forall f j u, ev = Response (Ok f) j u -> closed_ok j (yamux _ _ e'))
  end.

(** The timer covers every deadline of the table. *)
Definition timeout_inv (e : Established) : Prop :=
  forall j ud t, In (j, ud) (user_datas (yamux _ _ e)) -> deadline _ _ ud = Some t ->
    exists n, next_timeout _ _ e = Some n /\ n <= t.

Definition rw_ok (e : Established) (r : ReadWrite C TRqUd TNotifUd) : Prop :=
  WF (yamux _ _ (connection _ _ _ r)) /\
  evolves (yamux _ _ e) (yamux _ _ (connection _ _ _ r)) /\
  wake_up_after _ _ _ r = next_timeout _ _ (connection _ _ _ r) /\
  (timeout_inv e -> timeout_inv (connection _ _ _ r)) /\
  (forall ev j, event _ _ _ r = Some ev -> event_id ev = Some j -> origin (yamux _ _ e) j) /\
  (forall f j u, event _ _ _ r = Some (Response (Ok f) j u) ->
     closed_ok j (yamux _ _ (connection _ _ _ r))).

(** The operations of the public API. *)
Inductive api_step : Established -> Established -> Prop :=
| api_read_write fuel e now inb o0 o1 r :
    read_write fuel e now inb o0 o1 = Ret r -> api_step e (connection _ _ _ r)
| api_add_request e now protocol request user_data e' id :
    add_request C TRqUd e now protocol request user_data = Some (e', id) -> api_step e e'
| api_open_notifications e now protocol handshake e' id :
    open_notifications_substream C TRqUd e now protocol handshake = Some (e', id) ->
    api_step e e'.

Inductive api_steps : Established -> Established -> Prop :=
| api_done e : api_steps e e
| api_next e1 e2 e3 : api_step e1 e2 -> api_steps e2 e3 -> api_steps e1 e3.

(** Engines built by [into_connection] and driven through the API. *)
Definition reachable (e : Established) : Prop :=
  exists encryption config, api_steps (into_connection C TRqUd encryption config) e.

Definition good (e : Established) : Prop := WF (yamux _ _ e) /\ timeout_inv e.

(** No later [read_write] reports an event carrying the id [X]. *)
Definition never_again (X : nat) (e : Established) : Prop :=
  forall e2, api_steps e e2 ->
  forall fuel now inb o0 o1 r ev,
    read_write fuel e2 now inb o0 o1 = Ret r -> event _ _ _ r = Some ev ->
    event_id ev <> Some X.

Definition request_tag (ud : Substream) : option TRqUd :=
  match ud with
  | RequestOutNegotiating _ _ _ u | RequestOut _ u _ => Some u
  | _ => None
  end.

(** The corrected reading of C2: what the decoding loop does with a
    reset of a substream, by the state the reset hands back. *)
Definition reset_outcome (fuel : nat) (e : Established) (incoming : option (list byte))
  (total_read : nat) (id : nat) (ud : Substream) : exec (Error C) (DecodeExit C TRqUd TNotifUd) :=
  match ud with
  (* a request: one [Response] with [SubstreamReset] *)
  | RequestOutNegotiating _ _ _ u | RequestOut _ u _ =>
      Ret (DecodeEvent e total_read (Response (Err SubstreamReset) id u))
  (* dropped silently, the loop goes on *)
  | InboundNegotiating _ | NegotiationFailed | RequestInRecv _ _
  | NotificationsInHandshake _ _ | NotificationsInWait | PingIn _ =>
      decode_loop fuel e incoming total_read
  (* [todo!()]: outbound notifications and [RequestInSend] *)
  | Poisoned | NotificationsOutNegotiating _ _ _ | NotificationsOutHandshakeRecv _
  | NotificationsOut | RequestInSend => Panic
  end.

(** The corrected reading of C7, from the spec's words: the state of an
    inbound substream whose negotiation succeeded with [proto]. *)
Definition inbound_success_state (e : Established) (proto : string) : Substream :=
  if String.eqb proto (ping_protocol _ _ e) then PingIn []
  else if existsb (String.eqb proto) (in_request_protocols _ _ e)
  then RequestInRecv (framed_new C (10 * 1024 * 1024)) proto
  else NotificationsInHandshake (framed_new C (10 * 1024 * 1024)) proto.

(** The consecutive 32-byte blocks of a byte string, [k] of them. *)
Fixpoint blocks (k : nat) (l : list byte) : list (list byte) :=
  match k with
  | 0 => []
  | S k' => firstn 32 l :: blocks k' (skipn 32 l)
  end.

(** Successive data slices delivered on the substream [id], each one run
    through the per-substream loop of [read_write]. *)
Fixpoint feed (fuel : nat) (e : Established) (y : Yamux) (id : nat)
  (ds : list (list byte)) : exec (Error C) Yamux :=
  match ds with
  | [] => Ret y
  | d :: ds' => r <- sub_loop fuel e y id d ;; feed fuel e (fst r) id ds'
  end.

Definition with_queue_ud (s : SubEntry C TRqUd) (ud : Substream) (q : list (list byte))
  : SubEntry C TRqUd :=
  {| se_id := se_id _ _ s; se_user_data := ud;
     se_write_queue := se_write_queue _ _ s ++ q; se_closed := se_closed _ _ s |}.

(** Contracts of the collaborators: the cipher keeps its state when it
    takes no inbound byte, and when it writes no outbound byte; the yamux
    codec recognises no frame, and keeps its state, when it consumes
    nothing. *)
Definition inject_idle_contract : Prop :=
  forall n d n', inject_inbound_data C n d = Ok (n', 0) -> n' = n.

Definition encrypt_idle_contract : Prop :=
  forall n bufs l0 l1 n' rd, encrypt C n bufs l0 l1 = (n', rd, 0) -> n' = n.

Definition decode_idle_contract : Prop :=
  forall c d c' f, decode_frame C c d = Ok (c', 0, f) -> c' = c /\ f = RawNone.

(** The protocol configuration of an engine. *)
Definition protocols (e : Established) : list string * list string * string :=
  (in_request_protocols _ _ e, in_notifications_protocols _ _ e, ping_protocol _ _ e).

(** Case analysis on every [match] of a hypothesis, dropping the
    impossible branches. *)
Ltac split_matches H :=
  repeat (unfold bind in H;
          match type of H with
          | context [match ?x with _ => _ end] => destruct x eqn:?
          end; simpl in H; try discriminate).

(** Boolean comparisons of the context turned into propositions. *)
Ltac bools :=
  repeat match goal with
  | H : (_ <=? _) = true |- _ => apply Nat.leb_le in H
  | H : (_ <=? _) = false |- _ => apply Nat.leb_gt in H
  | H : (_ <? _) = true |- _ => apply Nat.ltb_lt in H
  | H : (_ <? _) = false |- _ => apply Nat.ltb_ge in H
  | H : (_ =? _) = true |- _ => apply Nat.eqb_eq in H
  | H : (_ =? _) = false |- _ => apply Nat.eqb_neq in H
  | H : (_ && _) = true |- _ => apply andb_true_iff in H; destruct H
  end.

Lemma inject_step_read e inc tr e' inc' tr' :
  inject_step e inc tr = Ret (e', inc', tr') -> tr' + len_opt inc' = tr + len_opt inc.
Proof.
  unfold inject_step. intros H. destruct inc as [d|]; simpl in H.
  - split_matches H. inversion H; subst. simpl.
    rewrite length_skipn. bools. lia.
  - inversion H; subst. reflexivity.
Qed.

Lemma decode_loop_read fuel : forall e inc tr d,
  decode_loop fuel e inc tr = Ret d -> exit_read d <= tr + len_opt inc.
Proof.
  induction fuel as [|fuel IH]; intros e inc tr d H; simpl in H; [discriminate|].
  unfold bind in H.
  destruct (inject_step e inc tr) as [[[e1 inc1] tr1]| | |] eqn:Hi; try discriminate.
  apply inject_step_read in Hi.
  split_matches H; try (inversion H; subst; simpl; lia);
    try (apply IH in H; lia).
Qed.

Lemma encrypt_out_loop_written fuel : forall e o0 o1 tw e' tw',
  encrypt_out_loop fuel e o0 o1 tw = Ret (e', tw') -> tw' <= tw + o0 + o1.
Proof.
  induction fuel as [|fuel IH]; intros e o0 o1 tw e' tw' H; simpl in H; [discriminate|].
  split_matches H; try (inversion H; subst; lia).
  - apply IH in H. bools. lia.
  - apply IH in H. bools. lia.
Qed.

(** *** The (identifier, state) view of the substream table *)

Lemma user_datas_map_sub id f y :
  (forall s, se_id _ _ (f s) = se_id _ _ s) ->
  user_datas (with_substreams C TRqUd y (map_sub C TRqUd id f (y_substreams _ _ y)))
  = map (fun s => if se_id _ _ s =? id then (se_id _ _ s, se_user_data _ _ (f s))
                  else (se_id _ _ s, se_user_data _ _ s)) (y_substreams _ _ y).
Proof.
  intros Hid. unfold_ud; unfold map_sub, with_substreams. simpl.
  rewrite map_map. apply map_ext. intros s.
  destruct (se_id _ _ s =? id); simpl; rewrite ?Hid; reflexivity.
Qed.

Lemma user_datas_sub_write y id b :
  user_datas (sub_write C TRqUd y id b) = user_datas y.
Proof.
  unfold sub_write. rewrite user_datas_map_sub by reflexivity.
  unfold_ud. apply map_ext. intros s. destruct (_ =? _); reflexivity.
Qed.

Lemma user_datas_sub_close y id :
  user_datas (sub_close C TRqUd y id) = user_datas y.
Proof.
  unfold sub_close. rewrite user_datas_map_sub by reflexivity.
  unfold_ud. apply map_ext. intros s. destruct (_ =? _); reflexivity.
Qed.

Lemma user_datas_set y id ud :
  user_datas (set_user_data C TRqUd y id ud) = set_ud id ud (user_datas y).
Proof.
  unfold set_user_data. rewrite user_datas_map_sub by reflexivity.
  unfold_ud; unfold set_ud. rewrite map_map. apply map_ext. intros s.
  simpl. destruct (_ =? _); reflexivity.
Qed.

Lemma remove_sub_view id l :
  map (fun s => (se_id C TRqUd s, se_user_data _ _ s))
      (match remove_sub C TRqUd id l with Some (_, l') => l' | None => l end)
  = remove_ud id (map (fun s => (se_id _ _ s, se_user_data _ _ s)) l).
Proof.
  induction l as [|s l IH]; simpl; [reflexivity|].
  destruct (se_id _ _ s =? id); [reflexivity|].
  destruct (remove_sub C TRqUd id l) as [[ud l']|]; simpl; rewrite <- IH; reflexivity.
Qed.

Lemma remove_sub_in id l ud l' :
  remove_sub C TRqUd id l = Some (ud, l') ->
  In (id, ud) (map (fun s => (se_id _ _ s, se_user_data _ _ s)) l).
Proof.
  revert l'. induction l as [|s l IH]; intros l' H; simpl in H; [discriminate|].
  destruct (se_id _ _ s =? id) eqn:E.
  - inversion H; subst. apply Nat.eqb_eq in E. simpl. left. rewrite E. reflexivity.
  - destruct (remove_sub C TRqUd id l) as [[ud' l'']|] eqn:R; [|discriminate].
    inversion H; subst. simpl. right. eapply IH. reflexivity.
Qed.

Lemma user_datas_sub_reset y id :
  user_datas (fst (sub_reset C TRqUd y id)) = remove_ud id (user_datas y).
Proof.
  unfold sub_reset. unfold_ud. rewrite <- remove_sub_view.
  destruct (remove_sub C TRqUd id (y_substreams _ _ y)) as [[ud l]|]; reflexivity.
Qed.

Lemma next_id_sub_reset y id :
  y_next_id _ _ (fst (sub_reset C TRqUd y id)) = y_next_id _ _ y.
Proof.
  unfold sub_reset. destruct (remove_sub C TRqUd id _) as [[ud l]|]; reflexivity.
Qed.

Lemma lookup_sub_in y id s :
  lookup_sub C TRqUd y id = Some s -> In (id, se_user_data _ _ s) (user_datas y).
Proof.
  unfold lookup_sub; unfold_ud. intros H.
  apply find_some in H. destruct H as [Hin Heq]. apply Nat.eqb_eq in Heq.
  apply in_map_iff. exists s. rewrite Heq. split; [reflexivity|assumption].
Qed.

Lemma set_ud_set_ud id a b l : set_ud id b (set_ud id a l) = set_ud id b l.
Proof.
  unfold set_ud. rewrite map_map. apply map_ext. intros [j u]. simpl.
  destruct (j =? id) eqn:E; simpl; rewrite ?E; reflexivity.
Qed.

Lemma set_ud_fst id ud l : map fst (set_ud id ud l) = map fst l.
Proof.
  unfold set_ud. rewrite map_map. apply map_ext. intros [j u]. simpl.
  destruct (j =? id); reflexivity.
Qed.

Lemma in_set_ud id ud l j u :
  In (j, u) (set_ud id ud l) ->
  (j = id /\ u = ud /\ In id (map fst l)) \/ (j <> id /\ In (j, u) l).
Proof.
  unfold set_ud. intros H. apply in_map_iff in H. destruct H as [[j' u'] [E Hin]].
  simpl in E. destruct (j' =? id) eqn:Ej.
  - apply Nat.eqb_eq in Ej. inversion E as [[Hj Hu]]. left.
    split; [congruence|]. split; [congruence|].
    apply in_map_iff. exists (j', u'). rewrite <- Ej. split; [reflexivity|assumption].
  - apply Nat.eqb_neq in Ej. inversion E; subst. right. split; assumption.
Qed.

Lemma in_set_ud_self id a l : In id (map fst l) -> In (id, a) (set_ud id a l).
Proof.
  induction l as [|[j u] l IH]; simpl; [tauto|]. intros [->|H].
  - left. rewrite Nat.eqb_refl. reflexivity.
  - right. apply IH, H.
Qed.

Lemma in_remove_ud id l j u : In (j, u) (remove_ud id l) -> In (j, u) l.
Proof.
  induction l as [|p l IH]; simpl; [tauto|].
  destruct (fst p =? id); simpl; intuition.
Qed.

Lemma remove_ud_fst_incl id l j : In j (map fst (remove_ud id l)) -> In j (map fst l).
Proof.
  intros H. apply in_map_iff in H. destruct H as [[j' u] [E Hin]]. simpl in E. subst.
  apply in_remove_ud in Hin. apply in_map_iff. exists (j, u). split; [reflexivity|assumption].
Qed.

Lemma remove_ud_nodup id l : NoDup (map fst l) -> NoDup (map fst (remove_ud id l)).
Proof.
  induction l as [|p l IH]; simpl; intros H; [constructor|].
  inversion H; subst. destruct (fst p =? id); [assumption|].
  simpl. constructor; [|auto].
  intros Hin. apply remove_ud_fst_incl in Hin. contradiction.
Qed.

Lemma remove_ud_nodup_gone id l u :
  NoDup (map fst l) -> In (id, u) l -> ~ In id (map fst (remove_ud id l)).
Proof.
  induction l as [|p l IH]; simpl; intros Hn Hin; [contradiction|].
  inversion Hn; subst. destruct (fst p =? id) eqn:E.
  - apply Nat.eqb_eq in E. subst. assumption.
  - apply Nat.eqb_neq in E. destruct Hin as [Hp|Hin]; [subst; simpl in E; congruence|].
    simpl. intros [Hj|Hj]; [congruence|]. exact (IH H2 Hin Hj).
Qed.

(** *** Evolution of the table during a call *)

Lemma evolved_refl ud : evolved ud ud.
Proof. split; [right; reflexivity | tauto]. Qed.

Lemma evolved_trans a b c : evolved a b -> evolved b c -> evolved a c.
Proof.
  unfold evolved. intros [[H1|H1] H2] [[H3|H3] H4];
    split; try (left; congruence); try (right; congruence); tauto.
Qed.

Lemma evolves_refl y : evolves y y.
Proof.
  split; [lia|]. intros j ud' H. left. exists ud'. split; [assumption|apply evolved_refl].
Qed.

Lemma evolves_trans a b c : evolves a b -> evolves b c -> evolves a c.
Proof.
  intros [Hab1 Hab2] [Hbc1 Hbc2]. split; [lia|].
  intros j u Hin. destruct (Hbc2 j u Hin) as [[u1 [Hin1 Hev1]]|[Hle Hd]].
  - destruct (Hab2 j u1 Hin1) as [[u0 [Hin0 Hev0]]|[Hle Hd]].
    + left. exists u0. split; [assumption|]. eapply evolved_trans; eassumption.
    + right. split; [assumption|]. destruct Hev1 as [[Hn|Hn] _]; congruence.
  - right. split; [lia|assumption].
Qed.

Lemma evolves_same y y' :
  user_datas y' = user_datas y -> y_next_id _ _ y' = y_next_id _ _ y -> evolves y y'.
Proof.
  intros H1 H2. split; [lia|]. intros j u Hin. left. exists u. rewrite <- H1.
  split; [assumption|apply evolved_refl].
Qed.

Lemma WF_same y y' :
  user_datas y' = user_datas y -> y_next_id _ _ y' = y_next_id _ _ y -> WF y -> WF y'.
Proof. unfold WF. intros H1 H2. rewrite H1, H2. tauto. Qed.

Lemma shape_set y y' id s ud' :
  lookup_sub C TRqUd y id = Some s ->
  user_datas y' = set_ud id ud' (user_datas y) ->
  y_next_id _ _ y' = y_next_id _ _ y ->
  evolved (se_user_data _ _ s) ud' ->
  WF y -> WF y' /\ evolves y y'.
Proof.
  intros Hl Hu Hn Hev [Hnd Hlt]. apply lookup_sub_in in Hl. split.
  - unfold WF. rewrite Hu, Hn, set_ud_fst. split; assumption.
  - split; [lia|]. intros j u Hin. rewrite Hu in Hin. left.
    apply in_set_ud in Hin. destruct Hin as [[-> [-> _]]|[_ Hin]].
    + exists (se_user_data _ _ s). split; assumption.
    + exists u. split; [assumption|apply evolved_refl].
Qed.

Lemma shape_remove y y' id :
  user_datas y' = remove_ud id (user_datas y) ->
  y_next_id _ _ y' = y_next_id _ _ y ->
  WF y -> WF y' /\ evolves y y'.
Proof.
  intros Hu Hn [Hnd Hlt]. split.
  - unfold WF. rewrite Hu, Hn. split; [apply remove_ud_nodup; assumption|].
    intros j Hj. apply Hlt. apply remove_ud_fst_incl in Hj. assumption.
  - split; [lia|]. intros j u Hin. rewrite Hu in Hin. left. exists u.
    split; [apply in_remove_ud in Hin; assumption|apply evolved_refl].
Qed.

Lemma origin_of_evolves y0 y j ud :
  evolves y0 y -> In (j, ud) (user_datas y) -> ud <> NF -> origin y0 j.
Proof.
  intros [Hn Hev] Hin Hnf. destruct (Hev j ud Hin) as [[u0 [Hin0 [_ Hnf0]]]|[Hle _]].
  - left. exists u0. split; [assumption|]. intros ->. apply Hnf, Hnf0. reflexivity.
  - right. assumption.
Qed.

Lemma origin_evolves y0 y j : evolves y0 y -> origin y j -> origin y0 j.
Proof.
  intros Hev [[ud [Hin Hnf]]|Hle].
  - eapply origin_of_evolves; eassumption.
  - right. destruct Hev as [Hn _]. lia.
Qed.

Lemma quiet_evolves X y y' : quiet X y -> evolves y y' -> quiet X y'.
Proof.
  intros [Hq Hlt] [Hn Hev]. split; [|lia].
  intros ud Hin. destruct (Hev X ud Hin) as [[u0 [Hin0 [_ Hnf]]]|[Hle _]]; [|lia].
  apply Hnf, Hq, Hin0.
Qed.

Lemma quiet_origin X y j : quiet X y -> origin y j -> j <> X.
Proof.
  intros [Hq Hlt] [[ud [Hin Hnf]]|Hle] ->; [|lia]. apply Hnf, Hq, Hin.
Qed.

(** *** One turn of the per-substream loop *)

Lemma next_id_set y id ud : y_next_id _ _ (set_user_data C TRqUd y id ud) = y_next_id _ _ y.
Proof. reflexivity. Qed.

Lemma next_id_write y id b : y_next_id _ _ (sub_write C TRqUd y id b) = y_next_id _ _ y.
Proof. reflexivity. Qed.

Lemma next_id_close y id : y_next_id _ _ (sub_close C TRqUd y id) = y_next_id _ _ y.
Proof. reflexivity. Qed.

Lemma set_ud_notin id a l : ~ In id (map fst l) -> set_ud id a l = l.
Proof.
  induction l as [|[j u] l IH]; simpl; intros H; [reflexivity|].
  destruct (j =? id) eqn:E; [apply Nat.eqb_eq in E; subst; tauto|].
  f_equal. apply IH. tauto.
Qed.

Lemma remove_ud_set_ud id a l :
  NoDup (map fst l) -> remove_ud id (set_ud id a l) = remove_ud id l.
Proof.
  induction l as [|[j u] l IH]; simpl; intros H; [reflexivity|].
  inversion H; subst. destruct (j =? id) eqn:E; simpl; rewrite E.
  - apply Nat.eqb_eq in E; subst. apply set_ud_notin. assumption.
  - f_equal. apply IH. assumption.
Qed.

Lemma shape_reset y y' id a :
  user_datas y' = remove_ud id (set_ud id a (user_datas y)) ->
  y_next_id _ _ y' = y_next_id _ _ y ->
  WF y -> WF y' /\ evolves y y'.
Proof.
  intros Hu Hn Hwf. apply (shape_remove y y' id); [|assumption|assumption].
  rewrite Hu. apply remove_ud_set_ud. apply Hwf.
Qed.

Lemma ping_echo_view p : forall y id d y' p',
  ping_echo y id p d = Ret (y', p') ->
  user_datas y' = user_datas y /\ y_next_id _ _ y' = y_next_id _ _ y.
Proof.
  intros y id d. revert y p. induction d as [|b d IH]; intros y p y' p' H; simpl in H.
  - inversion H; subst. split; reflexivity.
  - split_matches H.
    + apply IH in H. rewrite user_datas_sub_write in H. exact H.
    + apply IH in H. exact H.
Qed.

Ltac view :=
  repeat first [rewrite user_datas_set | rewrite user_datas_sub_write
    | rewrite user_datas_sub_close | rewrite user_datas_sub_reset
    | rewrite next_id_sub_reset | rewrite next_id_set | rewrite next_id_write
    | rewrite next_id_close | rewrite set_ud_set_ud].

Ltac evolved_tac Hs :=
  unfold evolved; rewrite Hs; simpl;
  split; [first [left; reflexivity | right; reflexivity] | intros Hc; first [discriminate | reflexivity]].

Lemma sub_step_ok e y id data st :
  WF y -> sub_step e y id data = Ret st -> step_ok y id st.
Proof.
  intros Hwf H. unfold sub_step in H.
  destruct (lookup_sub C TRqUd y id) as [s|] eqn:Hl; [|discriminate].
  pose proof (lookup_sub_in _ _ _ Hl) as Hin.
  assert (Hlt : id < y_next_id _ _ y).
  { apply Hwf. apply in_map_iff. exists (id, se_user_data _ _ s). split; [reflexivity|assumption]. }
  destruct (se_user_data _ _ s) eqn:Hs; unfold advance in H; split_matches H;
    inversion H; subst; clear H.
  all: lazymatch goal with
  | |- step_ok _ _ (SubContinue (set_user_data _ _ ?Y _ _) _) =>
      tryif is_var Y then idtac else
      (unfold step_ok; eapply shape_set;
        [exact Hl | view; reflexivity | view; reflexivity | evolved_tac Hs | exact Hwf])
  | |- step_ok _ _ (SubBreak _) =>
      unfold step_ok; eapply shape_reset; [view; reflexivity | view; reflexivity | exact Hwf]
  | |- step_ok _ _ (SubEvent (fst (sub_reset _ _ _ _)) _) =>
      unfold step_ok;
      assert (Hr : WF (fst (sub_reset C TRqUd (set_user_data C TRqUd y id Poisoned) id)) /\
                   evolves y (fst (sub_reset C TRqUd (set_user_data C TRqUd y id Poisoned) id)))
        by (eapply shape_reset; [view; reflexivity | view; reflexivity | exact Hwf]);
      destruct Hr as [Hr1 Hr2];
      split; [exact Hr1|]; split; [exact Hr2|]; split; [reflexivity|];
      split; [exists (se_user_data _ _ s); rewrite Hs in *; split; [assumption|discriminate]|];
      intros f j u Hc; discriminate
  | |- _ => idtac
  end.
  - (* [NotificationsInHandshake]: the handshake is complete *)
    unfold step_ok.
    assert (Hq : WF (set_user_data C TRqUd (set_user_data C TRqUd y id Poisoned) id NotificationsInWait) /\
                 evolves y (set_user_data C TRqUd (set_user_data C TRqUd y id Poisoned) id NotificationsInWait)).
    { eapply shape_set; [exact Hl | view; reflexivity | view; reflexivity | evolved_tac Hs | exact Hwf]. }
    destruct Hq as [Hq1 Hq2]. split; [exact Hq1|]. split; [exact Hq2|].
    split; [reflexivity|].
    split; [exists (se_user_data _ _ s); rewrite Hs in *; split; [assumption|discriminate]|].
    intros f' j u Hc; discriminate.
  - (* [RequestOut]: the response is complete *)
    assert (Hq : WF (set_user_data C TRqUd (set_user_data C TRqUd y id Poisoned) id NF) /\
                 evolves y (set_user_data C TRqUd (set_user_data C TRqUd y id Poisoned) id NF)).
    { eapply shape_set; [exact Hl | view; reflexivity | view; reflexivity | evolved_tac Hs | exact Hwf]. }
    unfold step_ok. destruct Hq as [Hq1 Hq2]. split; [exact Hq1|]. split; [exact Hq2|].
    split; [reflexivity|].
    split; [exists (se_user_data _ _ s); rewrite Hs in *; split; [assumption|discriminate]|].
    intros f' j u _. split; [split|].
    + intros ud Hud. rewrite user_datas_set, user_datas_set, set_ud_set_ud in Hud.
      apply in_set_ud in Hud.
      destruct Hud as [[_ [-> _]]|[Hne _]]; [reflexivity|congruence].
    + view. exact Hlt.
    + view. apply in_set_ud_self. apply in_map_iff. eexists.
      split; [|exact Hin]. reflexivity.
  - (* [PingIn] *)
    destruct (ping_echo_view _ _ _ _ _ _ Heqe0) as [Hu Hn].
    unfold step_ok. eapply shape_set;
      [exact Hl | view; rewrite Hu; view; reflexivity | view; rewrite Hn; reflexivity
      | evolved_tac Hs | exact Hwf].
Qed.

Lemma sub_loop_ok fuel : forall e y id data r,
  WF y -> sub_loop fuel e y id data = Ret r -> loop_ok y id r.
Proof.
  induction fuel as [|fuel IH]; intros e y id data r Hwf H.
  - destruct data; simpl in H; [|discriminate].
    inversion H; subst. split; [exact Hwf|]. split; [apply evolves_refl|]. discriminate.
  - destruct data as [|b data]; simpl in H.
    + inversion H; subst. split; [exact Hwf|]. split; [apply evolves_refl|]. discriminate.
    + unfold bind in H.
      destruct (sub_step e y id (b :: data)) as [st| | |] eqn:Hst; try discriminate.
      apply sub_step_ok in Hst; [|exact Hwf].
      destruct st as [y1 d1|y1|y1 ev]; simpl in Hst.
      * destruct Hst as [Hw1 He1]. apply IH in H; [|exact Hw1].
        destruct H as [Hw2 [He2 Hev]]. split; [exact Hw2|].
        split; [eapply evolves_trans; eassumption|].
        intros ev Hs. destruct (Hev ev Hs) as [Hid [Ho Hq]].
        split; [exact Hid|]. split; [eapply origin_evolves; eassumption|exact Hq].
      * inversion H; subst. destruct Hst as [Hw1 He1].
        split; [exact Hw1|]. split; [exact He1|]. discriminate.
      * inversion H; subst. destruct Hst as [Hw1 [He1 [Hid [[ud [Hin Hnf]] Hq]]]].
        split; [exact Hw1|]. split; [exact He1|].
        intros ev' Hs. simpl in Hs. inversion Hs; subst.
        split; [exact Hid|]. split; [left; exists ud; split; assumption|exact Hq].
Qed.

Lemma incoming_data_ok y d y' n det :
  WF y -> incoming_data y d = Ok (y', n, det) ->
  WF y' /\ evolves y y' /\
  (forall id ud, det = Some (StreamReset id ud) -> In (id, ud) (user_datas y)).
Proof.
  intros Hwf H. unfold_inc H. split_matches H; inversion H; subst; clear H;
    (split; [|split]); try (intros id' ud' Hc; discriminate);
    try (apply (WF_same y); [reflexivity|reflexivity|exact Hwf]);
    try (apply evolves_same; reflexivity).
  1,2: apply (shape_remove y _ substream_id); [|reflexivity|exact Hwf];
    unfold_ud; simpl; pose proof (remove_sub_view substream_id (y_substreams _ _ y)) as Hv;
    rewrite Heqo in Hv; exact Hv.
  - intros id' ud' Hc. inversion Hc; subst. eapply remove_sub_in. exact Heqo.
Qed.

Lemma NoDup_snoc (l : list nat) x : NoDup l -> ~ In x l -> NoDup (l ++ [x]).
Proof.
  induction l as [|a l IH]; simpl; intros Hn Hx.
  - constructor; [tauto|constructor].
  - inversion Hn; subst. constructor.
    + rewrite in_app_iff. simpl. intuition.
    + apply IH; tauto.
Qed.

Lemma user_datas_accept y ud :
  user_datas (accept_pending_substream C TRqUd y ud) = user_datas y ++ [(y_next_id _ _ y, ud)].
Proof. unfold_ud. simpl. rewrite map_app. reflexivity. Qed.

Lemma accept_ok y ud :
  WF y -> deadline _ _ ud = None ->
  WF (accept_pending_substream C TRqUd y ud) /\ evolves y (accept_pending_substream C TRqUd y ud).
Proof.
  intros [Hnd Hlt] Hd. split.
  - split; rewrite user_datas_accept, map_app; simpl.
    + apply NoDup_snoc; [exact Hnd|]. intros Hin. apply Hlt in Hin. lia.
    + intros j Hj. apply in_app_or in Hj. destruct Hj as [Hj|[Hj|[]]].
      * apply Hlt in Hj. lia.
      * lia.
  - split; simpl; [lia|]. intros j u Hin. rewrite user_datas_accept in Hin.
    apply in_app_or in Hin. destruct Hin as [Hin|[Hin|[]]].
    + left. exists u. split; [exact Hin|apply evolved_refl].
    + inversion Hin; subst. right. split; [lia|exact Hd].
Qed.

Lemma inject_step_engine e inc tr e' inc' tr' :
  inject_step e inc tr = Ret (e', inc', tr') ->
  yamux _ _ e' = yamux _ _ e /\ next_timeout _ _ e' = next_timeout _ _ e.
Proof.
  unfold inject_step. intros H. destruct inc as [d|].
  - split_matches H. inversion H; subst. split; reflexivity.
  - inversion H; subst. split; reflexivity.
Qed.

Lemma decode_ok_step e e' d :
  decode_ok e' d -> evolves (yamux _ _ e) (yamux _ _ e') ->
  next_timeout _ _ e' = next_timeout _ _ e -> decode_ok e d.
Proof.
  intros [Hw [Hev [Ht Hx]]] He Hn. split; [exact Hw|].
  split; [eapply evolves_trans; eassumption|]. split; [congruence|].
  destruct d as [e1 tr|e1 tr ev]; [exact I|]. destruct Hx as [Ho Hq].
  split; [|exact Hq]. intros j Hj. eapply origin_evolves; [exact He|]. apply Ho, Hj.
Qed.

Ltac engine := cbn [yamux next_timeout encryption in_request_protocols
  in_notifications_protocols ping_protocol consume set_yamux set_encryption set_next_timeout].

Lemma decode_loop_ok fuel : forall e inc tr d,
  WF (yamux _ _ e) -> decode_loop fuel e inc tr = Ret d -> decode_ok e d.
Proof.
  induction fuel as [|fuel IH]; intros e inc tr d Hwf H; simpl in H; [discriminate|].
  unfold bind in H.
  destruct (inject_step e inc tr) as [[[e1 inc1] tr1]| | |] eqn:Hi; try discriminate.
  apply inject_step_engine in Hi. destruct Hi as [Hy1 Ht1].
  destruct (incoming_data (yamux _ _ e1) (decoded_inbound_data C (encryption _ _ e1)))
    as [[[y n] det]|err] eqn:Hinc; [|discriminate].
  rewrite Hy1 in Hinc. apply incoming_data_ok in Hinc; [|exact Hwf].
  destruct Hinc as [Hw [Hev Hsr]].
  destruct det as [[|id ud|st id]|]; cbv beta iota zeta in H.
  - (* a new inbound substream *)
    destruct (accept_ok y (InboundNegotiating (inbound_nego C TRqUd (set_yamux _ _ e1 y))) Hw
                eq_refl) as [Hwa Heva].
    eapply decode_ok_step; [eapply IH; [|exact H]| |]; engine.
    + exact Hwa.
    + eapply evolves_trans; eassumption.
    + exact Ht1.
  - (* a reset *)
    destruct ud; cbv beta iota zeta in H; try discriminate;
      try (eapply decode_ok_step; [eapply IH; [|exact H]| |]; engine;
           [exact Hw | exact Hev | exact Ht1]).
    all: inversion H; subst; clear H; unfold decode_ok; engine;
      (split; [exact Hw|]); (split; [exact Hev|]); (split; [exact Ht1|]);
      (split; [intros j Hj; simpl in Hj; inversion Hj; subst; left; eexists;
               split; [apply Hsr; reflexivity|intros Hc; inversion Hc]
              |intros f j u Hc; discriminate]).
  - (* a data frame *)
    do 2 (match type of H with context [match ?x with _ => _ end] => destruct x end;
          cbv beta iota zeta in H; try discriminate).
    unfold bind in H.
    match type of H with context [sub_loop ?a ?b ?c ?i ?x] =>
      destruct (sub_loop a b c i x) as [[y2 ev]| | |] eqn:Hl end;
      cbv beta iota zeta in H; try discriminate.
    apply sub_loop_ok in Hl; [|exact Hw]. destruct Hl as [Hw2 [Hev2 Hx]]. simpl in Hw2, Hev2, Hx.
    destruct ev as [ev|].
    + inversion H; subst; clear H. unfold decode_ok; engine.
      split; [exact Hw2|]. split; [eapply evolves_trans; eassumption|]. split; [exact Ht1|].
      destruct (Hx ev eq_refl) as [Hid [Ho Hq]]. split.
      * intros j Hj. rewrite Hid in Hj. inversion Hj; subst. eapply origin_evolves; eassumption.
      * intros f j u Hc. pose proof Hc as Hc'. subst ev. simpl in Hid. inversion Hid; subst.
        eapply Hq. reflexivity.
    + destruct (n =? 0); cbv beta iota zeta in H.
      * inversion H; subst; clear H. unfold decode_ok; engine.
        split; [exact Hw2|]. split; [eapply evolves_trans; eassumption|]. split; [exact Ht1|].
        exact I.
      * eapply decode_ok_step; [eapply IH; [|exact H]| |]; engine.
        -- exact Hw2.
        -- eapply evolves_trans; eassumption.
        -- exact Ht1.
  - (* nothing to report *)
    destruct (n =? 0); cbv beta iota zeta in H.
    + inversion H; subst; clear H. unfold decode_ok; engine.
      split; [exact Hw|]. split; [exact Hev|]. split; [exact Ht1|]. exact I.
    + eapply decode_ok_step; [eapply IH; [|exact H]| |]; engine;
        [exact Hw | exact Hev | exact Ht1].
Qed.

(** *** [update_now] and the encrypt-out loop *)

Lemma min_deadline_le l j ud t :
  In (j, ud) l -> deadline _ _ ud = Some t ->
  exists m, min_deadline C TRqUd l = Some m /\ m <= t.
Proof.
  induction l as [|[j' ud'] l IH]; simpl; intros Hin Hd; [contradiction|].
  destruct Hin as [Hin|Hin].
  - inversion Hin; subst. rewrite Hd.
    destruct (min_deadline C TRqUd l); eexists; split; try reflexivity; lia.
  - destruct (IH Hin Hd) as [m [Hm Hle]]. rewrite Hm.
    destruct (deadline _ _ ud'); eexists; split; try reflexivity; lia.
Qed.

Lemma sub_reset_some y id y' ud :
  sub_reset C TRqUd y id = (y', Some ud) -> In (id, ud) (user_datas y).
Proof.
  unfold sub_reset. destruct (remove_sub C TRqUd id (y_substreams _ _ y)) as [[u l]|] eqn:R;
    intros H; inversion H; subst.
  unfold_ud. eapply remove_sub_in. exact R.
Qed.

Lemma sub_reset_view y id y' o :
  sub_reset C TRqUd y id = (y', o) ->
  user_datas y' = remove_ud id (user_datas y) /\ y_next_id _ _ y' = y_next_id _ _ y.
Proof.
  intros H. pose proof (user_datas_sub_reset y id) as U. pose proof (next_id_sub_reset y id) as N.
  rewrite H in U, N. split; assumption.
Qed.

Lemma update_now_ok e now e' ev :
  WF (yamux _ _ e) -> update_now e now = Ret (e', ev) ->
  WF (yamux _ _ e') /\ evolves (yamux _ _ e) (yamux _ _ e') /\
  (forall x, ev = Some x ->
     exists j u, x = Response (Err Timeout) j u /\ origin (yamux _ _ e) j) /\
  (timeout_inv e -> timeout_inv e').
Proof.
  intros Hwf H. unfold_un H.
  destruct (match next_timeout _ _ e with None => true | Some t => now <? t end);
    cbv beta iota zeta in H.
  { inversion H; subst; clear H.
    split; [exact Hwf|]. split; [apply evolves_refl|]. split; [discriminate|tauto]. }
  unfold bind in H.
  destruct (option_map fst _) as [id|]; cbv beta iota zeta in H.
  - destruct (sub_reset C TRqUd (yamux _ _ e) id) as [y o] eqn:Hr.
    destruct o as [ud|]; [|discriminate].
    pose proof (sub_reset_some _ _ _ _ Hr) as Hin.
    apply sub_reset_view in Hr. destruct Hr as [Hu Hn].
    destruct (shape_remove _ _ _ Hu Hn Hwf) as [Hw' Hev'].
    destruct ud; try discriminate; inversion H; subst; clear H;
      (split; [exact Hw'|]); (split; [exact Hev'|]);
      (split; [intros x Hx; inversion Hx; subst; do 2 eexists; split; [reflexivity|];
               left; eexists; split; [exact Hin|intros Hc; inversion Hc]|]);
      intros _ j ud t Hj Hd; simpl;
      exact (min_deadline_le _ _ _ _ Hj Hd).
  - inversion H; subst; clear H.
    split; [exact Hwf|]. split; [apply evolves_refl|]. split; [discriminate|].
    intros _ j ud t Hj Hd; simpl; exact (min_deadline_le _ _ _ _ Hj Hd).
Qed.

Lemma extract_subs_view n l :
  map (fun s => (se_id C TRqUd s, se_user_data _ _ s)) (snd (extract_subs C TRqUd n l))
  = map (fun s => (se_id _ _ s, se_user_data _ _ s)) l.
Proof.
  revert n. induction l as [|s l IH]; intros n; simpl; [reflexivity|].
  destruct (take_queue n (se_write_queue _ _ s)) as [out q].
  destruct (extract_subs C TRqUd (n - length (concat out)) l) as [out' l''] eqn:E.
  simpl. f_equal. specialize (IH (n - length (concat out))). rewrite E in IH. exact IH.
Qed.

Lemma extract_out_view y n :
  user_datas (fst (extract_out C TRqUd y n)) = user_datas y /\
  y_next_id _ _ (fst (extract_out C TRqUd y n)) = y_next_id _ _ y.
Proof.
  unfold extract_out. pose proof (extract_subs_view n (y_substreams _ _ y)) as V.
  destruct (extract_subs C TRqUd n (y_substreams _ _ y)) as [out l]. simpl in V |- *.
  split; [unfold_ud; exact V|reflexivity].
Qed.

Lemma encrypt_out_loop_engine fuel : forall e o0 o1 tw e' tw',
  encrypt_out_loop fuel e o0 o1 tw = Ret (e', tw') ->
  user_datas (yamux _ _ e') = user_datas (yamux _ _ e) /\
  y_next_id _ _ (yamux _ _ e') = y_next_id _ _ (yamux _ _ e) /\
  next_timeout _ _ e' = next_timeout _ _ e.
Proof.
  induction fuel as [|fuel IH]; intros e o0 o1 tw e' tw' H; simpl in H; [discriminate|].
  destruct (encrypt_size_conv C (encryption _ _ e) (o0 + o1) =? 0).
  { inversion H; subst. repeat split. }
  pose proof (extract_out_view (yamux _ _ e) (encrypt_size_conv C (encryption _ _ e) (o0 + o1)))
    as [Vu Vn].
  destruct (extract_out C TRqUd (yamux _ _ e) _) as [y bufs]. simpl in Vu, Vn.
  destruct bufs as [|b bufs].
  { inversion H; subst. repeat split; assumption. }
  destruct (encrypt C _ _ _ _) as [[n rd] wr].
  split_matches H; apply IH in H; simpl in H; destruct H as [Hu [Hn Ht]];
    (split; [congruence|]); (split; [congruence|]); exact Ht.
Qed.

(** *** [read_write] as a whole *)

Lemma timeout_inv_evolves e e' :
  timeout_inv e -> evolves (yamux _ _ e) (yamux _ _ e') ->
  next_timeout _ _ e' = next_timeout _ _ e -> timeout_inv e'.
Proof.
  intros Hi [_ Hev] Hn j ud t Hj Hd. rewrite Hn.
  destruct (Hev j ud Hj) as [[u0 [Hin0 [[Hdl|Hdl] _]]]|[_ Hdl]]; try congruence.
  apply (Hi j u0 t Hin0). congruence.
Qed.

Lemma read_write_ok fuel e now inb o0 o1 r :
  WF (yamux _ _ e) -> read_write fuel e now inb o0 o1 = Ret r -> rw_ok e r.
Proof.
  intros Hwf H. unfold_rw_in H; unfold bind in H.
  destruct (update_now e now) as [[e1 ev1]| | |] eqn:Hu; try discriminate.
  apply update_now_ok in Hu; [|exact Hwf]. destruct Hu as [Hw1 [Hev1 [Hx1 Ht1]]].
  destruct ev1 as [ev1|].
  { inversion H; subst; clear H. unfold rw_ok; simpl.
    destruct (Hx1 ev1 eq_refl) as [j [u [-> Ho]]].
    split; [exact Hw1|]. split; [exact Hev1|]. split; [reflexivity|]. split; [exact Ht1|].
    split; [intros ev j' Hs Hj; inversion Hs; subst; simpl in Hj; inversion Hj; subst; exact Ho|].
    intros f j' u' Hs. inversion Hs. }
  destruct (decode_loop fuel e1 inb 0) as [d| | |] eqn:Hd; try discriminate.
  apply decode_loop_ok in Hd; [|exact Hw1]. destruct Hd as [Hw2 [Hev2 [Ht2 Hx2]]].
  destruct d as [e2 tr|e2 tr ev]; simpl in Hw2, Hev2, Ht2, Hx2.
  - destruct (encrypt_out_loop fuel e2 o0 o1 0) as [[e3 tw]| | |] eqn:He; try discriminate.
    apply encrypt_out_loop_engine in He. destruct He as [Hu3 [Hn3 Ht3]].
    inversion H; subst; clear H. unfold rw_ok; simpl.
    assert (Hev3 : evolves (yamux _ _ e2) (yamux _ _ e3)) by (apply evolves_same; assumption).
    split; [eapply WF_same; eassumption|].
    split; [eapply evolves_trans; [exact Hev1|]; eapply evolves_trans; eassumption|].
    split; [reflexivity|].
    split; [|split; [discriminate|discriminate]].
    intros Hi. eapply timeout_inv_evolves; [apply Ht1, Hi| |].
    + eapply evolves_trans; eassumption.
    + congruence.
  - inversion H; subst; clear H. unfold rw_ok; simpl. destruct Hx2 as [Ho Hq].
    split; [exact Hw2|]. split; [eapply evolves_trans; eassumption|].
    split; [reflexivity|].
    split; [intros Hi; eapply timeout_inv_evolves; [apply Ht1, Hi|exact Hev2|exact Ht2]|].
    split.
    + intros ev' j Hs Hj. inversion Hs; subst. eapply origin_evolves; [exact Hev1|]. apply Ho, Hj.
    + intros f j u Hs. inversion Hs; subst. eapply Hq. reflexivity.
Qed.

(** *** Host operations and reachable engines *)

Lemma lower_next_timeout_le e t :
  exists m, lower_next_timeout C TRqUd e t = Some m /\ m <= t /\
    (forall n, next_timeout _ _ e = Some n -> m <= n).
Proof.
  unfold lower_next_timeout. destruct (next_timeout _ _ e) as [n|]; simpl.
  - destruct (t <? n) eqn:L; bools; eexists; (split; [reflexivity|]);
      split; try lia; intros n' Hn'; inversion Hn'; subst; lia.
  - eexists. split; [reflexivity|]. split; [lia|discriminate].
Qed.

Lemma host_open_ok e e' ud' t :
  user_datas (yamux _ _ e') = user_datas (yamux _ _ e) ++ [(y_next_id _ _ (yamux _ _ e), ud')] ->
  y_next_id _ _ (yamux _ _ e') = S (y_next_id _ _ (yamux _ _ e)) ->
  next_timeout _ _ e' = lower_next_timeout C TRqUd e t ->
  (deadline _ _ ud' = None \/ deadline _ _ ud' = Some t) ->
  (WF (yamux _ _ e) -> WF (yamux _ _ e')) /\ (timeout_inv e -> timeout_inv e') /\
  (forall X, quiet X (yamux _ _ e) -> quiet X (yamux _ _ e')).
Proof.
  intros Hu Hn Ht Hd. split; [|split].
  - intros [Hnd Hlt]. split; rewrite Hu, map_app; simpl.
    + apply NoDup_snoc; [exact Hnd|]. intros Hin. apply Hlt in Hin. lia.
    + rewrite Hn. intros j Hj. apply in_app_or in Hj.
      destruct Hj as [Hj|[Hj|[]]]; [apply Hlt in Hj; lia|lia].
  - intros Hi j ud tt Hj Hdd. rewrite Ht.
    destruct (lower_next_timeout_le e t) as [m [Hm [Hmt Hmn]]]. rewrite Hm.
    exists m. split; [reflexivity|].
    rewrite Hu in Hj. apply in_app_or in Hj. destruct Hj as [Hj|[Hj|[]]].
    + destruct (Hi j ud tt Hj Hdd) as [n [Hn' Hle]]. specialize (Hmn n Hn'). lia.
    + inversion Hj; subst. destruct Hd as [Hd|Hd]; rewrite Hd in Hdd; inversion Hdd; lia.
  - intros X [Hq Hlt]. split; [|rewrite Hn; lia].
    intros ud Hin. rewrite Hu in Hin. apply in_app_or in Hin.
    destruct Hin as [Hin|[Hin|[]]]; [apply Hq, Hin|inversion Hin; lia].
Qed.

Lemma add_request_shape e now p req ud e' id :
  add_request C TRqUd e now p req ud = Some (e', id) ->
  id = y_next_id _ _ (yamux _ _ e) /\
  (exists nego, user_datas (yamux _ _ e') = user_datas (yamux _ _ e) ++
                  [(y_next_id _ _ (yamux _ _ e), RequestOutNegotiating (now + 20) nego req ud)]) /\
  y_next_id _ _ (yamux _ _ e') = S (y_next_id _ _ (yamux _ _ e)) /\
  next_timeout _ _ e' = lower_next_timeout C TRqUd e (now + 20).
Proof.
  unfold add_request, open_substream. intros H.
  destruct (read_write_vec C _ []) as [[[neg n] out]|err]; [|discriminate].
  destruct neg as [nego| |]; try discriminate. cbv beta iota zeta in H.
  inversion H; subst; clear H. engine. rewrite user_datas_sub_write.
  split; [reflexivity|]. split; [|split; reflexivity].
  exists nego. unfold_ud. simpl. rewrite map_app. reflexivity.
Qed.

Lemma open_notifications_shape e now p hs e' id :
  open_notifications_substream C TRqUd e now p hs = Some (e', id) ->
  id = y_next_id _ _ (yamux _ _ e) /\
  (exists nego, user_datas (yamux _ _ e') = user_datas (yamux _ _ e) ++
                  [(y_next_id _ _ (yamux _ _ e), NotificationsOutNegotiating (now + 20) nego hs)]) /\
  y_next_id _ _ (yamux _ _ e') = S (y_next_id _ _ (yamux _ _ e)) /\
  next_timeout _ _ e' = lower_next_timeout C TRqUd e (now + 20).
Proof.
  unfold open_notifications_substream, open_substream. intros H.
  destruct (read_write_vec C _ []) as [[[neg n] out]|err]; [|discriminate].
  destruct neg as [nego| |]; try discriminate. cbv beta iota zeta in H.
  inversion H; subst; clear H. engine. rewrite user_datas_sub_write.
  split; [reflexivity|]. split; [|split; reflexivity].
  exists nego. unfold_ud. simpl. rewrite map_app. reflexivity.
Qed.

Lemma api_step_good e e' :
  api_step e e' -> good e ->
  good e' /\ forall X, quiet X (yamux _ _ e) -> quiet X (yamux _ _ e').
Proof.
  intros Hs [Hw Ht]. destruct Hs as [fuel e now inb o0 o1 r H|e now p req ud e' id H
                                    |e now p hs e' id H].
  - destruct (read_write_ok _ _ _ _ _ _ _ Hw H) as [Hw' [Hev [_ [Ht' _]]]].
    split; [split; [exact Hw'|apply Ht', Ht]|]. intros X Hq. eapply quiet_evolves; eassumption.
  - apply add_request_shape in H. destruct H as [_ [[nego Hu] [Hn Hnt]]].
    destruct (host_open_ok _ _ _ _ Hu Hn Hnt (or_intror eq_refl)) as [A [B D]].
    split; [split; [apply A, Hw|apply B, Ht]|exact D].
  - apply open_notifications_shape in H. destruct H as [_ [[nego Hu] [Hn Hnt]]].
    destruct (host_open_ok _ _ _ _ Hu Hn Hnt (or_introl eq_refl)) as [A [B D]].
    split; [split; [apply A, Hw|apply B, Ht]|exact D].
Qed.

Lemma api_steps_good e e' :
  api_steps e e' -> good e ->
  good e' /\ forall X, quiet X (yamux _ _ e) -> quiet X (yamux _ _ e').
Proof.
  induction 1 as [e|e1 e2 e3 Hs Hss IH]; intros Hg; [split; [exact Hg|tauto]|].
  destruct (api_step_good _ _ Hs Hg) as [Hg2 Hq2]. destruct (IH Hg2) as [Hg3 Hq3].
  split; [exact Hg3|]. intros X Hq. apply Hq3, Hq2, Hq.
Qed.

Lemma into_connection_good encryption config :
  good (into_connection C TRqUd encryption config).
Proof.
  split.
  - split; simpl; [constructor|intros j []].
  - intros j ud t [].
Qed.

Lemma reachable_good e : reachable e -> good e.
Proof.
  intros [enc [cfg H]]. apply (api_steps_good _ _ H). apply into_connection_good.
Qed.

Lemma quiet_never_again X e : good e -> quiet X (yamux _ _ e) -> never_again X e.
Proof.
  intros Hg Hq e2 Hs fuel now inb o0 o1 r ev H Hev Hid.
  destruct (api_steps_good _ _ Hs Hg) as [[Hw2 _] Hq2].
  destruct (read_write_ok _ _ _ _ _ _ _ Hw2 H) as [_ [_ [_ [_ [Ho _]]]]].
  exact (quiet_origin X _ X (Hq2 X Hq) (Ho ev X Hev Hid) eq_refl).
Qed.

Lemma remove_sub_found id ud l :
  NoDup (map fst (map (fun s => (se_id C TRqUd s, se_user_data _ _ s)) l)) ->
  In (id, ud) (map (fun s => (se_id _ _ s, se_user_data _ _ s)) l) ->
  exists l', remove_sub C TRqUd id l = Some (ud, l').
Proof.
  induction l as [|s l IH]; simpl; intros Hn Hin; [contradiction|].
  inversion Hn as [|x xs Hx Hn' Heq]; subst.
  destruct (se_id _ _ s =? id) eqn:E.
  - apply Nat.eqb_eq in E. destruct Hin as [Hin|Hin].
    + inversion Hin; subst. eexists. reflexivity.
    + exfalso. apply Hx. rewrite E. apply in_map_iff. exists (id, ud). split; [reflexivity|exact Hin].
  - apply Nat.eqb_neq in E. destruct Hin as [Hin|Hin]; [inversion Hin; congruence|].
    destruct (IH Hn' Hin) as [l' Hl']. rewrite Hl'. eexists. reflexivity.
Qed.

(** C6: every [read_write] that returns [Ok] reads at most the inbound
    slice (nothing when it is [None]) and writes at most the two outgoing
    regions together. *)
Theorem C6_read_write_byte_bounds fuel e now inb out0 out1 r :
  read_write fuel e now inb out0 out1 = Ret r ->
  read_bytes _ _ _ r <= len_opt inb /\ written_bytes _ _ _ r <= out0 + out1.
Proof.
  unfold_rw; unfold bind. intros H.
  destruct (update_now e now) as [[e1 [ev|]]| | |]; try discriminate.
  - inversion H; subst. simpl. lia.
  - destruct (decode_loop fuel e1 inb 0) as [d| | |] eqn:Hd; try discriminate.
    apply decode_loop_read in Hd.
    destruct d as [e2 tr|e2 tr ev].
    + destruct (encrypt_out_loop fuel e2 out0 out1 0) as [[e3 tw]| | |] eqn:Hw;
        try discriminate.
      apply encrypt_out_loop_written in Hw.
      inversion H; subst. simpl in *. lia.
    + inversion H; subst. simpl in *. lia.
Qed.

Lemma update_now_keeps e now e' ev :
  update_now e now = Ret (e', ev) ->
  encryption _ _ e' = encryption _ _ e /\ protocols e' = protocols e.
Proof.
  intros H. unfold_un H.
  destruct (match next_timeout _ _ e with None => true | Some t => now <? t end);
    cbv beta iota zeta in H; [inversion H; subst; split; reflexivity|].
  unfold bind in H. destruct (option_map fst _) as [id|]; cbv beta iota zeta in H.
  - destruct (sub_reset C TRqUd (yamux _ _ e) id) as [y [ud|]]; [|discriminate].
    destruct ud; try discriminate; inversion H; subst; split; reflexivity.
  - inversion H; subst. split; reflexivity.
Qed.


(** C1 (corrected): on every engine reachable through the API, when
    [read_write] returns, [wake_up_after] is at most the deadline of every
    deadline-bearing substream ([RequestOutNegotiating], [RequestOut]) of
    the returned engine, and it is present whenever one such substream
    exists.  It is a lower bound, not the minimum: it may be earlier than
    every remaining deadline, or present with none left. *)
Theorem C1_wake_up_after_bounds_deadlines fuel e now inb o0 o1 r :
  reachable e -> read_write fuel e now inb o0 o1 = Ret r ->
  forall j ud t,
    In (j, ud) (user_datas (yamux _ _ (connection _ _ _ r))) -> deadline _ _ ud = Some t ->
    exists w, wake_up_after _ _ _ r = Some w /\ w <= t.
Proof.
  intros Hr H. destruct (reachable_good e Hr) as [Hw Ht].
  destruct (read_write_ok _ _ _ _ _ _ _ Hw H) as [_ [_ [Hwake [Hti _]]]].
  intros j ud t Hj Hd. rewrite Hwake. exact (Hti Ht j ud t Hj Hd).
Qed.

(** C3 (corrected): on a reachable engine, if the request substream [id]
    (user tag [u]) is the first substream of the table whose deadline is
    [<= now], then [read_write] at [now] returns exactly
    [Response (Err Timeout) id u], with zero bytes read and written, and
    no later [read_write] reports an event for [id]. *)
Theorem C3_first_timed_out_request fuel e now inb o0 o1 id ud u :
  reachable e ->
  find (fun p => timed_out C TRqUd now (snd p)) (user_datas (yamux _ _ e)) = Some (id, ud) ->
  request_tag ud = Some u ->
  exists r, read_write fuel e now inb o0 o1 = Ret r /\
    event _ _ _ r = Some (Response (Err Timeout) id u) /\
    read_bytes _ _ _ r = 0 /\ written_bytes _ _ _ r = 0 /\
    never_again id (connection _ _ _ r).
Proof.
  intros Hr Hf Hu. pose proof (reachable_good e Hr) as Hg. destruct Hg as [Hw Ht].
  pose proof (find_some _ _ Hf) as [Hin Hto]. simpl in Hto.
  assert (Hd : exists t, deadline _ _ ud = Some t /\ t <= now).
  { destruct ud; simpl in Hto; try discriminate; bools; (eexists; split; [reflexivity|lia]). }
  destruct Hd as [t [Hd Hle]].
  destruct (Ht id ud t Hin Hd) as [n [Hn Hnt]].
  destruct (remove_sub_found id ud (y_substreams _ _ (yamux _ _ e)) (proj1 Hw) Hin) as [l Hl].
  assert (Hres : exists y', sub_reset C TRqUd (yamux _ _ e) id = (y', Some ud) /\
                   user_datas y' = remove_ud id (user_datas (yamux _ _ e)) /\
                   y_next_id _ _ y' = y_next_id _ _ (yamux _ _ e)).
  { eexists. split; [unfold sub_reset; rewrite Hl; reflexivity|].
    apply (sub_reset_view _ id _ (Some ud)). unfold sub_reset. rewrite Hl. reflexivity. }
  destruct Hres as [y' [Hsr [Hyu Hyn]]].
  unfold_rw. unfold_un_goal. rewrite Hn.
  replace (now <? n) with false by (symmetry; apply Nat.ltb_ge; lia).
  cbv beta iota zeta. unfold bind. rewrite Hf. simpl option_map. cbv beta iota. rewrite Hsr.
  assert (Hgood : good (set_next_timeout C TRqUd (set_yamux C TRqUd e y')
                         (min_deadline C TRqUd (user_datas y')))).
  { split.
    - destruct (shape_remove _ _ _ Hyu Hyn Hw) as [Hw' _]. exact Hw'.
    - intros j ud' t' Hj Hd'. exact (min_deadline_le _ _ _ _ Hj Hd'). }
  assert (Hquiet : quiet id y').
  { split.
    - intros ud' Hud'. exfalso. rewrite Hyu in Hud'.
      eapply remove_ud_nodup_gone; [exact (proj1 Hw)|exact Hin|].
      apply in_map_iff. eexists. split; [|exact Hud']. reflexivity.
    - rewrite Hyn. apply (proj2 Hw). apply in_map_iff. eexists. split; [|exact Hin]. reflexivity. }
  destruct ud; simpl in Hu; try discriminate; inversion Hu; subst; cbv beta iota zeta.
  all: eexists; split; [reflexivity|]; simpl.
  all: split; [reflexivity|]; split; [reflexivity|]; split; [reflexivity|].
  all: apply quiet_never_again; [exact Hgood|exact Hquiet].
Qed.

(** C10: when [read_write] on a reachable engine reports a successful
    [Response] for the substream [j], the substream is left in the table
    in [NegotiationFailed] (every entry with that id is in that state,
    so later data on it is dropped and a later reset of it is silent),
    and no later [read_write] reports an event carrying [j]. *)
Theorem C10_ok_response_closes_substream fuel e now inb o0 o1 r f j u :
  reachable e -> read_write fuel e now inb o0 o1 = Ret r ->
  event _ _ _ r = Some (Response (Ok f) j u) ->
  In (j, NF) (user_datas (yamux _ _ (connection _ _ _ r))) /\
  (forall ud, In (j, ud) (user_datas (yamux _ _ (connection _ _ _ r))) -> ud = NF) /\
  never_again j (connection _ _ _ r).
Proof.
  intros Hr H Hev. destruct (reachable_good e Hr) as [Hw Ht].
  destruct (read_write_ok _ _ _ _ _ _ _ Hw H) as [Hw' [_ [_ [Hti [_ Hok]]]]].
  destruct (Hok f j u Hev) as [[Hq Hlt] Hin].
  split; [exact Hin|]. split; [exact Hq|].
  apply quiet_never_again; [split; [exact Hw'|apply Hti, Ht]|split; assumption].
Qed.

(** C2 (corrected): when the multiplexer reports the reset of substream
    [id], handing back its state [ud], the turn of the decoding loop of
    [read_write] returns one [Response (Err SubstreamReset)] with the
    request's tag if [ud] is a [RequestOut*] state; goes on with no event
    if [ud] is [InboundNegotiating], [NegotiationFailed], [RequestInRecv],
    [NotificationsInHandshake], [NotificationsInWait] or [PingIn]; and
    panics for the outbound notifications states and [RequestInSend]. *)
Theorem C2_stream_reset_outcome fuel e inc tr e1 inc1 tr1 y n id ud :
  inject_step e inc tr = Ret (e1, inc1, tr1) ->
  incoming_data (yamux _ _ e1) (decoded_inbound_data C (encryption _ _ e1))
    = Ok (y, n, Some (StreamReset id ud)) ->
  decode_loop (S fuel) e inc tr = reset_outcome fuel (set_yamux _ _ e1 y) inc1 tr1 id ud.
Proof.
  intros Hi Hd. simpl. unfold bind. rewrite Hi. cbv beta iota zeta. rewrite Hd.
  cbv beta iota zeta. destruct ud; reflexivity.
Qed.

Lemma find_map_sub id f l :
  (forall s, se_id C TRqUd (f s) = se_id _ _ s) ->
  find (fun s => se_id _ _ s =? id) (map_sub C TRqUd id f l)
  = option_map f (find (fun s => se_id _ _ s =? id) l).
Proof.
  intros Hf. induction l as [|s l IH]; simpl; [reflexivity|].
  destruct (se_id _ _ s =? id) eqn:E; simpl; rewrite ?Hf, ?E; [reflexivity|exact IH].
Qed.

Lemma lookup_sub_write y id b s :
  lookup_sub C TRqUd y id = Some s ->
  lookup_sub C TRqUd (sub_write C TRqUd y id b) id =
    Some {| se_id := se_id _ _ s; se_user_data := se_user_data _ _ s;
            se_write_queue := se_write_queue _ _ s ++ [b]; se_closed := se_closed _ _ s |}.
Proof.
  unfold lookup_sub, sub_write. intros H. simpl. rewrite find_map_sub by reflexivity.
  rewrite H. reflexivity.
Qed.

Lemma lookup_set_user_data y id ud s :
  lookup_sub C TRqUd y id = Some s ->
  lookup_sub C TRqUd (set_user_data C TRqUd y id ud) id =
    Some {| se_id := se_id _ _ s; se_user_data := ud;
            se_write_queue := se_write_queue _ _ s; se_closed := se_closed _ _ s |}.
Proof.
  unfold lookup_sub, set_user_data. intros H. simpl. rewrite find_map_sub by reflexivity.
  rewrite H. reflexivity.
Qed.

(** C7: when the negotiation of an [InboundNegotiating] substream
    completes with [Success proto] (reading [num_read] bytes of the
    slice and producing [out]), the turn queues [out] on the substream
    and moves it to PingIn [] (if [proto] is the ping protocol), else to
    [RequestInRecv] (if [proto] is a request protocol), else to
    [NotificationsInHandshake], with 10 MiB framed readers; the rest of
    the slice is processed next. *)
Theorem C7_inbound_negotiation_success e y id data s nego proto num_read out :
  lookup_sub C TRqUd y id = Some s -> se_user_data _ _ s = InboundNegotiating nego ->
  read_write_vec C nego data = Ok (NegSuccess proto, num_read, out) ->
  num_read <= length data ->
  exists y', sub_step e y id data = Ret (SubContinue y' (skipn num_read data)) /\
    lookup_sub C TRqUd y' id =
      Some {| se_id := se_id _ _ s; se_user_data := inbound_success_state e proto;
              se_write_queue := se_write_queue _ _ s ++ [out]; se_closed := se_closed _ _ s |} /\
    user_datas y' = set_ud id (inbound_success_state e proto) (user_datas y).
Proof.
  intros Hl Hs Hn Hle. unfold sub_step. rewrite Hl, Hs, Hn. unfold advance.
  replace (num_read <=? length data) with true by (symmetry; apply Nat.leb_le; exact Hle).
  assert (Hst : forall y0,
    (if String.eqb proto (ping_protocol _ _ e) then
       Ret (SubContinue (set_user_data C TRqUd y0 id (PingIn [])) (skipn num_read data))
     else if existsb (fun p => String.eqb p proto) (in_request_protocols _ _ e) then
       Ret (SubContinue (set_user_data C TRqUd y0 id
              (RequestInRecv (framed_new C framed_capacity) proto)) (skipn num_read data))
     else
       Ret (SubContinue (set_user_data C TRqUd y0 id
              (NotificationsInHandshake (framed_new C framed_capacity) proto))
              (skipn num_read data)))
    = Ret (SubContinue (set_user_data C TRqUd y0 id (inbound_success_state e proto))
             (skipn num_read data)) :> exec (Error C) (SubStep C TRqUd TNotifUd)).
  { intros y0. unfold inbound_success_state.
    destruct (String.eqb proto (ping_protocol _ _ e)); [reflexivity|].
    replace (existsb (fun p => String.eqb p proto) (in_request_protocols _ _ e))
      with (existsb (String.eqb proto) (in_request_protocols _ _ e)).
    - destruct (existsb _ _); reflexivity.
    - induction (in_request_protocols _ _ e) as [|q l IH]; simpl; [reflexivity|].
      rewrite String.eqb_sym, IH. reflexivity. }
  rewrite Hst. eexists. split; [reflexivity|]. split.
  - pose proof (lookup_set_user_data y id Poisoned s Hl) as L1.
    pose proof (lookup_sub_write _ _ out _ L1) as L2.
    rewrite (lookup_set_user_data _ _ _ _ L2). reflexivity.
  - view. reflexivity.
Qed.

(** C8: when the multiplexer reports an incoming substream, the turn of
    the decoding loop accepts it, whatever the state, in
    [InboundNegotiating] with a listener negotiation offering the
    request protocols, then the notifications protocols, then the ping
    protocol, and goes on with the next frame. *)
Theorem C8_incoming_substream_accepted fuel e inc tr e1 inc1 tr1 y n :
  inject_step e inc tr = Ret (e1, inc1, tr1) ->
  incoming_data (yamux _ _ e1) (decoded_inbound_data C (encryption _ _ e1))
    = Ok (y, n, Some IncomingSubstream) ->
  exists e2, decode_loop (S fuel) e inc tr = decode_loop fuel e2 inc1 tr1 /\
    user_datas (yamux _ _ e2) =
      user_datas y ++
      [(y_next_id _ _ y,
        InboundNegotiating (nego_new C (Listener (in_request_protocols _ _ e
                                                  ++ in_notifications_protocols _ _ e
                                                  ++ [ping_protocol _ _ e]))))] /\
    y_next_id _ _ (yamux _ _ e2) = S (y_next_id _ _ y).
Proof.
  intros Hi Hd.
  assert (Hc : in_request_protocols _ _ e1 = in_request_protocols _ _ e /\
               in_notifications_protocols _ _ e1 = in_notifications_protocols _ _ e /\
               ping_protocol _ _ e1 = ping_protocol _ _ e).
  { unfold inject_step in Hi. destruct inc as [d|].
    - split_matches Hi. inversion Hi; subst. repeat split.
    - inversion Hi; subst. repeat split. }
  destruct Hc as [H1 [H2 H3]].
  eexists. split.
  - simpl. unfold bind. rewrite Hi. cbv beta iota zeta. rewrite Hd. cbv beta iota zeta.
    reflexivity.
  - engine. rewrite user_datas_accept. unfold inbound_nego. engine.
    rewrite H1, H2, H3. split; reflexivity.
Qed.

Lemma blocks_add a b l : blocks (a + b) l = blocks a l ++ blocks b (skipn (32 * a) l).
Proof.
  revert l. induction a as [|a IH]; intros l.
  - rewrite Nat.mul_0_r. reflexivity.
  - rewrite Nat.add_succ_l. cbn [blocks app].
    rewrite IH, skipn_skipn. do 3 f_equal. f_equal. lia.
Qed.

Lemma blocks_prefix a l m : 32 * a <= length l -> blocks a (l ++ m) = blocks a l.
Proof.
  revert l. induction a as [|a IH]; intros l Hl; [reflexivity|].
  cbn [blocks]. rewrite firstn_app, skipn_app.
  replace (32 - length l) with 0 by lia. rewrite firstn_0, skipn_0, app_nil_r.
  f_equal. apply IH. rewrite length_skipn. lia.
Qed.

Lemma blocks_length k l : 32 * k <= length l -> Forall (fun b => length b = 32) (blocks k l).
Proof.
  revert l. induction k as [|k IH]; intros l Hl; cbn [blocks]; constructor.
  - rewrite length_firstn. lia.
  - apply IH. rewrite length_skipn. lia.
Qed.

Lemma blocks_concat k l : concat (blocks k l) = firstn (32 * k) l.
Proof.
  revert l. induction k as [|k IH]; intros l; [rewrite Nat.mul_0_r; reflexivity|].
  cbn [blocks concat]. rewrite IH.
  rewrite <- (firstn_skipn 32 l) at 3. rewrite firstn_app.
  rewrite length_firstn. destruct (Nat.le_gt_cases 32 (length l)).
  - replace (Nat.min 32 (length l)) with 32 by lia.
    rewrite firstn_firstn. replace (Nat.min (32 * S k) 32) with 32 by lia.
    f_equal. f_equal. lia.
  - replace (Nat.min 32 (length l)) with (length l) by lia.
    rewrite (skipn_all2 (n:=32)) by lia. rewrite !firstn_nil, !app_nil_r.
    rewrite !firstn_all2 by (rewrite ?length_firstn; lia). reflexivity.
Qed.

Lemma div32 n : n = 32 * (n / 32) + n mod 32 /\ n mod 32 < 32.
Proof.
  split; [apply Nat.div_mod; lia|apply Nat.mod_upper_bound; lia].
Qed.

Lemma ping_echo_spec d : forall y id p s,
  length p < 32 -> lookup_sub C TRqUd y id = Some s ->
  let k := length (p ++ d) / 32 in
  exists y', ping_echo y id p d = Ret (y', skipn (32 * k) (p ++ d)) /\
    lookup_sub C TRqUd y' id = Some (with_queue_ud s (se_user_data _ _ s) (blocks k (p ++ d))).
Proof.
  induction d as [|b d IH]; intros y id p s Hp Hl k; subst k.
  - rewrite app_nil_r, Nat.div_small by exact Hp. rewrite Nat.mul_0_r.
    cbn [ping_echo skipn blocks].
    eexists. split; [reflexivity|]. rewrite Hl. unfold with_queue_ud. rewrite app_nil_r.
    destruct s; reflexivity.
  - cbn [ping_echo]. replace (length p <? 32) with true by (symmetry; apply Nat.ltb_lt; exact Hp).
    replace (p ++ b :: d) with ((p ++ [b]) ++ d) by (rewrite <- app_assoc; reflexivity).
    destruct (length (p ++ [b]) =? 32) eqn:E.
    + (* the buffer is full: written out and cleared *)
      apply Nat.eqb_eq in E.
      pose proof (lookup_sub_write _ _ (p ++ [b]) _ Hl) as Hl1.
      destruct (IH (sub_write C TRqUd y id (p ++ [b])) id [] _ ltac:(cbn [length]; lia) Hl1)
        as [y' [Hy' Hl']].
      cbn [app] in Hy', Hl'.
      assert (Hf : firstn 32 ((p ++ [b]) ++ d) = p ++ [b]).
      { rewrite firstn_app, E, Nat.sub_diag, firstn_0, app_nil_r.
        apply firstn_all2. lia. }
      assert (Hs : skipn 32 ((p ++ [b]) ++ d) = d).
      { rewrite skipn_app, E, Nat.sub_diag, skipn_0.
        rewrite skipn_all2 by lia. reflexivity. }
      exists y'.
      rewrite length_app, E.
      replace (32 + length d) with (1 * 32 + length d) by lia.
      rewrite Nat.div_add_l by lia.
      replace (32 * (1 + length d / 32)) with (32 * (length d / 32) + 32) by lia.
      rewrite <- skipn_skipn, Hs. change (blocks (1 + ?x)) with (blocks (S x)).
      cbn [blocks]. rewrite Hf, Hs.
      split; [exact Hy'|].
      rewrite Hl'. unfold with_queue_ud. cbn [se_id se_user_data se_write_queue se_closed].
      rewrite <- app_assoc. reflexivity.
    + (* the byte is buffered *)
      apply Nat.eqb_neq in E.
      assert (Hp' : length (p ++ [b]) < 32).
      { rewrite length_app in *. cbn [length] in *. lia. }
      exact (IH y id (p ++ [b]) s Hp' Hl).
Qed.

Lemma ping_sub_loop fuel e y id s p d :
  lookup_sub C TRqUd y id = Some s -> se_user_data _ _ s = PingIn p -> length p < 32 ->
  let k := length (p ++ d) / 32 in
  exists y', sub_loop (S fuel) e y id d = Ret (y', None) /\
    lookup_sub C TRqUd y' id =
      Some (with_queue_ud s (PingIn (skipn (32 * k) (p ++ d))) (blocks k (p ++ d))).
Proof.
  intros Hl Hs Hp k. subst k. destruct d as [|b d].
  - rewrite app_nil_r, Nat.div_small by exact Hp. simpl.
    eexists. split; [reflexivity|]. rewrite Hl. unfold with_queue_ud.
    rewrite app_nil_r, <- Hs. destruct s; reflexivity.
  - pose proof (lookup_set_user_data y id Poisoned s Hl) as L1.
    destruct (ping_echo_spec (b :: d) _ id p _ Hp L1) as [y' [Hy' Hl']].
    eexists. split.
    + cbn [sub_loop]. unfold sub_step. rewrite Hl, Hs. cbv zeta. rewrite Hy'.
      destruct fuel; reflexivity.
    + rewrite (lookup_set_user_data _ _ _ _ Hl'). reflexivity.
Qed.

Lemma ping_state_length (p : list byte) : length (skipn (32 * (length p / 32)) p) < 32.
Proof.
  rewrite length_skipn. destruct (div32 (length p)). lia.
Qed.

Lemma with_queue_ud_twice s a b q1 q2 :
  with_queue_ud (with_queue_ud s a q1) b q2 = with_queue_ud s b (q1 ++ q2).
Proof.
  unfold with_queue_ud. cbn [se_id se_user_data se_write_queue se_closed].
  rewrite app_assoc. reflexivity.
Qed.

Lemma blocks_split (L M : list byte) :
  let k1 := length L / 32 in
  let p1 := skipn (32 * k1) L in
  let k2 := length (p1 ++ M) / 32 in
  length (L ++ M) / 32 = k1 + k2 /\
  blocks (length (L ++ M) / 32) (L ++ M) = blocks k1 L ++ blocks k2 (p1 ++ M) /\
  skipn (32 * (length (L ++ M) / 32)) (L ++ M) = skipn (32 * k2) (p1 ++ M).
Proof.
  intros k1 p1 k2.
  destruct (div32 (length L)) as [HL _].
  assert (Hk1 : 32 * k1 <= length L) by (subst k1; lia).
  assert (Hsk : skipn (32 * k1) (L ++ M) = p1 ++ M).
  { subst p1. rewrite skipn_app. replace (32 * k1 - length L) with 0 by lia.
    rewrite skipn_0. reflexivity. }
  assert (Hk : length (L ++ M) / 32 = k1 + k2).
  { subst k2. rewrite <- Hsk, length_skipn.
    replace (length (L ++ M)) with (k1 * 32 + (length (L ++ M) - 32 * k1))
      by (rewrite length_app; lia).
    rewrite Nat.div_add_l by lia. f_equal. f_equal. lia. }
  split; [exact Hk|]. rewrite Hk. split.
  - rewrite blocks_add, Hsk, blocks_prefix by exact Hk1. reflexivity.
  - replace (32 * (k1 + k2)) with (32 * k2 + 32 * k1) by lia.
    rewrite <- skipn_skipn, Hsk. reflexivity.
Qed.

Lemma feed_spec fuel e ds : forall y id s p,
  lookup_sub C TRqUd y id = Some s -> se_user_data _ _ s = PingIn p -> length p < 32 ->
  let k := length (p ++ concat ds) / 32 in
  exists y', feed (S fuel) e y id ds = Ret y' /\
    lookup_sub C TRqUd y' id =
      Some (with_queue_ud s (PingIn (skipn (32 * k) (p ++ concat ds))) (blocks k (p ++ concat ds))).
Proof.
  induction ds as [|d ds IH]; intros y id s p Hl Hs Hp k; subst k.
  - cbn [concat feed]. rewrite app_nil_r, Nat.div_small by exact Hp.
    rewrite Nat.mul_0_r. cbn [skipn blocks].
    exists y. split; [reflexivity|]. rewrite Hl. unfold with_queue_ud. rewrite <- Hs, app_nil_r.
    destruct s; reflexivity.
  - destruct (ping_sub_loop fuel e y id s p d Hl Hs Hp) as [y1 [Hy1 Hl1]].
    destruct (IH y1 id _ _ Hl1 eq_refl (ping_state_length (p ++ d))) as [y' [Hy' Hl']].
    exists y'. cbn [feed concat]. rewrite Hy1. cbn [bind fst]. split; [exact Hy'|].
    rewrite Hl', with_queue_ud_twice, app_assoc.
    destruct (blocks_split (p ++ d) (concat ds)) as [_ [Hb Hsk]].
    rewrite Hb, Hsk. reflexivity.
Qed.

(** C9: on a substream in [PingIn p] (with [p] shorter than 32 bytes),
    delivering the slices [ds], however the bytes are split, queues on
    the substream the [k] consecutive 32-byte blocks of [p ++ concat ds],
    where [k] is its length divided by 32, and leaves it in [PingIn] with
    the remaining bytes (fewer than 32).  With [p = []] and [32 * k] bytes
    delivered, the [k] blocks are the bytes received, in order, and
    nothing remains. *)
Theorem C9_ping_echo_blocks fuel e y id s p ds :
  lookup_sub C TRqUd y id = Some s -> se_user_data _ _ s = PingIn p -> length p < 32 ->
  let k := length (p ++ concat ds) / 32 in
  exists y', feed (S fuel) e y id ds = Ret y' /\
    lookup_sub C TRqUd y' id =
      Some (with_queue_ud s (PingIn (skipn (32 * k) (p ++ concat ds))) (blocks k (p ++ concat ds))) /\
    length (skipn (32 * k) (p ++ concat ds)) < 32 /\
    Forall (fun b => length b = 32) (blocks k (p ++ concat ds)) /\
    concat (blocks k (p ++ concat ds)) = firstn (32 * k) (p ++ concat ds).
Proof.
  intros Hl Hs Hp k. subst k.
  destruct (feed_spec fuel e ds y id s p Hl Hs Hp) as [y' [Hy' Hl']].
  exists y'. split; [exact Hy'|]. split; [exact Hl'|]. split; [apply ping_state_length|].
  split; [apply blocks_length|apply blocks_concat].
  destruct (div32 (length (p ++ concat ds))). lia.
Qed.

(** *** Idle calls *)

Lemma set_encryption_self (e : Established) : set_encryption C TRqUd e (encryption _ _ e) = e.
Proof. destruct e; reflexivity. Qed.

Lemma set_yamux_self (e : Established) : set_yamux C TRqUd e (yamux _ _ e) = e.
Proof. destruct e; reflexivity. Qed.

Lemma with_substreams_self (y : Yamux) : with_substreams C TRqUd y (y_substreams _ _ y) = y.
Proof. destruct y; reflexivity. Qed.

Lemma min_deadline_after now (l : list (nat * Substream)) :
  find (fun p => timed_out C TRqUd now (snd p)) l = None ->
  match min_deadline C TRqUd l with None => true | Some t => now <? t end = true.
Proof.
  induction l as [|[j ud] l IH]; [reflexivity|]. cbn [find snd min_deadline].
  destruct (timed_out C TRqUd now ud) eqn:Ht; [discriminate|]. intros Hf.
  specialize (IH Hf).
  destruct ud; cbn [deadline]; cbn [timed_out] in Ht; try exact IH;
    bools; destruct (min_deadline C TRqUd l); bools; apply Nat.ltb_lt; lia.
Qed.

Lemma update_now_quiet e now e' :
  update_now e now = Ret (e', None) ->
  match next_timeout _ _ e' with None => true | Some t => now <? t end = true.
Proof.
  unfold_un_goal. intros H.
  destruct (match next_timeout _ _ e with None => true | Some t => now <? t end) eqn:G;
    cbv beta iota zeta in H.
  { inversion H; subst. exact G. }
  destruct (find (fun p => timed_out C TRqUd now (snd p)) (user_datas (yamux _ _ e))) eqn:F;
    cbn [option_map] in H.
  - unfold bind in H. destruct (sub_reset C TRqUd (yamux _ _ e) (fst p)) as [y [ud|]];
      [destruct ud|]; discriminate.
  - cbn [bind] in H. inversion H; subst. cbn [set_next_timeout next_timeout].
    apply min_deadline_after, F.
Qed.

Lemma update_now_idle e now :
  match next_timeout _ _ e with None => true | Some t => now <? t end = true ->
  update_now e now = Ret (e, None).
Proof. intros G. unfold_un_goal. rewrite G. reflexivity. Qed.

Lemma decode_loop_timeout fuel : forall e inc tr d,
  decode_loop fuel e inc tr = Ret d ->
  next_timeout _ _ (decode_engine d) = next_timeout _ _ e.
Proof.
  induction fuel as [|fuel IH]; intros e inc tr d H; cbn [decode_loop] in H; [discriminate|].
  unfold bind in H.
  destruct (inject_step e inc tr) as [[[e1 inc1] tr1]| | |] eqn:Hi; try discriminate.
  apply inject_step_engine in Hi. destruct Hi as [_ Ht1]. rewrite <- Ht1.
  split_matches H; try (inversion H; subst; reflexivity);
    apply IH in H; rewrite H; reflexivity.
Qed.

Lemma decode_loop_mono fuel : forall e inc tr d,
  decode_loop fuel e inc tr = Ret d -> tr <= exit_read d.
Proof.
  induction fuel as [|fuel IH]; intros e inc tr d H; cbn [decode_loop] in H; [discriminate|].
  unfold bind in H.
  destruct (inject_step e inc tr) as [[[e1 inc1] tr1]| | |] eqn:Hi; try discriminate.
  assert (Hle : tr <= tr1).
  { unfold inject_step in Hi. destruct inc as [dd|].
    - split_matches Hi. inversion Hi; subst. lia.
    - inversion Hi; subst. lia. }
  split_matches H; try (inversion H; subst; cbn [exit_read]; lia);
    apply IH in H; lia.
Qed.

Lemma inject_step_idle e inc tr e1 inc1 :
  inject_idle_contract ->
  inject_step e inc tr = Ret (e1, inc1, tr) ->
  e1 = e /\ inc1 = inc /\
  (forall d, inc = Some d -> inject_inbound_data C (encryption _ _ e) d = Ok (encryption _ _ e, 0)).
Proof.
  intros K1 H. unfold inject_step in H. destruct inc as [d|].
  - destruct (inject_inbound_data C (encryption _ _ e) d) as [[n k]|err] eqn:Hn; [|discriminate].
    destruct (k <=? length d); [|discriminate].
    inversion H; subst.
    assert (k = 0) by lia. subst k.
    rewrite (K1 _ _ _ Hn) in Hn |- *.
    rewrite set_encryption_self, skipn_0.
    split; [reflexivity|]. split; [reflexivity|].
    intros d' Hd'. inversion Hd'; subst. exact Hn.
  - inversion H; subst. split; [reflexivity|]. split; [reflexivity|]. discriminate.
Qed.

Lemma incoming_data_idle y data y' det :
  decode_idle_contract ->
  incoming_data y data = Ok (y', 0, det) ->
  det = None /\ y' = y /\
  decode_frame C (y_codec _ _ y) data = Ok (y_codec _ _ y, 0, RawNone).
Proof.
  intros K3 H. unfold_inc H.
  destruct (decode_frame C (y_codec _ _ y) data) as [[[c n] f]|err] eqn:Hd; [|discriminate].
  destruct f;
    try (destruct (remove_sub C TRqUd substream_id (y_substreams _ _ y)) as [[? ?]|]);
    try (destruct (lookup_sub C TRqUd y substream_id));
    inversion H; subst;
    destruct (K3 _ _ _ _ Hd) as [Hc Hf]; try discriminate; subst c.
  destruct y; repeat split.
Qed.

Lemma decode_loop_idle fuel : forall e inc tr e',
  inject_idle_contract -> decode_idle_contract ->
  decode_loop fuel e inc tr = Ret (DecodeDone e' tr) ->
  (forall d, inc = Some d ->
     inject_inbound_data C (encryption _ _ e') d = Ok (encryption _ _ e', 0)) /\
  decode_frame C (y_codec _ _ (yamux _ _ e')) (decoded_inbound_data C (encryption _ _ e')) =
    Ok (y_codec _ _ (yamux _ _ e'), 0, RawNone).
Proof.
  induction fuel as [|fuel IH]; intros e inc tr e' K1 K3 H; cbn [decode_loop] in H;
    [discriminate|].
  unfold bind in H.
  destruct (inject_step e inc tr) as [[[e1 inc1] tr1]| | |] eqn:Hi; try discriminate.
  pose proof (decode_loop_mono (S fuel) e inc tr _ ltac:(cbn [decode_loop]; unfold bind;
    rewrite Hi; exact H)) as Hm0.
  assert (Htr : tr1 = tr).
  { assert (tr <= tr1).
    { unfold inject_step in Hi. destruct inc as [dd|].
      - split_matches Hi. inversion Hi; subst. lia.
      - inversion Hi; subst. lia. }
    destruct (incoming_data (yamux _ _ e1) (decoded_inbound_data C (encryption _ _ e1)))
      as [[[y n] det]|err]; [|discriminate].
    split_matches H; try (inversion H; subst; lia);
      apply decode_loop_mono in H; cbn [exit_read] in H; lia. }
  subst tr1. destruct (inject_step_idle e inc tr e1 inc1 K1 Hi) as [He1 [Hinc1 Hinj]].
  subst e1 inc1.
  destruct (incoming_data (yamux _ _ e) (decoded_inbound_data C (encryption _ _ e)))
    as [[[y n] det]|err] eqn:Hd; [|discriminate].
  destruct det as [det|].
  - destruct det as [|id ud|start id].
    + exact (IH _ _ _ _ K1 K3 H).
    + destruct ud; try discriminate; exact (IH _ _ _ _ K1 K3 H).
    + destruct ((start <=? n) && (n <=? length _)); [|discriminate].
      destruct (lookup_sub C TRqUd _ id); [|discriminate].
      destruct (sub_loop fuel _ _ id _) as [[y2 [ev|]]| | |]; try discriminate.
      destruct (n =? 0) eqn:Hn.
      * bools. subst n. destruct (incoming_data_idle _ _ _ _ K3 Hd) as [Hdet _].
        discriminate.
      * exact (IH _ _ _ _ K1 K3 H).
  - destruct (n =? 0) eqn:Hn.
    + bools. subst n. inversion H; subst.
      destruct (incoming_data_idle _ _ _ _ K3 Hd) as [_ [Hy Hf]]. subst y.
      rewrite set_yamux_self. split; [exact Hinj|exact Hf].
    + exact (IH _ _ _ _ K1 K3 H).
Qed.

Lemma take_queue_idle n q q' :
  take_queue n q = ([], q') -> take_queue n q' = ([], q').
Proof.
  revert q'. induction q as [|b q IH]; intros q' H; cbn [take_queue] in H.
  - inversion H; subst. reflexivity.
  - destruct b as [|x b]; [exact (IH _ H)|].
    destruct (n =? 0) eqn:Hn.
    + inversion H; subst. cbn [take_queue]. rewrite Hn. reflexivity.
    + destruct (length (x :: b) <=? n).
      * destruct (take_queue (n - length (x :: b)) q). discriminate.
      * discriminate.
Qed.

Lemma extract_subs_idle n l l' :
  extract_subs C TRqUd n l = ([], l') -> extract_subs C TRqUd n l' = ([], l').
Proof.
  revert l'. induction l as [|s l IH]; intros l' H; cbn [extract_subs] in H.
  - inversion H; subst. reflexivity.
  - destruct (take_queue n (se_write_queue _ _ s)) as [out q] eqn:Hq.
    destruct (extract_subs C TRqUd (n - length (concat out)) l) as [out' l2] eqn:Hl.
    inversion H as [[Ho Hl']]. apply app_eq_nil in Ho. destruct Ho; subst out out' l'.
    cbn [concat length] in Hl. rewrite Nat.sub_0_r in Hl.
    cbn [extract_subs se_write_queue]. rewrite (take_queue_idle _ _ _ Hq).
    cbn [concat length]. rewrite Nat.sub_0_r, (IH _ Hl). reflexivity.
Qed.

Lemma encrypt_out_loop_mono fuel : forall e o0 o1 tw e' tw',
  encrypt_out_loop fuel e o0 o1 tw = Ret (e', tw') -> tw <= tw'.
Proof.
  induction fuel as [|fuel IH]; intros e o0 o1 tw e' tw' H; cbn [encrypt_out_loop] in H;
    [discriminate|].
  split_matches H; try (inversion H; subst; lia); apply IH in H; lia.
Qed.

Lemma encrypt_out_loop_idle fuel : forall e o0 o1 tw e',
  encrypt_idle_contract ->
  encrypt_out_loop fuel e o0 o1 tw = Ret (e', tw) ->
  encryption _ _ e' = encryption _ _ e /\
  y_codec _ _ (yamux _ _ e') = y_codec _ _ (yamux _ _ e) /\
  next_timeout _ _ e' = next_timeout _ _ e /\
  (encrypt_size_conv C (encryption _ _ e') (o0 + o1) = 0 \/
   extract_subs C TRqUd (encrypt_size_conv C (encryption _ _ e') (o0 + o1))
     (y_substreams _ _ (yamux _ _ e')) = ([], y_substreams _ _ (yamux _ _ e'))).
Proof.
  induction fuel as [|fuel IH]; intros e o0 o1 tw e' K2 H; cbn [encrypt_out_loop] in H;
    [discriminate|].
  destruct (encrypt_size_conv C (encryption _ _ e) (o0 + o1) =? 0) eqn:Hb.
  { inversion H; subst. bools. split; [reflexivity|]. split; [reflexivity|].
    split; [reflexivity|]. left. exact Hb. }
  unfold extract_out in H.
  destruct (extract_subs C TRqUd (encrypt_size_conv C (encryption _ _ e) (o0 + o1))
              (y_substreams _ _ (yamux _ _ e))) as [out l] eqn:Hx.
  destruct out as [|b out].
  { inversion H; subst. split; [reflexivity|]. split; [reflexivity|].
    split; [reflexivity|]. right. exact (extract_subs_idle _ _ _ Hx). }
  destruct (encrypt C _ (b :: out) o0 o1) as [[n rd] w] eqn:He.
  destruct (w - o0 <=? o1) eqn:Hw; [|discriminate].
  assert (Hw0 : w = 0).
  { destruct (o0 - Nat.min w o0 =? 0); apply encrypt_out_loop_mono in H; lia. }
  subst w. rewrite (K2 _ _ _ _ _ _ He) in H.
  replace (o0 - Nat.min 0 o0) with o0 in H by lia.
  replace (o1 - (0 - o0)) with o1 in H by lia. rewrite Nat.add_0_r in H.
  destruct (o0 =? 0) eqn:Ho.
  - bools. subst o0. apply IH in H; [|exact K2].
    destruct H as [Hn [Hc [Ht Hr]]].
    rewrite Nat.add_0_r in Hr. exact (conj Hn (conj Hc (conj Ht Hr))).
  - apply IH in H; [|exact K2]. exact H.
Qed.

Lemma read_write_idle fuel e now inc o0 o1 :
  match next_timeout _ _ e with None => true | Some t => now <? t end = true ->
  (forall d, inc = Some d ->
     inject_inbound_data C (encryption _ _ e) d = Ok (encryption _ _ e, 0)) ->
  decode_frame C (y_codec _ _ (yamux _ _ e)) (decoded_inbound_data C (encryption _ _ e)) =
    Ok (y_codec _ _ (yamux _ _ e), 0, RawNone) ->
  (encrypt_size_conv C (encryption _ _ e) (o0 + o1) = 0 \/
   extract_subs C TRqUd (encrypt_size_conv C (encryption _ _ e) (o0 + o1))
     (y_substreams _ _ (yamux _ _ e)) = ([], y_substreams _ _ (yamux _ _ e))) ->
  read_write (S fuel) e now inc o0 o1 =
    Ret {| connection := e; read_bytes := 0; written_bytes := 0;
           wake_up_after := next_timeout _ _ e; event := None |}.
Proof.
  intros G Hinj Hdec Hx.
  assert (Hi : inject_step e inc 0 = Ret (e, inc, 0)).
  { unfold inject_step. destruct inc as [d|]; [|reflexivity].
    rewrite (Hinj d eq_refl). replace (0 <=? length d) with true by reflexivity.
    rewrite skipn_0, set_encryption_self. reflexivity. }
  assert (Hd : incoming_data (yamux _ _ e) (decoded_inbound_data C (encryption _ _ e)) =
               Ok (yamux _ _ e, 0, None)).
  { unfold incoming_data. rewrite Hdec. destruct (yamux _ _ e); reflexivity. }
  assert (HD : decode_loop (S fuel) e inc 0 = Ret (DecodeDone e 0)).
  { cbn [decode_loop]. rewrite Hi. cbn [bind]. rewrite Hd. cbn [Nat.eqb].
    rewrite set_yamux_self. reflexivity. }
  assert (HE : encrypt_out_loop (S fuel) e o0 o1 0 = Ret (e, 0)).
  { cbn [encrypt_out_loop]. destruct Hx as [Hx|Hx].
    - rewrite Hx. reflexivity.
    - destruct (encrypt_size_conv C (encryption _ _ e) (o0 + o1) =? 0); [reflexivity|].
      unfold extract_out. rewrite Hx. cbn [fst snd].
      rewrite with_substreams_self, set_yamux_self. reflexivity. }
  unfold_rw. rewrite (update_now_idle e now G). cbn [bind]. rewrite HD. cbn [bind].
  rewrite HE. reflexivity.
Qed.

(** C5: under the collaborator contracts above, a [read_write] call that
    returns no event, reads no byte and writes no byte leaves an engine on
    which the same call (same [now], inbound slice and outgoing regions)
    returns exactly the same result: no event, nothing read or written,
    the same [wake_up_after], and the same engine. *)
Theorem C5_idle_call_fixed_point fuel e now inc o0 o1 r :
  inject_idle_contract -> encrypt_idle_contract -> decode_idle_contract ->
  read_write fuel e now inc o0 o1 = Ret r ->
  event _ _ _ r = None -> read_bytes _ _ _ r = 0 -> written_bytes _ _ _ r = 0 ->
  read_write fuel (connection _ _ _ r) now inc o0 o1 = Ret r.
Proof.
  intros K1 K2 K3 H Hev Hrd Hwr.
  unfold_rw_in H. unfold bind in H.
  destruct (update_now e now) as [[e1 [ev|]]| | |] eqn:Hu; try discriminate.
  { inversion H; subst. discriminate. }
  destruct (decode_loop fuel e1 inc 0) as [[e2 tr|e2 tr ev]| | |] eqn:Hd; try discriminate.
  2: { inversion H; subst. discriminate. }
  destruct (encrypt_out_loop fuel e2 o0 o1 0) as [[e3 tw]| | |] eqn:Hw; try discriminate.
  inversion H; subst r. cbn [read_bytes written_bytes connection] in *. subst tr tw.
  pose proof (update_now_quiet _ _ _ Hu) as G.
  pose proof (decode_loop_timeout _ _ _ _ _ Hd) as T2. cbn [decode_engine] in T2.
  destruct (decode_loop_idle _ _ _ _ _ K1 K3 Hd) as [Hinj Hdec].
  destruct (encrypt_out_loop_idle _ _ _ _ _ _ K2 Hw) as [En [Co [T3 Hx]]].
  destruct fuel as [|fuel]; [cbn in Hd; discriminate|].
  apply read_write_idle.
  - rewrite T3, T2. exact G.
  - rewrite En. exact Hinj.
  - rewrite En, Co. exact Hdec.
  - exact Hx.
Qed.

(** ** Further properties of the code *)

(** *** Table operations *)

Lemma lookup_sub_close y id s :
  lookup_sub C TRqUd y id = Some s ->
  lookup_sub C TRqUd (sub_close C TRqUd y id) id =
    Some {| se_id := se_id _ _ s; se_user_data := se_user_data _ _ s;
            se_write_queue := se_write_queue _ _ s; se_closed := true |}.
Proof.
  unfold lookup_sub, sub_close. intros H. simpl. rewrite find_map_sub by reflexivity.
  rewrite H. reflexivity.
Qed.

Lemma map_sub_absent id f l :
  (forall s, In s l -> se_id C TRqUd s <> id) -> map_sub C TRqUd id f l = l.
Proof.
  unfold map_sub. induction l as [|s l IH]; intros H; simpl; [reflexivity|].
  rewrite IH by (intros s' Hs'; apply H; right; exact Hs').
  destruct (se_id _ _ s =? id) eqn:E; [|reflexivity].
  apply Nat.eqb_eq in E. exfalso. exact (H s (or_introl eq_refl) E).
Qed.

Lemma map_sub_app id f l1 l2 :
  map_sub C TRqUd id f (l1 ++ l2) = map_sub C TRqUd id f l1 ++ map_sub C TRqUd id f l2.
Proof. unfold map_sub. apply map_app. Qed.

(** Opening a substream and writing [out] on it appends one entry. *)
Lemma open_write_substreams (y : Yamux) ud out :
  WF y ->
  y_substreams _ _ (sub_write C TRqUd (fst (open_substream C TRqUd y ud)) (y_next_id _ _ y) out) =
  y_substreams _ _ y ++
    [{| se_id := y_next_id _ _ y; se_user_data := ud; se_write_queue := [out];
        se_closed := false |}].
Proof.
  intros [_ Hlt]. unfold sub_write, open_substream. simpl.
  rewrite map_sub_app. f_equal.
  - apply map_sub_absent. intros s Hs E. rewrite <- E in Hlt.
    assert (Hin : In (se_id _ _ s) (map fst (user_datas y))).
    { unfold_ud. rewrite map_map. apply in_map_iff. exists s. split; [reflexivity|exact Hs]. }
    apply Hlt in Hin. lia.
  - unfold map_sub. simpl. rewrite Nat.eqb_refl. reflexivity.
Qed.

Lemma lower_next_timeout_min e t :
  lower_next_timeout C TRqUd e t =
    Some (match next_timeout _ _ e with Some n => Nat.min n t | None => t end).
Proof.
  unfold lower_next_timeout. destruct (next_timeout _ _ e) as [n|]; [|reflexivity].
  destruct (t <? n) eqn:L; bools; f_equal; lia.
Qed.

Lemma fresh_id (y : Yamux) : WF y -> ~ In (y_next_id _ _ y) (map fst (user_datas y)).
Proof. intros [_ Hlt] Hin. apply Hlt in Hin. lia. Qed.

Lemma remove_sub_lookup id l s :
  find (fun s => se_id C TRqUd s =? id) l = Some s ->
  exists l', remove_sub C TRqUd id l = Some (se_user_data _ _ s, l').
Proof.
  induction l as [|x l IH]; simpl; intros H; [discriminate|].
  destruct (se_id _ _ x =? id); [inversion H; subst; eexists; reflexivity|].
  destruct (IH H) as [l' ->]. eexists. reflexivity.
Qed.

(** Resetting a substream that was just set to [Poisoned]. *)
Lemma reset_poisoned y id s :
  NoDup (map fst (user_datas y)) -> lookup_sub C TRqUd y id = Some s ->
  user_datas (fst (sub_reset C TRqUd (set_user_data C TRqUd y id Poisoned) id))
    = remove_ud id (user_datas y) /\
  y_resets _ _ (fst (sub_reset C TRqUd (set_user_data C TRqUd y id Poisoned) id))
    = y_resets _ _ y ++ [id] /\
  y_next_id _ _ (fst (sub_reset C TRqUd (set_user_data C TRqUd y id Poisoned) id))
    = y_next_id _ _ y.
Proof.
  intros Hnd Hl. split; [|split].
  - view. apply remove_ud_set_ud. exact Hnd.
  - pose proof (lookup_set_user_data y id Poisoned s Hl) as L1. unfold lookup_sub in L1.
    destruct (remove_sub_lookup _ _ _ L1) as [l' Hr].
    unfold sub_reset. rewrite Hr. reflexivity.
  - view. reflexivity.
Qed.

Lemma nodup_ids_unique (l : list (SubEntry C TRqUd)) x s :
  NoDup (map (se_id _ _) l) -> In x l -> In s l -> se_id _ _ x = se_id _ _ s -> x = s.
Proof.
  induction l as [|a l IH]; simpl; intros Hnd Hx Hs E; [contradiction|].
  inversion Hnd as [|b bs Hb Hnd' Heq]; subst.
  destruct Hx as [<-|Hx], Hs as [<-|Hs]; [reflexivity| | |exact (IH Hnd' Hx Hs E)];
    exfalso; apply Hb; apply in_map_iff; eauto.
Qed.

(** Putting back the state a substream had undoes [set_user_data]. *)
Lemma set_user_data_restore y id s ud :
  NoDup (map fst (user_datas y)) -> lookup_sub C TRqUd y id = Some s ->
  set_user_data C TRqUd (set_user_data C TRqUd y id ud) id (se_user_data _ _ s) = y.
Proof.
  intros Hnd Hl. unfold lookup_sub in Hl. apply find_some in Hl. destruct Hl as [Hs E].
  apply Nat.eqb_eq in E.
  assert (Hnd' : NoDup (map (se_id _ _) (y_substreams _ _ y))).
  { revert Hnd. unfold_ud. rewrite map_map. tauto. }
  unfold set_user_data, with_substreams, map_sub. simpl.
  rewrite map_map.
  replace (map _ (y_substreams _ _ y)) with (y_substreams _ _ y).
  - destruct y; reflexivity.
  - rewrite <- (map_id (y_substreams _ _ y)) at 1. apply map_ext_in. intros x Hx.
    destruct (se_id _ _ x =? id) eqn:Ex; simpl; rewrite ?Ex; [|reflexivity].
    apply Nat.eqb_eq in Ex. rewrite <- E in Ex.
    rewrite (nodup_ids_unique _ _ _ Hnd' Hx Hs Ex). destruct s; reflexivity.
Qed.

(** *** [update_now] and the protocol configuration *)

Lemma set_next_timeout_self (e : Established) : set_next_timeout C TRqUd e (next_timeout _ _ e) = e.
Proof. destruct e; reflexivity. Qed.

Lemma update_now_not_due e now :
  (forall t, next_timeout _ _ e = Some t -> now < t) -> update_now e now = Ret (e, None).
Proof.
  intros H. unfold_un_goal. destruct (next_timeout _ _ e) as [t|] eqn:E; [|reflexivity].
  replace (now <? t) with true by (symmetry; apply Nat.ltb_lt, H; reflexivity). reflexivity.
Qed.

Lemma inject_step_protocols e inc tr e' inc' tr' :
  inject_step e inc tr = Ret (e', inc', tr') -> protocols e' = protocols e.
Proof.
  unfold inject_step. intros H. destruct inc as [d|].
  - split_matches H. inversion H; subst. reflexivity.
  - inversion H; subst. reflexivity.
Qed.

Lemma decode_loop_protocols fuel : forall e inc tr d,
  decode_loop fuel e inc tr = Ret d -> protocols (decode_engine d) = protocols e.
Proof.
  induction fuel as [|fuel IH]; intros e inc tr d H; simpl in H; [discriminate|].
  unfold bind in H.
  destruct (inject_step e inc tr) as [[[e1 inc1] tr1]| | |] eqn:Hi; try discriminate.
  apply inject_step_protocols in Hi.
  split_matches H; try (inversion H; subst; exact Hi);
    try (apply IH in H; rewrite H; exact Hi).
Qed.

Lemma encrypt_out_loop_protocols fuel : forall e o0 o1 tw e' tw',
  encrypt_out_loop fuel e o0 o1 tw = Ret (e', tw') -> protocols e' = protocols e.
Proof.
  induction fuel as [|fuel IH]; intros e o0 o1 tw e' tw' H; simpl in H; [discriminate|].
  split_matches H; try (inversion H; subst; reflexivity); apply IH in H; exact H.
Qed.

Lemma read_write_protocols fuel e now inb o0 o1 r :
  read_write fuel e now inb o0 o1 = Ret r -> protocols (connection _ _ _ r) = protocols e.
Proof.
  unfold_rw; unfold bind. intros H.
  destruct (update_now e now) as [[e1 ev1]| | |] eqn:Hu; try discriminate.
  apply update_now_keeps in Hu. destruct Hu as [_ Hu].
  destruct ev1 as [ev|]; [inversion H; subst; exact Hu|].
  destruct (decode_loop fuel e1 inb 0) as [d| | |] eqn:Hd; try discriminate.
  apply decode_loop_protocols in Hd.
  destruct d as [e2 tr|e2 tr ev]; cbn [decode_engine] in Hd.
  - destruct (encrypt_out_loop fuel e2 o0 o1 0) as [[e3 tw]| | |] eqn:Hw; try discriminate.
    apply encrypt_out_loop_protocols in Hw. inversion H; subst. simpl. congruence.
  - inversion H; subst. simpl. congruence.
Qed.

Lemma api_steps_protocols e e' : api_steps e e' -> protocols e' = protocols e.
Proof.
  induction 1 as [e|e1 e2 e3 Hs Hss IH]; [reflexivity|]. rewrite IH.
  destruct Hs as [fuel e now inb o0 o1 r H|e now p req ud e' id H|e now p hs e' id H].
  - exact (read_write_protocols _ _ _ _ _ _ _ H).
  - unfold add_request in H. split_matches H. inversion H; subst. reflexivity.
  - unfold open_notifications_substream in H. split_matches H. inversion H; subst. reflexivity.
Qed.

(** *** The encrypt-out loop with nothing queued *)

Lemma take_queue_nothing n q : concat q = [] -> fst (take_queue n q) = [].
Proof.
  induction q as [|b q IH]; simpl; intros H; [reflexivity|].
  destruct b as [|x b]; [exact (IH H)|discriminate].
Qed.

Lemma extract_subs_nothing n l :
  (forall s, In s l -> concat (se_write_queue C TRqUd s) = []) ->
  fst (extract_subs C TRqUd n l) = [].
Proof.
  revert n. induction l as [|s l IH]; intros n H; simpl; [reflexivity|].
  pose proof (take_queue_nothing n (se_write_queue _ _ s) (H s (or_introl eq_refl))) as Ht.
  destruct (take_queue n (se_write_queue _ _ s)) as [out q]. simpl in Ht. subst out.
  specialize (IH (n - length (concat (@nil (list byte)))) (fun s' Hs' => H s' (or_intror Hs'))).
  destruct (extract_subs C TRqUd (n - length (concat (@nil (list byte)))) l) as [out' l'']. simpl in IH |- *.
  exact IH.
Qed.

(** *** Extra properties *)

(** X1: [add_request] opens the substream under the identifier the
    multiplexer allocates next, which no substream of the table has: the
    table gains one entry, in [RequestOutNegotiating] with deadline
    [now + 20], the request and the user data, whose write queue holds the
    dialer's first output; the other entries are unchanged; the timer
    becomes the earlier of the previous one and [now + 20]; the cipher is
    untouched. *)
Theorem add_request_opens_fresh_substream e now p req u e' id :
  WF (yamux _ _ e) ->
  add_request C TRqUd e now p req u = Some (e', id) ->
  id = y_next_id _ _ (yamux _ _ e) /\ ~ In id (map fst (user_datas (yamux _ _ e))) /\
  (exists nego n out,
     read_write_vec C (nego_new C (Dialer p)) [] = Ok (NegInProgress nego, n, out) /\
     y_substreams _ _ (yamux _ _ e') =
       y_substreams _ _ (yamux _ _ e) ++
       [{| se_id := id; se_user_data := RequestOutNegotiating (now + 20) nego req u;
           se_write_queue := [out]; se_closed := false |}]) /\
  y_next_id _ _ (yamux _ _ e') = S id /\
  next_timeout _ _ e' = Some (match next_timeout _ _ e with
                              | Some t => Nat.min t (now + 20) | None => now + 20 end) /\
  encryption _ _ e' = encryption _ _ e.
Proof.
  intros Hw H. unfold add_request in H.
  destruct (read_write_vec C (nego_new C (Dialer p)) []) as [[[neg n] out]|err] eqn:Hn;
    [|discriminate].
  destruct neg as [nego| |]; try discriminate.
  unfold open_substream in H. cbv beta iota zeta in H. inversion H; subst; clear H.
  split; [reflexivity|]. split; [exact (fresh_id _ Hw)|]. split.
  - exists nego, n, out. split; [reflexivity|]. engine.
    exact (open_write_substreams (yamux _ _ e) _ out Hw).
  - split; [reflexivity|]. split; [|reflexivity]. engine. apply lower_next_timeout_min.
Qed.

(** X2: [open_notifications_substream] opens the substream under the
    identifier the multiplexer allocates next, which no substream of the
    table has: the table gains one entry, in [NotificationsOutNegotiating]
    with deadline [now + 20] and the handshake, whose write queue holds the
    dialer's first output; the other entries are unchanged; the timer
    becomes the earlier of the previous one and [now + 20]; the cipher is
    untouched. *)
Theorem open_notifications_opens_fresh_substream e now p hs e' id :
  WF (yamux _ _ e) ->
  open_notifications_substream C TRqUd e now p hs = Some (e', id) ->
  id = y_next_id _ _ (yamux _ _ e) /\ ~ In id (map fst (user_datas (yamux _ _ e))) /\
  (exists nego n out,
     read_write_vec C (nego_new C (Dialer p)) [] = Ok (NegInProgress nego, n, out) /\
     y_substreams _ _ (yamux _ _ e') =
       y_substreams _ _ (yamux _ _ e) ++
       [{| se_id := id; se_user_data := NotificationsOutNegotiating (now + 20) nego hs;
           se_write_queue := [out]; se_closed := false |}]) /\
  y_next_id _ _ (yamux _ _ e') = S id /\
  next_timeout _ _ e' = Some (match next_timeout _ _ e with
                              | Some t => Nat.min t (now + 20) | None => now + 20 end) /\
  encryption _ _ e' = encryption _ _ e.
Proof.
  intros Hw H. unfold open_notifications_substream in H.
  destruct (read_write_vec C (nego_new C (Dialer p)) []) as [[[neg n] out]|err] eqn:Hn;
    [|discriminate].
  destruct neg as [nego| |]; try discriminate.
  unfold open_substream in H. cbv beta iota zeta in H. inversion H; subst; clear H.
  split; [reflexivity|]. split; [exact (fresh_id _ Hw)|]. split.
  - exists nego, n, out. split; [reflexivity|]. engine.
    exact (open_write_substreams (yamux _ _ e) _ out Hw).
  - split; [reflexivity|]. split; [|reflexivity]. engine. apply lower_next_timeout_min.
Qed.

(** X4: a [read_write] call that reports an event writes no byte to the
    outgoing regions. *)
Theorem read_write_event_writes_nothing fuel e now inb o0 o1 r ev :
  read_write fuel e now inb o0 o1 = Ret r -> event _ _ _ r = Some ev ->
  written_bytes _ _ _ r = 0.
Proof.
  unfold_rw; unfold bind. intros H Hev.
  destruct (update_now e now) as [[e1 [ev1|]]| | |]; try discriminate.
  - inversion H; subst. reflexivity.
  - destruct (decode_loop fuel e1 inb 0) as [[e2 tr|e2 tr ev2]| | |]; try discriminate.
    + destruct (encrypt_out_loop fuel e2 o0 o1 0) as [[e3 tw]| | |]; try discriminate.
      inversion H; subst. discriminate.
    + inversion H; subst. reflexivity.
Qed.

(** X5: when no timeout is due, a cipher error on the inbound bytes makes
    [read_write] return [Error::Noise] with that error. *)
Theorem read_write_cipher_error fuel e now d o0 o1 err :
  (forall t, next_timeout _ _ e = Some t -> now < t) ->
  inject_inbound_data C (encryption _ _ e) d = Err err ->
  read_write (S fuel) e now (Some d) o0 o1 = Fail (ErrNoise C err).
Proof.
  intros Ht Hi. unfold_rw. rewrite (update_now_not_due _ _ Ht). cbn [bind].
  simpl. unfold bind. unfold inject_step. rewrite Hi. reflexivity.
Qed.

(** X6: when no timeout is due, a decoding error of the multiplexer on
    the decoded inbound bytes makes [read_write] return [Error::Yamux] with
    that error. *)
Theorem read_write_multiplexer_error fuel e now inb o0 o1 e1 inb1 tr1 err :
  (forall t, next_timeout _ _ e = Some t -> now < t) ->
  inject_step e inb 0 = Ret (e1, inb1, tr1) ->
  decode_frame C (y_codec _ _ (yamux _ _ e1)) (decoded_inbound_data C (encryption _ _ e1))
    = Err err ->
  read_write (S fuel) e now inb o0 o1 = Fail (ErrYamux C err).
Proof.
  intros Ht Hi Hd. unfold_rw. rewrite (update_now_not_due _ _ Ht). cbn [bind].
  simpl. unfold bind. rewrite Hi. unfold incoming_data. rewrite Hd. reflexivity.
Qed.

(** X7: when the negotiation of an inbound substream reports
    [NotAvailable], the turn queues the negotiation's output on the
    substream, closes its writing side and moves it to
    [NegotiationFailed], with no event; the rest of the slice is processed
    next. *)
Theorem inbound_negotiation_refused e y id data s nego num_read out :
  lookup_sub C TRqUd y id = Some s -> se_user_data _ _ s = InboundNegotiating nego ->
  read_write_vec C nego data = Ok (NegNotAvailable, num_read, out) ->
  num_read <= length data ->
  exists y', sub_step e y id data = Ret (SubContinue y' (skipn num_read data)) /\
    lookup_sub C TRqUd y' id =
      Some {| se_id := se_id _ _ s; se_user_data := NF;
              se_write_queue := se_write_queue _ _ s ++ [out]; se_closed := true |} /\
    user_datas y' = set_ud id NF (user_datas y).
Proof.
  intros Hl Hs Hn Hle. unfold sub_step. rewrite Hl, Hs, Hn. unfold advance.
  replace (num_read <=? length data) with true by (symmetry; apply Nat.leb_le; exact Hle).
  eexists. split; [reflexivity|]. split.
  - pose proof (lookup_set_user_data y id Poisoned s Hl) as L1.
    pose proof (lookup_sub_write _ _ out _ L1) as L2.
    pose proof (lookup_sub_close _ _ _ L2) as L3.
    rewrite (lookup_set_user_data _ _ _ _ L3). reflexivity.
  - view. reflexivity.
Qed.

(** X8: when the negotiation of an inbound substream fails with an
    error, the per-substream loop resets the substream (it leaves the
    table and a reset is queued for it), drops the rest of the slice and
    reports no event. *)
Theorem inbound_negotiation_error_resets fuel e y id data s nego err :
  NoDup (map fst (user_datas y)) ->
  lookup_sub C TRqUd y id = Some s -> se_user_data _ _ s = InboundNegotiating nego ->
  read_write_vec C nego data = Err err -> data <> [] ->
  exists y', sub_loop (S fuel) e y id data = Ret (y', None) /\
    user_datas y' = remove_ud id (user_datas y) /\
    y_resets _ _ y' = y_resets _ _ y ++ [id] /\
    y_next_id _ _ y' = y_next_id _ _ y.
Proof.
  intros Hnd Hl Hs Hn Hne. destruct data as [|b d]; [contradiction|].
  cbn [sub_loop]. unfold bind, sub_step. rewrite Hl, Hs, Hn.
  eexists. split; [reflexivity|]. exact (reset_poisoned _ _ _ Hnd Hl).
Qed.

(** X9: when the negotiation of an outgoing request succeeds, the turn
    queues the negotiation's output, then the LEB128 length of the
    request, then the request, closes the writing side, and moves the
    substream to [RequestOut] with the same deadline and user data and a
    fresh 10 MiB response reader; the rest of the slice is processed
    next. *)
Theorem request_negotiated_sends_request e y id data s t nego req u proto num_read out :
  lookup_sub C TRqUd y id = Some s -> se_user_data _ _ s = RequestOutNegotiating t nego req u ->
  read_write_vec C nego data = Ok (NegSuccess proto, num_read, out) ->
  num_read <= length data ->
  exists y', sub_step e y id data = Ret (SubContinue y' (skipn num_read data)) /\
    lookup_sub C TRqUd y' id =
      Some {| se_id := se_id _ _ s;
              se_user_data := RequestOut t u (framed_new C framed_capacity);
              se_write_queue := se_write_queue _ _ s ++ [out; encode_usize C (length req); req];
              se_closed := true |} /\
    user_datas y' = set_ud id (RequestOut t u (framed_new C framed_capacity)) (user_datas y).
Proof.
  intros Hl Hs Hn Hle. unfold sub_step. rewrite Hl, Hs, Hn. unfold advance.
  replace (num_read <=? length data) with true by (symmetry; apply Nat.leb_le; exact Hle).
  eexists. split; [reflexivity|]. split.
  - pose proof (lookup_set_user_data y id Poisoned s Hl) as L1.
    pose proof (lookup_sub_write _ _ out _ L1) as L2.
    pose proof (lookup_sub_write _ _ (encode_usize C (length req)) _ L2) as L3.
    pose proof (lookup_sub_write _ _ req _ L3) as L4.
    pose proof (lookup_sub_close _ _ _ L4) as L5.
    rewrite (lookup_set_user_data _ _ _ _ L5). simpl. rewrite <- !app_assoc. reflexivity.
  - view. reflexivity.
Qed.

(** X10: when the remote refuses the protocol of an outgoing request, the
    turn resets the substream (it leaves the table and a reset is queued
    for it) and reports [Response (Err ProtocolNotAvailable)] with the
    substream's identifier and the request's user data. *)
Theorem request_protocol_refused e y id data s t nego req u num_read out :
  NoDup (map fst (user_datas y)) ->
  lookup_sub C TRqUd y id = Some s -> se_user_data _ _ s = RequestOutNegotiating t nego req u ->
  read_write_vec C nego data = Ok (NegNotAvailable, num_read, out) ->
  exists y', sub_step e y id data = Ret (SubEvent y' (Response (Err ProtocolNotAvailable) id u)) /\
    user_datas y' = remove_ud id (user_datas y) /\
    y_resets _ _ y' = y_resets _ _ y ++ [id].
Proof.
  intros Hnd Hl Hs Hn. unfold sub_step. rewrite Hl, Hs, Hn.
  eexists. split; [reflexivity|].
  destruct (reset_poisoned _ _ _ Hnd Hl) as [A [B _]]. split; assumption.
Qed.

(** X11: when the negotiation of an outgoing request fails with an error,
    the turn resets the substream (it leaves the table and a reset is
    queued for it) and reports [Response (Err (NegotiationError err))]
    with the substream's identifier and the request's user data. *)
Theorem request_negotiation_error e y id data s t nego req u err :
  NoDup (map fst (user_datas y)) ->
  lookup_sub C TRqUd y id = Some s -> se_user_data _ _ s = RequestOutNegotiating t nego req u ->
  read_write_vec C nego data = Err err ->
  exists y', sub_step e y id data =
      Ret (SubEvent y' (Response (Err (NegotiationError C err)) id u)) /\
    user_datas y' = remove_ud id (user_datas y) /\
    y_resets _ _ y' = y_resets _ _ y ++ [id].
Proof.
  intros Hnd Hl Hs Hn. unfold sub_step. rewrite Hl, Hs, Hn.
  eexists. split; [reflexivity|].
  destruct (reset_poisoned _ _ _ Hnd Hl) as [A [B _]]. split; assumption.
Qed.

(** X12: when the response reader of a sent request rejects the inbound
    bytes, the turn resets the substream (it leaves the table and a reset
    is queued for it) and reports [Response (Err (ResponseLebError err))]
    with the substream's identifier and the request's user data. *)
Theorem response_reader_error e y id data s t u resp err :
  NoDup (map fst (user_datas y)) ->
  lookup_sub C TRqUd y id = Some s -> se_user_data _ _ s = RequestOut t u resp ->
  inject_data C resp data = Err err ->
  exists y', sub_step e y id data =
      Ret (SubEvent y' (Response (Err (ResponseLebError C err)) id u)) /\
    user_datas y' = remove_ud id (user_datas y) /\
    y_resets _ _ y' = y_resets _ _ y ++ [id].
Proof.
  intros Hnd Hl Hs Hn. unfold sub_step. rewrite Hl, Hs, Hn.
  eexists. split; [reflexivity|].
  destruct (reset_poisoned _ _ _ Hnd Hl) as [A [B _]]. split; assumption.
Qed.

(** X13: while the response to a sent request is incomplete, the turn
    feeds the slice to the response reader and keeps the substream in
    [RequestOut] with the same deadline and user data, writing nothing;
    the unread rest of the slice is processed next. *)
Theorem response_incomplete_keeps_waiting e y id data s t u resp resp1 num_read resp2 :
  lookup_sub C TRqUd y id = Some s -> se_user_data _ _ s = RequestOut t u resp ->
  inject_data C resp data = Ok (resp1, num_read) -> num_read <= length data ->
  take_frame C resp1 = (None, resp2) ->
  exists y', sub_step e y id data = Ret (SubContinue y' (skipn num_read data)) /\
    lookup_sub C TRqUd y' id =
      Some {| se_id := se_id _ _ s; se_user_data := RequestOut t u resp2;
              se_write_queue := se_write_queue _ _ s; se_closed := se_closed _ _ s |} /\
    user_datas y' = set_ud id (RequestOut t u resp2) (user_datas y).
Proof.
  intros Hl Hs Hn Hle Hf. unfold sub_step. rewrite Hl, Hs, Hn. unfold advance.
  replace (num_read <=? length data) with true by (symmetry; apply Nat.leb_le; exact Hle).
  rewrite Hf. eexists. split; [reflexivity|]. split.
  - pose proof (lookup_set_user_data y id Poisoned s Hl) as L1.
    rewrite (lookup_set_user_data _ _ _ _ L1). reflexivity.
  - view. reflexivity.
Qed.

(** X14: when the negotiation of an outgoing notifications substream
    succeeds, the turn queues the negotiation's output, then the LEB128
    length of the handshake, then the handshake, leaves the writing side
    open, and moves the substream to [NotificationsOutHandshakeRecv] with a
    fresh 10 MiB reader; the rest of the slice is processed next. *)
Theorem notifications_negotiated_sends_handshake e y id data s t nego hs proto num_read out :
  lookup_sub C TRqUd y id = Some s ->
  se_user_data _ _ s = NotificationsOutNegotiating t nego hs ->
  read_write_vec C nego data = Ok (NegSuccess proto, num_read, out) ->
  num_read <= length data ->
  exists y', sub_step e y id data = Ret (SubContinue y' (skipn num_read data)) /\
    lookup_sub C TRqUd y' id =
      Some {| se_id := se_id _ _ s;
              se_user_data := NotificationsOutHandshakeRecv (framed_new C framed_capacity);
              se_write_queue := se_write_queue _ _ s ++ [out; encode_usize C (length hs); hs];
              se_closed := se_closed _ _ s |} /\
    user_datas y' =
      set_ud id (NotificationsOutHandshakeRecv (framed_new C framed_capacity)) (user_datas y).
Proof.
  intros Hl Hs Hn Hle. unfold sub_step. rewrite Hl, Hs, Hn. unfold advance.
  replace (num_read <=? length data) with true by (symmetry; apply Nat.leb_le; exact Hle).
  eexists. split; [reflexivity|]. split.
  - pose proof (lookup_set_user_data y id Poisoned s Hl) as L1.
    pose proof (lookup_sub_write _ _ out _ L1) as L2.
    pose proof (lookup_sub_write _ _ (encode_usize C (length hs)) _ L2) as L3.
    pose proof (lookup_sub_write _ _ hs _ L3) as L4.
    rewrite (lookup_set_user_data _ _ _ _ L4). simpl. rewrite <- !app_assoc. reflexivity.
  - view. reflexivity.
Qed.

(** X15: when the remote refuses an outgoing notifications substream, or
    its negotiation fails with an error, the engine panics (the source's
    [todo!()]). *)
Theorem notifications_refusal_panics e y id data s t nego hs :
  lookup_sub C TRqUd y id = Some s ->
  se_user_data _ _ s = NotificationsOutNegotiating t nego hs ->
  (exists n out, read_write_vec C nego data = Ok (NegNotAvailable, n, out)) \/
  (exists err, read_write_vec C nego data = Err err) ->
  sub_step e y id data = Panic.
Proof.
  intros Hl Hs Hn. unfold sub_step. rewrite Hl, Hs.
  destruct Hn as [[n [out Hn]]|[err Hn]]; rewrite Hn; reflexivity.
Qed.

(** X16: when the handshake of an inbound notifications substream is
    complete, the turn moves the substream to [NotificationsInWait] and
    reports [NotificationsInOpen] with the substream's identifier, the
    negotiated protocol and the handshake, writing nothing. *)
Theorem notifications_in_handshake_complete e y id data s hs proto hs1 num_read frame rest :
  lookup_sub C TRqUd y id = Some s ->
  se_user_data _ _ s = NotificationsInHandshake hs proto ->
  inject_data C hs data = Ok (hs1, num_read) -> num_read <= length data ->
  take_frame C hs1 = (Some frame, rest) ->
  exists y', sub_step e y id data = Ret (SubEvent y' (NotificationsInOpen id proto frame)) /\
    lookup_sub C TRqUd y' id =
      Some {| se_id := se_id _ _ s; se_user_data := NotificationsInWait;
              se_write_queue := se_write_queue _ _ s; se_closed := se_closed _ _ s |} /\
    user_datas y' = set_ud id NotificationsInWait (user_datas y).
Proof.
  intros Hl Hs Hn Hle Hf. unfold sub_step. rewrite Hl, Hs, Hn. unfold advance.
  replace (num_read <=? length data) with true by (symmetry; apply Nat.leb_le; exact Hle).
  rewrite Hf. eexists. split; [reflexivity|]. split.
  - pose proof (lookup_set_user_data y id Poisoned s Hl) as L1.
    rewrite (lookup_set_user_data _ _ _ _ L1). reflexivity.
  - view. reflexivity.
Qed.

(** X17: data delivered to a substream in [NegotiationFailed],
    [NotificationsInWait] or [RequestInRecv] is dropped whole: the
    per-substream loop reports no event and leaves the multiplexer exactly
    as it was (no write, no change of state). *)
Theorem waiting_states_drop_data fuel e y id data s :
  NoDup (map fst (user_datas y)) -> lookup_sub C TRqUd y id = Some s ->
  se_user_data _ _ s = NF \/ se_user_data _ _ s = NotificationsInWait \/
  (exists r p, se_user_data _ _ s = RequestInRecv r p) ->
  sub_loop (S fuel) e y id data = Ret (y, None).
Proof.
  intros Hnd Hl Hs. destruct data as [|b d]; [reflexivity|].
  cbn [sub_loop]. unfold bind, sub_step. rewrite Hl.
  destruct Hs as [Hs|[Hs|[r [p Hs]]]]; rewrite Hs; cbv beta iota; rewrite <- Hs;
    rewrite (set_user_data_restore _ _ _ _ Hnd Hl); destruct fuel; reflexivity.
Qed.

(** X18: when no request's deadline has passed, [update_now] reports no
    event and changes nothing but the timer: the timer is kept when it is
    absent or later than [now], and otherwise recomputed as the earliest
    deadline of the table. *)
Theorem update_now_nothing_expired e now :
  (forall j ud, In (j, ud) (user_datas (yamux _ _ e)) -> timed_out C TRqUd now ud = false) ->
  exists t, update_now e now = Ret (set_next_timeout C TRqUd e t, None) /\
    ((forall n, next_timeout _ _ e = Some n -> now < n) -> t = next_timeout _ _ e) /\
    ((exists n, next_timeout _ _ e = Some n /\ n <= now) ->
     t = min_deadline C TRqUd (user_datas (yamux _ _ e))).
Proof.
  intros H.
  assert (Hf : find (fun p => timed_out C TRqUd now (snd p)) (user_datas (yamux _ _ e)) = None).
  { revert H. generalize (user_datas (yamux _ _ e)) as l.
    induction l as [|[j ud] l IH]; intros H; simpl; [reflexivity|].
    rewrite (H j ud (or_introl eq_refl)). apply IH. intros j' ud' Hin. apply (H j' ud').
    right. exact Hin. }
  unfold_un_goal. destruct (next_timeout _ _ e) as [n|] eqn:E.
  - destruct (now <? n) eqn:L; bools.
    + exists (Some n). rewrite <- E, set_next_timeout_self.
      split; [reflexivity|]. split; [reflexivity|]. intros [m [Hm Hle]].
      rewrite E in Hm. inversion Hm; subst. lia.
    + exists (min_deadline C TRqUd (user_datas (yamux _ _ e))).
      cbv beta iota zeta. unfold bind. rewrite Hf. simpl option_map. cbv beta iota zeta.
      rewrite set_yamux_self. split; [reflexivity|]. split; [|reflexivity].
      intros Hlt. specialize (Hlt n eq_refl). lia.
  - exists None. rewrite <- E, set_next_timeout_self.
    split; [reflexivity|]. split; [reflexivity|]. intros [m [Hm _]]. rewrite E in Hm.
    discriminate.
Qed.

(** X19: when no substream has a byte queued, the encrypt-out loop writes
    nothing and leaves the cipher untouched. *)
Theorem encrypt_out_nothing_queued fuel e o0 o1 tw :
  (forall s, In s (y_substreams _ _ (yamux _ _ e)) -> concat (se_write_queue _ _ s) = []) ->
  exists e', encrypt_out_loop (S fuel) e o0 o1 tw = Ret (e', tw) /\
    encryption _ _ e' = encryption _ _ e /\
    user_datas (yamux _ _ e') = user_datas (yamux _ _ e).
Proof.
  intros H. simpl.
  destruct (encrypt_size_conv C (encryption _ _ e) (o0 + o1) =? 0);
    [exists e; split; [reflexivity|split; reflexivity]|].
  pose proof (extract_out_view (yamux _ _ e) (encrypt_size_conv C (encryption _ _ e) (o0 + o1)))
    as [V _].
  unfold extract_out in V |- *.
  pose proof (extract_subs_nothing (encrypt_size_conv C (encryption _ _ e) (o0 + o1)) _ H) as Hx.
  destruct (extract_subs C TRqUd _ (y_substreams _ _ (yamux _ _ e))) as [out l].
  simpl in Hx, V. subst out.
  eexists. split; [reflexivity|]. split; [reflexivity|]. exact V.
Qed.

(** X20: every engine built by [into_connection] from a configuration
    and driven through the API ([read_write], [add_request],
    [open_notifications_substream]) keeps the configuration's request,
    notifications and ping protocols. *)
Theorem api_keeps_configured_protocols encryption config e :
  api_steps (into_connection C TRqUd encryption config) e ->
  in_request_protocols _ _ e = cfg_in_request_protocols config /\
  in_notifications_protocols _ _ e = cfg_in_notifications_protocols config /\
  ping_protocol _ _ e = cfg_ping_protocol config.
Proof.
  intros H. apply api_steps_protocols in H. unfold protocols in H. simpl in H.
  inversion H. repeat split.
Qed.

End Proofs.

(** ** Instances of the theorems on the toy collaborators *)

Lemma conn1_reachable : reachable Toy.collab nat unit Toy.conn1.
Proof.
  exists [], Toy.config. eapply api_next with (e2 := Toy.conn1); [|apply api_done].
  apply (api_add_request _ _ _ _ 0 "/x/req" [Byte.x07] 42 _ 1).
  reflexivity.
Qed.

Lemma C1_witness :
  reachable Toy.collab nat unit Toy.conn1 /\
  read_write Toy.collab nat unit 10 Toy.conn1 0 None 0 0 = Ret (Toy.run 10 Toy.conn1 0 None 0 0) /\
  In (1, Toy.req1) (user_datas _ _ (yamux _ _ (connection _ _ _ (Toy.run 10 Toy.conn1 0 None 0 0)))) /\
  deadline _ _ Toy.req1 = Some 20 /\
  exists w, wake_up_after _ _ _ (Toy.run 10 Toy.conn1 0 None 0 0) = Some w /\ w <= 20.
Proof.
  pose proof conn1_reachable as HR.
  assert (HW : read_write Toy.collab nat unit 10 Toy.conn1 0 None 0 0
               = Ret (Toy.run 10 Toy.conn1 0 None 0 0)) by (reflexivity).
  assert (HI : In (1, Toy.req1)
                 (user_datas _ _ (yamux _ _ (connection _ _ _ (Toy.run 10 Toy.conn1 0 None 0 0)))))
    by exact (or_introl eq_refl).
  assert (HD : deadline _ _ Toy.req1 = Some 20) by reflexivity.
  split; [exact HR|]. split; [exact HW|]. split; [exact HI|]. split; [exact HD|].
  exact (C1_wake_up_after_bounds_deadlines _ _ _ 10 Toy.conn1 0 None 0 0 _ HR HW 1 Toy.req1 20 HI HD).
Defined.

Lemma C2_witness :
  inject_step Toy.collab nat Toy.conn1 (Some (Toy.frame 2 1 [])) 0 =
    Ret (fst (fst Toy.reset1), snd (fst Toy.reset1), snd Toy.reset1) /\
  incoming_data Toy.collab nat (yamux _ _ (fst (fst Toy.reset1)))
    (decoded_inbound_data Toy.collab (encryption _ _ (fst (fst Toy.reset1)))) =
    Ok (fst Toy.reset1_dec, snd Toy.reset1_dec, Some (StreamReset 1 Toy.req1)) /\
  decode_loop Toy.collab nat unit 11 Toy.conn1 (Some (Toy.frame 2 1 [])) 0 =
    reset_outcome Toy.collab nat unit 10 (set_yamux _ _ (fst (fst Toy.reset1)) (fst Toy.reset1_dec))
      (snd (fst Toy.reset1)) (snd Toy.reset1) 1 Toy.req1.
Proof.
  assert (H1 : inject_step Toy.collab nat Toy.conn1 (Some (Toy.frame 2 1 [])) 0 =
                 Ret (fst (fst Toy.reset1), snd (fst Toy.reset1), snd Toy.reset1))
    by (reflexivity).
  assert (H2 : incoming_data Toy.collab nat (yamux _ _ (fst (fst Toy.reset1)))
                 (decoded_inbound_data Toy.collab (encryption _ _ (fst (fst Toy.reset1)))) =
               Ok (fst Toy.reset1_dec, snd Toy.reset1_dec, Some (StreamReset 1 Toy.req1)))
    by (reflexivity).
  split; [exact H1|]. split; [exact H2|].
  exact (C2_stream_reset_outcome _ _ _ 10 _ _ _ _ _ _ _ _ _ _ H1 H2).
Defined.

Lemma C3_witness :
  reachable Toy.collab nat unit Toy.conn1 /\
  find (fun p => timed_out Toy.collab nat 20 (snd p)) (user_datas _ _ (yamux _ _ Toy.conn1))
    = Some (1, Toy.req1) /\
  request_tag _ _ Toy.req1 = Some 42 /\
  exists r, read_write Toy.collab nat unit 10 Toy.conn1 20 None 0 0 = Ret r /\
    event _ _ _ r = Some (Response (Err Timeout) 1 42) /\
    read_bytes _ _ _ r = 0 /\ written_bytes _ _ _ r = 0 /\
    never_again Toy.collab nat unit 1 (connection _ _ _ r).
Proof.
  pose proof conn1_reachable as HR.
  assert (HF : find (fun p => timed_out Toy.collab nat 20 (snd p))
                 (user_datas _ _ (yamux _ _ Toy.conn1)) = Some (1, Toy.req1))
    by (reflexivity).
  assert (HT : request_tag Toy.collab nat Toy.req1 = Some 42) by reflexivity.
  split; [exact HR|]. split; [exact HF|]. split; [exact HT|].
  exact (C3_first_timed_out_request _ _ _ 10 Toy.conn1 20 None 0 0 1 Toy.req1 42 HR HF HT).
Defined.


Lemma toy_inject_idle : inject_idle_contract Toy.collab.
Proof.
  intros n d n' H. cbn in H. injection H as Hn Hl.
  destruct d as [|b d]; [|discriminate]. rewrite app_nil_r in Hn. symmetry. exact Hn.
Qed.

Lemma toy_encrypt_idle : encrypt_idle_contract Toy.collab.
Proof. intros n bufs l0 l1 n' rd H. cbn in H. injection H as Hn _ _. symmetry. exact Hn. Qed.

Lemma toy_decode_idle : decode_idle_contract Toy.collab.
Proof.
  intros c d c' f H. destruct c, c'. split; [reflexivity|].
  cbn in H. unfold Toy.decode in H.
  destruct d as [|t [|i [|l r]]]; try (injection H as Hf; auto).
  destruct (3 + Toy.b2n l <=? length (t :: i :: l :: r)); [|injection H as Hf; auto].
  destruct (Toy.b2n t) as [|[|[|k]]]; discriminate.
Qed.

Lemma C5_witness :
  inject_idle_contract Toy.collab /\ encrypt_idle_contract Toy.collab /\
  decode_idle_contract Toy.collab /\
  read_write Toy.collab nat unit 10 Toy.conn1 0 None 0 0 = Ret (Toy.run 10 Toy.conn1 0 None 0 0) /\
  event _ _ _ (Toy.run 10 Toy.conn1 0 None 0 0) = None /\
  read_bytes _ _ _ (Toy.run 10 Toy.conn1 0 None 0 0) = 0 /\
  written_bytes _ _ _ (Toy.run 10 Toy.conn1 0 None 0 0) = 0 /\
  read_write Toy.collab nat unit 10 (connection _ _ _ (Toy.run 10 Toy.conn1 0 None 0 0)) 0 None 0 0
    = Ret (Toy.run 10 Toy.conn1 0 None 0 0).
Proof.
  assert (HW : read_write Toy.collab nat unit 10 Toy.conn1 0 None 0 0
               = Ret (Toy.run 10 Toy.conn1 0 None 0 0)) by (reflexivity).
  assert (HE : event _ _ _ (Toy.run 10 Toy.conn1 0 None 0 0) = None) by (reflexivity).
  assert (HR : read_bytes _ _ _ (Toy.run 10 Toy.conn1 0 None 0 0) = 0) by (reflexivity).
  assert (HO : written_bytes _ _ _ (Toy.run 10 Toy.conn1 0 None 0 0) = 0) by (reflexivity).
  split; [exact toy_inject_idle|]. split; [exact toy_encrypt_idle|].
  split; [exact toy_decode_idle|]. split; [exact HW|]. split; [exact HE|].
  split; [exact HR|]. split; [exact HO|].
  exact (C5_idle_call_fixed_point _ _ _ 10 Toy.conn1 0 None 0 0 _
           toy_inject_idle toy_encrypt_idle toy_decode_idle HW HE HR HO).
Defined.

Lemma C6_witness :
  read_write Toy.collab nat unit 10 Toy.conn1 0 (Some []) 2 3 =
    Ret (Toy.run 10 Toy.conn1 0 (Some []) 2 3) /\
  read_bytes _ _ _ (Toy.run 10 Toy.conn1 0 (Some []) 2 3) <= len_opt (Some []) /\
  written_bytes _ _ _ (Toy.run 10 Toy.conn1 0 (Some []) 2 3) <= 2 + 3.
Proof.
  assert (HW : read_write Toy.collab nat unit 10 Toy.conn1 0 (Some []) 2 3 =
               Ret (Toy.run 10 Toy.conn1 0 (Some []) 2 3)) by (reflexivity).
  split; [exact HW|].
  exact (C6_read_write_byte_bounds _ _ _ 10 Toy.conn1 0 (Some []) 2 3 _ HW).
Defined.

Lemma C7_witness :
  lookup_sub Toy.collab nat Toy.y_in 1 = Some Toy.s_in /\
  se_user_data _ _ Toy.s_in = InboundNegotiating (inbound_nego Toy.collab nat Toy.conn0) /\
  read_write_vec Toy.collab (inbound_nego Toy.collab nat Toy.conn0) [Byte.x00]
    = Ok (NegSuccess "/x/req", 1, [Byte.x01]) /\
  1 <= length [Byte.x00] /\
  exists y', sub_step Toy.collab nat unit Toy.conn0 Toy.y_in 1 [Byte.x00]
               = Ret (SubContinue y' (skipn 1 [Byte.x00])) /\
    lookup_sub Toy.collab nat y' 1 =
      Some {| se_id := se_id _ _ Toy.s_in;
              se_user_data := inbound_success_state Toy.collab nat Toy.conn0 "/x/req";
              se_write_queue := se_write_queue _ _ Toy.s_in ++ [[Byte.x01]];
              se_closed := se_closed _ _ Toy.s_in |} /\
    user_datas _ _ y' = set_ud _ _ 1 (inbound_success_state Toy.collab nat Toy.conn0 "/x/req")
                          (user_datas _ _ Toy.y_in).
Proof.
  assert (H1 : lookup_sub Toy.collab nat Toy.y_in 1 = Some Toy.s_in) by (reflexivity).
  assert (H2 : se_user_data _ _ Toy.s_in = InboundNegotiating (inbound_nego Toy.collab nat Toy.conn0))
    by reflexivity.
  assert (H3 : read_write_vec Toy.collab (inbound_nego Toy.collab nat Toy.conn0) [Byte.x00]
                 = Ok (NegSuccess "/x/req", 1, [Byte.x01])) by (reflexivity).
  assert (H4 : 1 <= length [Byte.x00]) by (cbn; lia).
  split; [exact H1|]. split; [exact H2|]. split; [exact H3|]. split; [exact H4|].
  exact (C7_inbound_negotiation_success _ _ _ Toy.conn0 _ _ _ _ _ _ _ _ H1 H2 H3 H4).
Defined.

Lemma C8_witness :
  inject_step Toy.collab nat Toy.conn0 (Some (Toy.frame 0 0 [])) 0 =
    Ret (fst (fst Toy.open0), snd (fst Toy.open0), snd Toy.open0) /\
  incoming_data Toy.collab nat (yamux _ _ (fst (fst Toy.open0)))
    (decoded_inbound_data Toy.collab (encryption _ _ (fst (fst Toy.open0)))) =
    Ok (fst Toy.open0_dec, snd Toy.open0_dec, Some IncomingSubstream) /\
  exists e2,
    decode_loop Toy.collab nat unit 11 Toy.conn0 (Some (Toy.frame 0 0 [])) 0 =
      decode_loop Toy.collab nat unit 10 e2 (snd (fst Toy.open0)) (snd Toy.open0) /\
    user_datas _ _ (yamux _ _ e2) =
      user_datas _ _ (fst Toy.open0_dec) ++
      [(y_next_id _ _ (fst Toy.open0_dec),
        InboundNegotiating (nego_new Toy.collab (Listener (in_request_protocols _ _ Toy.conn0
                                                  ++ in_notifications_protocols _ _ Toy.conn0
                                                  ++ [ping_protocol _ _ Toy.conn0]))))] /\
    y_next_id _ _ (yamux _ _ e2) = S (y_next_id _ _ (fst Toy.open0_dec)).
Proof.
  assert (H1 : inject_step Toy.collab nat Toy.conn0 (Some (Toy.frame 0 0 [])) 0 =
                 Ret (fst (fst Toy.open0), snd (fst Toy.open0), snd Toy.open0))
    by (reflexivity).
  assert (H2 : incoming_data Toy.collab nat (yamux _ _ (fst (fst Toy.open0)))
                 (decoded_inbound_data Toy.collab (encryption _ _ (fst (fst Toy.open0)))) =
               Ok (fst Toy.open0_dec, snd Toy.open0_dec, Some IncomingSubstream))
    by (reflexivity).
  split; [exact H1|]. split; [exact H2|].
  exact (C8_incoming_substream_accepted _ _ _ 10 _ _ _ _ _ _ _ _ H1 H2).
Defined.

Lemma C9_witness :
  lookup_sub Toy.collab nat Toy.y_ping 1 = Some Toy.s_ping /\
  se_user_data _ _ Toy.s_ping = PingIn [] /\
  length (@nil byte) < 32 /\
  let ds := [repeat Byte.x07 20; repeat Byte.x08 25] in
  let k := length ([] ++ concat ds) / 32 in
  exists y', feed Toy.collab nat unit 11 Toy.conn0 Toy.y_ping 1 ds = Ret y' /\
    lookup_sub Toy.collab nat y' 1 =
      Some (with_queue_ud _ _ Toy.s_ping (PingIn (skipn (32 * k) ([] ++ concat ds)))
              (blocks k ([] ++ concat ds))) /\
    length (skipn (32 * k) ([] ++ concat ds)) < 32 /\
    Forall (fun b => length b = 32) (blocks k ([] ++ concat ds)) /\
    concat (blocks k ([] ++ concat ds)) = firstn (32 * k) ([] ++ concat ds).
Proof.
  assert (H1 : lookup_sub Toy.collab nat Toy.y_ping 1 = Some Toy.s_ping) by (reflexivity).
  assert (H2 : se_user_data _ _ Toy.s_ping = PingIn []) by reflexivity.
  assert (H3 : length (@nil byte) < 32) by (cbn; lia).
  split; [exact H1|]. split; [exact H2|]. split; [exact H3|].
  exact (C9_ping_echo_blocks _ _ _ 10 Toy.conn0 _ _ _ _ [repeat Byte.x07 20; repeat Byte.x08 25]
           H1 H2 H3).
Defined.

Lemma C10_witness :
  reachable Toy.collab nat unit Toy.conn1 /\
  read_write Toy.collab nat unit 10 Toy.conn1 1
    (Some (Toy.frame 1 1 [Byte.x01; Byte.x02; Byte.xaa; Byte.xbb])) 100 0 =
    Ret (Toy.run 10 Toy.conn1 1 (Some (Toy.frame 1 1 [Byte.x01; Byte.x02; Byte.xaa; Byte.xbb])) 100 0) /\
  event _ _ _ (Toy.run 10 Toy.conn1 1
                 (Some (Toy.frame 1 1 [Byte.x01; Byte.x02; Byte.xaa; Byte.xbb])) 100 0)
    = Some (Response (Ok [Byte.xaa; Byte.xbb]) 1 42) /\
  let r := Toy.run 10 Toy.conn1 1
             (Some (Toy.frame 1 1 [Byte.x01; Byte.x02; Byte.xaa; Byte.xbb])) 100 0 in
  In (1, NegotiationFailed) (user_datas _ _ (yamux _ _ (connection _ _ _ r))) /\
  (forall ud, In (1, ud) (user_datas _ _ (yamux _ _ (connection _ _ _ r))) -> ud = NegotiationFailed) /\
  never_again Toy.collab nat unit 1 (connection _ _ _ r).
Proof.
  pose proof conn1_reachable as HR.
  assert (HW : read_write Toy.collab nat unit 10 Toy.conn1 1
                 (Some (Toy.frame 1 1 [Byte.x01; Byte.x02; Byte.xaa; Byte.xbb])) 100 0 =
               Ret (Toy.run 10 Toy.conn1 1
                      (Some (Toy.frame 1 1 [Byte.x01; Byte.x02; Byte.xaa; Byte.xbb])) 100 0))
    by (reflexivity).
  assert (HE : event _ _ _ (Toy.run 10 Toy.conn1 1
                 (Some (Toy.frame 1 1 [Byte.x01; Byte.x02; Byte.xaa; Byte.xbb])) 100 0)
               = Some (Response (Ok [Byte.xaa; Byte.xbb]) 1 42)) by (reflexivity).
  split; [exact HR|]. split; [exact HW|]. split; [exact HE|].
  exact (C10_ok_response_closes_substream _ _ _ 10 Toy.conn1 1 _ 100 0 _ _ 1 42 HR HW HE).
Defined.

(** ** Instances of the extra properties *)

Lemma toy_conn0_WF : WF Toy.collab nat (yamux _ _ Toy.conn0).
Proof. split; simpl; [constructor|intros j []]. Qed.

Lemma add_request_opens_fresh_substream_witness :
  WF Toy.collab nat (yamux _ _ Toy.conn0) /\
  add_request Toy.collab nat Toy.conn0 0 "/x/req" [Byte.x07] 42 = Some (Toy.conn1, 1) /\
  1 = y_next_id _ _ (yamux _ _ Toy.conn0) /\
  ~ In 1 (map fst (user_datas _ _ (yamux _ _ Toy.conn0))) /\
  (exists nego n out,
     read_write_vec Toy.collab (nego_new Toy.collab (Dialer "/x/req")) [] =
       Ok (NegInProgress nego, n, out) /\
     y_substreams _ _ (yamux _ _ Toy.conn1) =
       y_substreams _ _ (yamux _ _ Toy.conn0) ++
       [{| se_id := 1; se_user_data := RequestOutNegotiating (0 + 20) nego [Byte.x07] 42;
           se_write_queue := [out]; se_closed := false |}]) /\
  y_next_id _ _ (yamux _ _ Toy.conn1) = 2 /\
  next_timeout _ _ Toy.conn1 = Some (match next_timeout _ _ Toy.conn0 with
                                     | Some t => Nat.min t (0 + 20) | None => 0 + 20 end) /\
  encryption _ _ Toy.conn1 = encryption _ _ Toy.conn0.
Proof.
  assert (HA : add_request Toy.collab nat Toy.conn0 0 "/x/req" [Byte.x07] 42
               = Some (Toy.conn1, 1)) by reflexivity.
  split; [exact toy_conn0_WF|]. split; [exact HA|].
  exact (add_request_opens_fresh_substream _ _ Toy.conn0 0 "/x/req" [Byte.x07] 42 Toy.conn1 1
           toy_conn0_WF HA).
Defined.

Lemma open_notifications_opens_fresh_substream_witness :
  WF Toy.collab nat (yamux _ _ Toy.conn0) /\
  open_notifications_substream Toy.collab nat Toy.conn0 0 "/x/notif" [Byte.x01]
    = Some (Toy.conn_notif, 1) /\
  1 = y_next_id _ _ (yamux _ _ Toy.conn0) /\
  ~ In 1 (map fst (user_datas _ _ (yamux _ _ Toy.conn0))) /\
  (exists nego n out,
     read_write_vec Toy.collab (nego_new Toy.collab (Dialer "/x/notif")) [] =
       Ok (NegInProgress nego, n, out) /\
     y_substreams _ _ (yamux _ _ Toy.conn_notif) =
       y_substreams _ _ (yamux _ _ Toy.conn0) ++
       [{| se_id := 1; se_user_data := NotificationsOutNegotiating (0 + 20) nego [Byte.x01];
           se_write_queue := [out]; se_closed := false |}]) /\
  y_next_id _ _ (yamux _ _ Toy.conn_notif) = 2 /\
  next_timeout _ _ Toy.conn_notif = Some (match next_timeout _ _ Toy.conn0 with
                                          | Some t => Nat.min t (0 + 20) | None => 0 + 20 end) /\
  encryption _ _ Toy.conn_notif = encryption _ _ Toy.conn0.
Proof.
  assert (HA : open_notifications_substream Toy.collab nat Toy.conn0 0 "/x/notif" [Byte.x01]
               = Some (Toy.conn_notif, 1)) by reflexivity.
  split; [exact toy_conn0_WF|]. split; [exact HA|].
  exact (open_notifications_opens_fresh_substream _ _ Toy.conn0 0 "/x/notif" [Byte.x01]
           Toy.conn_notif 1 toy_conn0_WF HA).
Defined.

Lemma read_write_event_writes_nothing_witness :
  read_write Toy.collab nat unit 10 Toy.conn1 20 None 4 4 =
    Ret (Toy.run 10 Toy.conn1 20 None 4 4) /\
  event _ _ _ (Toy.run 10 Toy.conn1 20 None 4 4) = Some (Response (Err Timeout) 1 42) /\
  written_bytes _ _ _ (Toy.run 10 Toy.conn1 20 None 4 4) = 0.
Proof.
  assert (HW : read_write Toy.collab nat unit 10 Toy.conn1 20 None 4 4 =
               Ret (Toy.run 10 Toy.conn1 20 None 4 4)) by reflexivity.
  assert (HE : event _ _ _ (Toy.run 10 Toy.conn1 20 None 4 4)
               = Some (Response (Err Timeout) 1 42)) by reflexivity.
  split; [exact HW|]. split; [exact HE|].
  exact (read_write_event_writes_nothing _ _ _ 10 Toy.conn1 20 None 4 4 _ _ HW HE).
Defined.

Lemma read_write_cipher_error_witness :
  (forall t, next_timeout _ _ Faulty.conn0 = Some t -> 0 < t) /\
  inject_inbound_data Faulty.collab (encryption _ _ Faulty.conn0) [Byte.xff] = Err tt /\
  read_write Faulty.collab nat unit 11 Faulty.conn0 0 (Some [Byte.xff]) 4 4 =
    Fail (ErrNoise Faulty.collab tt).
Proof.
  assert (HT : forall t, next_timeout _ _ Faulty.conn0 = Some t -> 0 < t)
    by (intros t Ht; discriminate Ht).
  assert (HI : inject_inbound_data Faulty.collab (encryption _ _ Faulty.conn0) [Byte.xff]
               = Err tt) by reflexivity.
  split; [exact HT|]. split; [exact HI|].
  exact (read_write_cipher_error _ _ _ 10 Faulty.conn0 0 [Byte.xff] 4 4 tt HT HI).
Defined.

Lemma read_write_multiplexer_error_witness :
  (forall t, next_timeout _ _ Toy.conn0 = Some t -> 0 < t) /\
  inject_step Toy.collab nat Toy.conn0 (Some (Toy.frame 3 0 [])) 0 =
    Ret (fst (fst (Toy.inj Toy.conn0 (Some (Toy.frame 3 0 [])) 0)),
         snd (fst (Toy.inj Toy.conn0 (Some (Toy.frame 3 0 [])) 0)),
         snd (Toy.inj Toy.conn0 (Some (Toy.frame 3 0 [])) 0)) /\
  decode_frame Toy.collab
    (y_codec _ _ (yamux _ _ (fst (fst (Toy.inj Toy.conn0 (Some (Toy.frame 3 0 [])) 0)))))
    (decoded_inbound_data Toy.collab
       (encryption _ _ (fst (fst (Toy.inj Toy.conn0 (Some (Toy.frame 3 0 [])) 0))))) = Err tt /\
  read_write Toy.collab nat unit 11 Toy.conn0 0 (Some (Toy.frame 3 0 [])) 4 4 =
    Fail (ErrYamux Toy.collab tt).
Proof.
  assert (HT : forall t, next_timeout _ _ Toy.conn0 = Some t -> 0 < t)
    by (intros t Ht; discriminate Ht).
  assert (HI : inject_step Toy.collab nat Toy.conn0 (Some (Toy.frame 3 0 [])) 0 =
    Ret (fst (fst (Toy.inj Toy.conn0 (Some (Toy.frame 3 0 [])) 0)),
         snd (fst (Toy.inj Toy.conn0 (Some (Toy.frame 3 0 [])) 0)),
         snd (Toy.inj Toy.conn0 (Some (Toy.frame 3 0 [])) 0))) by reflexivity.
  assert (HD : decode_frame Toy.collab
    (y_codec _ _ (yamux _ _ (fst (fst (Toy.inj Toy.conn0 (Some (Toy.frame 3 0 [])) 0)))))
    (decoded_inbound_data Toy.collab
       (encryption _ _ (fst (fst (Toy.inj Toy.conn0 (Some (Toy.frame 3 0 [])) 0))))) = Err tt)
    by reflexivity.
  split; [exact HT|]. split; [exact HI|]. split; [exact HD|].
  exact (read_write_multiplexer_error _ _ _ 10 Toy.conn0 0 _ 4 4 _ _ _ tt HT HI HD).
Defined.

Lemma inbound_negotiation_refused_witness :
  lookup_sub Toy.collab nat Toy.y_in 1 = Some Toy.s_in /\
  se_user_data _ _ Toy.s_in = InboundNegotiating (inbound_nego Toy.collab nat Toy.conn0) /\
  read_write_vec Toy.collab (inbound_nego Toy.collab nat Toy.conn0) [Byte.x09] =
    Ok (NegNotAvailable, 1, [Byte.x00]) /\
  1 <= length [Byte.x09] /\
  exists y', sub_step Toy.collab nat unit Toy.conn0 Toy.y_in 1 [Byte.x09] =
      Ret (SubContinue y' (skipn 1 [Byte.x09])) /\
    lookup_sub Toy.collab nat y' 1 =
      Some {| se_id := se_id _ _ Toy.s_in; se_user_data := NegotiationFailed;
              se_write_queue := se_write_queue _ _ Toy.s_in ++ [[Byte.x00]]; se_closed := true |} /\
    user_datas _ _ y' = set_ud Toy.collab nat 1 NegotiationFailed (user_datas _ _ Toy.y_in).
Proof.
  assert (HL : lookup_sub Toy.collab nat Toy.y_in 1 = Some Toy.s_in) by reflexivity.
  assert (HS : se_user_data _ _ Toy.s_in = InboundNegotiating (inbound_nego Toy.collab nat Toy.conn0))
    by reflexivity.
  assert (HN : read_write_vec Toy.collab (inbound_nego Toy.collab nat Toy.conn0) [Byte.x09] =
               Ok (NegNotAvailable, 1, [Byte.x00])) by reflexivity.
  assert (HLe : 1 <= length [Byte.x09]) by (simpl; lia).
  split; [exact HL|]. split; [exact HS|]. split; [exact HN|]. split; [exact HLe|].
  exact (inbound_negotiation_refused _ _ _ Toy.conn0 Toy.y_in 1 [Byte.x09] Toy.s_in _ 1
           [Byte.x00] HL HS HN HLe).
Defined.

Lemma inbound_negotiation_error_resets_witness :
  NoDup (map fst (user_datas _ _ (Faulty.table
           (InboundNegotiating (inbound_nego Faulty.collab nat Faulty.conn0))))) /\
  lookup_sub Faulty.collab nat
    (Faulty.table (InboundNegotiating (inbound_nego Faulty.collab nat Faulty.conn0))) 1 =
    Some (Faulty.entry (InboundNegotiating (inbound_nego Faulty.collab nat Faulty.conn0))) /\
  se_user_data _ _ (Faulty.entry (InboundNegotiating (inbound_nego Faulty.collab nat Faulty.conn0)))
    = InboundNegotiating (inbound_nego Faulty.collab nat Faulty.conn0) /\
  read_write_vec Faulty.collab (inbound_nego Faulty.collab nat Faulty.conn0) [Byte.xff] = Err tt /\
  [Byte.xff] <> [] /\
  exists y', sub_loop Faulty.collab nat unit 4 Faulty.conn0
      (Faulty.table (InboundNegotiating (inbound_nego Faulty.collab nat Faulty.conn0))) 1
      [Byte.xff] = Ret (y', None) /\
    user_datas _ _ y' = remove_ud Faulty.collab nat 1 (user_datas _ _ (Faulty.table
           (InboundNegotiating (inbound_nego Faulty.collab nat Faulty.conn0)))) /\
    y_resets _ _ y' = y_resets _ _ (Faulty.table
           (InboundNegotiating (inbound_nego Faulty.collab nat Faulty.conn0))) ++ [1] /\
    y_next_id _ _ y' = y_next_id _ _ (Faulty.table
           (InboundNegotiating (inbound_nego Faulty.collab nat Faulty.conn0))).
Proof.
  assert (HD : NoDup (map fst (user_datas _ _ (Faulty.table
           (InboundNegotiating (inbound_nego Faulty.collab nat Faulty.conn0))))))
    by (cbn; constructor; [intros []|constructor]).
  assert (HL : lookup_sub Faulty.collab nat
    (Faulty.table (InboundNegotiating (inbound_nego Faulty.collab nat Faulty.conn0))) 1 =
    Some (Faulty.entry (InboundNegotiating (inbound_nego Faulty.collab nat Faulty.conn0))))
    by reflexivity.
  assert (HS : se_user_data _ _
                 (Faulty.entry (InboundNegotiating (inbound_nego Faulty.collab nat Faulty.conn0)))
               = InboundNegotiating (inbound_nego Faulty.collab nat Faulty.conn0)) by reflexivity.
  assert (HN : read_write_vec Faulty.collab (inbound_nego Faulty.collab nat Faulty.conn0)
                 [Byte.xff] = Err tt) by reflexivity.
  assert (HE : [Byte.xff] <> []) by discriminate.
  split; [exact HD|]. split; [exact HL|]. split; [exact HS|]. split; [exact HN|].
  split; [exact HE|].
  exact (inbound_negotiation_error_resets _ _ _ 3 Faulty.conn0 _ 1 [Byte.xff] _ _ tt
           HD HL HS HN HE).
Defined.

Lemma request_negotiated_sends_request_witness :
  lookup_sub Toy.collab nat (yamux _ _ Toy.conn1) 1 = Some Samples.s_req1 /\
  se_user_data _ _ Samples.s_req1 = @RequestOutNegotiating Toy.collab nat 20 (Dialer "/x/req") [Byte.x07] 42 /\
  read_write_vec Toy.collab (Dialer "/x/req") [Byte.x01] = Ok (NegSuccess "/x/req", 1, []) /\
  1 <= length [Byte.x01] /\
  exists y', sub_step Toy.collab nat unit Toy.conn1 (yamux _ _ Toy.conn1) 1 [Byte.x01] =
      Ret (SubContinue y' (skipn 1 [Byte.x01])) /\
    lookup_sub Toy.collab nat y' 1 =
      Some {| se_id := se_id _ _ Samples.s_req1;
              se_user_data := RequestOut 20 42 (framed_new Toy.collab framed_capacity);
              se_write_queue := se_write_queue _ _ Samples.s_req1 ++
                                [[]; encode_usize Toy.collab (length [Byte.x07]); [Byte.x07]];
              se_closed := true |} /\
    user_datas _ _ y' = set_ud Toy.collab nat 1
      (RequestOut 20 42 (framed_new Toy.collab framed_capacity))
      (user_datas _ _ (yamux _ _ Toy.conn1)).
Proof.
  assert (HL : lookup_sub Toy.collab nat (yamux _ _ Toy.conn1) 1 = Some Samples.s_req1)
    by reflexivity.
  assert (HS : se_user_data _ _ Samples.s_req1 =
               @RequestOutNegotiating Toy.collab nat 20 (Dialer "/x/req") [Byte.x07] 42) by reflexivity.
  assert (HN : read_write_vec Toy.collab (Dialer "/x/req") [Byte.x01] =
               Ok (NegSuccess "/x/req", 1, [])) by reflexivity.
  assert (HLe : 1 <= length [Byte.x01]) by (simpl; lia).
  split; [exact HL|]. split; [exact HS|]. split; [exact HN|]. split; [exact HLe|].
  exact (request_negotiated_sends_request _ _ _ Toy.conn1 _ 1 [Byte.x01] _ _ _ _ _ _ _ _
           HL HS HN HLe).
Defined.

Lemma request_protocol_refused_witness :
  NoDup (map fst (user_datas _ _ (yamux _ _ Toy.conn1))) /\
  lookup_sub Toy.collab nat (yamux _ _ Toy.conn1) 1 = Some Samples.s_req1 /\
  se_user_data _ _ Samples.s_req1 = @RequestOutNegotiating Toy.collab nat 20 (Dialer "/x/req") [Byte.x07] 42 /\
  read_write_vec Toy.collab (Dialer "/x/req") [Byte.x00] = Ok (NegNotAvailable, 1, []) /\
  exists y', sub_step Toy.collab nat unit Toy.conn1 (yamux _ _ Toy.conn1) 1 [Byte.x00] =
      Ret (SubEvent y' (Response (Err ProtocolNotAvailable) 1 42)) /\
    user_datas _ _ y' = remove_ud Toy.collab nat 1 (user_datas _ _ (yamux _ _ Toy.conn1)) /\
    y_resets _ _ y' = y_resets _ _ (yamux _ _ Toy.conn1) ++ [1].
Proof.
  assert (HD : NoDup (map fst (user_datas _ _ (yamux _ _ Toy.conn1))))
    by (cbn; constructor; [intros []|constructor]).
  assert (HL : lookup_sub Toy.collab nat (yamux _ _ Toy.conn1) 1 = Some Samples.s_req1)
    by reflexivity.
  assert (HS : se_user_data _ _ Samples.s_req1 =
               @RequestOutNegotiating Toy.collab nat 20 (Dialer "/x/req") [Byte.x07] 42) by reflexivity.
  assert (HN : read_write_vec Toy.collab (Dialer "/x/req") [Byte.x00] =
               Ok (NegNotAvailable, 1, [])) by reflexivity.
  split; [exact HD|]. split; [exact HL|]. split; [exact HS|]. split; [exact HN|].
  exact (request_protocol_refused _ _ _ Toy.conn1 _ 1 [Byte.x00] _ _ _ _ _ _ _ HD HL HS HN).
Defined.

Lemma request_negotiation_error_witness :
  NoDup (map fst (user_datas _ _ (yamux _ _ Faulty.conn1))) /\
  lookup_sub Faulty.collab nat (yamux _ _ Faulty.conn1) 1 = Some Faulty.s_req1 /\
  se_user_data _ _ Faulty.s_req1 = @RequestOutNegotiating Faulty.collab nat 20 (Dialer "/x/req") [Byte.x07] 42 /\
  read_write_vec Faulty.collab (Dialer "/x/req") [Byte.xff] = Err tt /\
  exists y', sub_step Faulty.collab nat unit Faulty.conn1 (yamux _ _ Faulty.conn1) 1 [Byte.xff] =
      Ret (SubEvent y' (Response (Err (NegotiationError Faulty.collab tt)) 1 42)) /\
    user_datas _ _ y' = remove_ud Faulty.collab nat 1 (user_datas _ _ (yamux _ _ Faulty.conn1)) /\
    y_resets _ _ y' = y_resets _ _ (yamux _ _ Faulty.conn1) ++ [1].
Proof.
  assert (HD : NoDup (map fst (user_datas _ _ (yamux _ _ Faulty.conn1))))
    by (cbn; constructor; [intros []|constructor]).
  assert (HL : lookup_sub Faulty.collab nat (yamux _ _ Faulty.conn1) 1 = Some Faulty.s_req1)
    by reflexivity.
  assert (HS : se_user_data _ _ Faulty.s_req1 =
               @RequestOutNegotiating Faulty.collab nat 20 (Dialer "/x/req") [Byte.x07] 42) by reflexivity.
  assert (HN : read_write_vec Faulty.collab (Dialer "/x/req") [Byte.xff] = Err tt)
    by reflexivity.
  split; [exact HD|]. split; [exact HL|]. split; [exact HS|]. split; [exact HN|].
  exact (request_negotiation_error _ _ _ Faulty.conn1 _ 1 [Byte.xff] _ _ _ _ _ tt HD HL HS HN).
Defined.

Lemma response_reader_error_witness :
  NoDup (map fst (user_datas _ _ (Faulty.table (@RequestOut Faulty.collab nat 20 42 [])))) /\
  lookup_sub Faulty.collab nat (Faulty.table (@RequestOut Faulty.collab nat 20 42 [])) 1 =
    Some (Faulty.entry (@RequestOut Faulty.collab nat 20 42 [])) /\
  se_user_data _ _ (Faulty.entry (@RequestOut Faulty.collab nat 20 42 [])) = @RequestOut Faulty.collab nat 20 42 [] /\
  inject_data Faulty.collab [] [Byte.xff] = Err tt /\
  exists y', sub_step Faulty.collab nat unit Faulty.conn0 (Faulty.table (@RequestOut Faulty.collab nat 20 42 []))
      1 [Byte.xff] = Ret (SubEvent y' (Response (Err (ResponseLebError Faulty.collab tt)) 1 42)) /\
    user_datas _ _ y' =
      remove_ud Faulty.collab nat 1 (user_datas _ _ (Faulty.table (@RequestOut Faulty.collab nat 20 42 []))) /\
    y_resets _ _ y' = y_resets _ _ (Faulty.table (@RequestOut Faulty.collab nat 20 42 [])) ++ [1].
Proof.
  assert (HD : NoDup (map fst (user_datas _ _ (Faulty.table (@RequestOut Faulty.collab nat 20 42 [])))))
    by (cbn; constructor; [intros []|constructor]).
  assert (HL : lookup_sub Faulty.collab nat (Faulty.table (@RequestOut Faulty.collab nat 20 42 [])) 1 =
               Some (Faulty.entry (@RequestOut Faulty.collab nat 20 42 []))) by reflexivity.
  assert (HS : se_user_data _ _ (Faulty.entry (@RequestOut Faulty.collab nat 20 42 [])) = @RequestOut Faulty.collab nat 20 42 [])
    by reflexivity.
  assert (HN : inject_data Faulty.collab [] [Byte.xff] = Err tt) by reflexivity.
  split; [exact HD|]. split; [exact HL|]. split; [exact HS|]. split; [exact HN|].
  exact (response_reader_error _ _ _ Faulty.conn0 _ 1 [Byte.xff] _ _ _ _ tt HD HL HS HN).
Defined.

Lemma response_incomplete_keeps_waiting_witness :
  lookup_sub Toy.collab nat (Samples.table (@RequestOut Toy.collab nat 20 42 [])) 1 =
    Some (Samples.entry (@RequestOut Toy.collab nat 20 42 [])) /\
  se_user_data _ _ (Samples.entry (@RequestOut Toy.collab nat 20 42 [])) = @RequestOut Toy.collab nat 20 42 [] /\
  inject_data Toy.collab [] [Byte.x03; Byte.x01] = Ok ([Byte.x03; Byte.x01], 2) /\
  2 <= length [Byte.x03; Byte.x01] /\
  take_frame Toy.collab [Byte.x03; Byte.x01] = (None, [Byte.x03; Byte.x01]) /\
  exists y', sub_step Toy.collab nat unit Toy.conn0 (Samples.table (@RequestOut Toy.collab nat 20 42 [])) 1
      [Byte.x03; Byte.x01] = Ret (SubContinue y' (skipn 2 [Byte.x03; Byte.x01])) /\
    lookup_sub Toy.collab nat y' 1 =
      Some {| se_id := se_id _ _ (Samples.entry (@RequestOut Toy.collab nat 20 42 []));
              se_user_data := @RequestOut Toy.collab nat 20 42 [Byte.x03; Byte.x01];
              se_write_queue := se_write_queue _ _ (Samples.entry (@RequestOut Toy.collab nat 20 42 []));
              se_closed := se_closed _ _ (Samples.entry (@RequestOut Toy.collab nat 20 42 [])) |} /\
    user_datas _ _ y' = set_ud Toy.collab nat 1 (@RequestOut Toy.collab nat 20 42 [Byte.x03; Byte.x01])
                          (user_datas _ _ (Samples.table (@RequestOut Toy.collab nat 20 42 []))).
Proof.
  assert (HL : lookup_sub Toy.collab nat (Samples.table (@RequestOut Toy.collab nat 20 42 [])) 1 =
               Some (Samples.entry (@RequestOut Toy.collab nat 20 42 []))) by reflexivity.
  assert (HS : se_user_data _ _ (Samples.entry (@RequestOut Toy.collab nat 20 42 [])) = @RequestOut Toy.collab nat 20 42 [])
    by reflexivity.
  assert (HN : inject_data Toy.collab [] [Byte.x03; Byte.x01] = Ok ([Byte.x03; Byte.x01], 2))
    by reflexivity.
  assert (HLe : 2 <= length [Byte.x03; Byte.x01]) by (simpl; lia).
  assert (HF : take_frame Toy.collab [Byte.x03; Byte.x01] = (None, [Byte.x03; Byte.x01]))
    by reflexivity.
  split; [exact HL|]. split; [exact HS|]. split; [exact HN|]. split; [exact HLe|].
  split; [exact HF|].
  exact (response_incomplete_keeps_waiting _ _ _ Toy.conn0 _ 1 _ _ _ _ _ _ _ _ HL HS HN HLe HF).
Defined.

Lemma notifications_negotiated_sends_handshake_witness :
  lookup_sub Toy.collab nat (yamux _ _ Toy.conn_notif) 1 = Some Samples.s_notif1 /\
  se_user_data _ _ Samples.s_notif1 =
    @NotificationsOutNegotiating Toy.collab nat 20 (Dialer "/x/notif") [Byte.x01] /\
  read_write_vec Toy.collab (Dialer "/x/notif") [Byte.x01] = Ok (NegSuccess "/x/notif", 1, []) /\
  1 <= length [Byte.x01] /\
  exists y', sub_step Toy.collab nat unit Toy.conn_notif (yamux _ _ Toy.conn_notif) 1 [Byte.x01] =
      Ret (SubContinue y' (skipn 1 [Byte.x01])) /\
    lookup_sub Toy.collab nat y' 1 =
      Some {| se_id := se_id _ _ Samples.s_notif1;
              se_user_data := NotificationsOutHandshakeRecv (framed_new Toy.collab framed_capacity);
              se_write_queue := se_write_queue _ _ Samples.s_notif1 ++
                                [[]; encode_usize Toy.collab (length [Byte.x01]); [Byte.x01]];
              se_closed := se_closed _ _ Samples.s_notif1 |} /\
    user_datas _ _ y' = set_ud Toy.collab nat 1
      (NotificationsOutHandshakeRecv (framed_new Toy.collab framed_capacity))
      (user_datas _ _ (yamux _ _ Toy.conn_notif)).
Proof.
  assert (HL : lookup_sub Toy.collab nat (yamux _ _ Toy.conn_notif) 1 = Some Samples.s_notif1)
    by reflexivity.
  assert (HS : se_user_data _ _ Samples.s_notif1 =
               @NotificationsOutNegotiating Toy.collab nat 20 (Dialer "/x/notif") [Byte.x01]) by reflexivity.
  assert (HN : read_write_vec Toy.collab (Dialer "/x/notif") [Byte.x01] =
               Ok (NegSuccess "/x/notif", 1, [])) by reflexivity.
  assert (HLe : 1 <= length [Byte.x01]) by (simpl; lia).
  split; [exact HL|]. split; [exact HS|]. split; [exact HN|]. split; [exact HLe|].
  exact (notifications_negotiated_sends_handshake _ _ _ Toy.conn_notif _ 1 [Byte.x01]
           _ _ _ _ _ _ _ HL HS HN HLe).
Defined.

Lemma notifications_refusal_panics_witness :
  lookup_sub Toy.collab nat (yamux _ _ Toy.conn_notif) 1 = Some Samples.s_notif1 /\
  se_user_data _ _ Samples.s_notif1 =
    @NotificationsOutNegotiating Toy.collab nat 20 (Dialer "/x/notif") [Byte.x01] /\
  ((exists n out, read_write_vec Toy.collab (Dialer "/x/notif") [Byte.x00] =
                    Ok (NegNotAvailable, n, out)) \/
   (exists err, read_write_vec Toy.collab (Dialer "/x/notif") [Byte.x00] = Err err)) /\
  sub_step Toy.collab nat unit Toy.conn_notif (yamux _ _ Toy.conn_notif) 1 [Byte.x00] = Panic.
Proof.
  assert (HL : lookup_sub Toy.collab nat (yamux _ _ Toy.conn_notif) 1 = Some Samples.s_notif1)
    by reflexivity.
  assert (HS : se_user_data _ _ Samples.s_notif1 =
               @NotificationsOutNegotiating Toy.collab nat 20 (Dialer "/x/notif") [Byte.x01]) by reflexivity.
  assert (HN : (exists n out, read_write_vec Toy.collab (Dialer "/x/notif") [Byte.x00] =
                                Ok (NegNotAvailable, n, out)) \/
               (exists err, read_write_vec Toy.collab (Dialer "/x/notif") [Byte.x00] = Err err))
    by (left; exists 1, []; reflexivity).
  split; [exact HL|]. split; [exact HS|]. split; [exact HN|].
  exact (notifications_refusal_panics _ _ _ Toy.conn_notif _ 1 [Byte.x00] _ _ _ _ HL HS HN).
Defined.

Lemma notifications_in_handshake_complete_witness :
  lookup_sub Toy.collab nat (Samples.table (@NotificationsInHandshake Toy.collab nat [] "/x/notif")) 1 =
    Some (Samples.entry (@NotificationsInHandshake Toy.collab nat [] "/x/notif")) /\
  se_user_data _ _ (Samples.entry (@NotificationsInHandshake Toy.collab nat [] "/x/notif")) =
    @NotificationsInHandshake Toy.collab nat [] "/x/notif" /\
  inject_data Toy.collab [] [Byte.x01; Byte.x05] = Ok ([Byte.x01; Byte.x05], 2) /\
  2 <= length [Byte.x01; Byte.x05] /\
  take_frame Toy.collab [Byte.x01; Byte.x05] = (Some [Byte.x05], []) /\
  exists y', sub_step Toy.collab nat unit Toy.conn0
      (Samples.table (@NotificationsInHandshake Toy.collab nat [] "/x/notif")) 1 [Byte.x01; Byte.x05] =
      Ret (SubEvent y' (NotificationsInOpen 1 "/x/notif" [Byte.x05])) /\
    lookup_sub Toy.collab nat y' 1 =
      Some {| se_id := se_id _ _ (Samples.entry (@NotificationsInHandshake Toy.collab nat [] "/x/notif"));
              se_user_data := NotificationsInWait;
              se_write_queue :=
                se_write_queue _ _ (Samples.entry (@NotificationsInHandshake Toy.collab nat [] "/x/notif"));
              se_closed := se_closed _ _ (Samples.entry (@NotificationsInHandshake Toy.collab nat [] "/x/notif")) |} /\
    user_datas _ _ y' = set_ud Toy.collab nat 1 NotificationsInWait
      (user_datas _ _ (Samples.table (@NotificationsInHandshake Toy.collab nat [] "/x/notif"))).
Proof.
  assert (HL : lookup_sub Toy.collab nat (Samples.table (@NotificationsInHandshake Toy.collab nat [] "/x/notif")) 1
               = Some (Samples.entry (@NotificationsInHandshake Toy.collab nat [] "/x/notif"))) by reflexivity.
  assert (HS : se_user_data _ _ (Samples.entry (@NotificationsInHandshake Toy.collab nat [] "/x/notif")) =
               @NotificationsInHandshake Toy.collab nat [] "/x/notif") by reflexivity.
  assert (HN : inject_data Toy.collab [] [Byte.x01; Byte.x05] = Ok ([Byte.x01; Byte.x05], 2))
    by reflexivity.
  assert (HLe : 2 <= length [Byte.x01; Byte.x05]) by (simpl; lia).
  assert (HF : take_frame Toy.collab [Byte.x01; Byte.x05] = (Some [Byte.x05], []))
    by reflexivity.
  split; [exact HL|]. split; [exact HS|]. split; [exact HN|]. split; [exact HLe|].
  split; [exact HF|].
  exact (notifications_in_handshake_complete _ _ _ Toy.conn0 _ 1 _ _ _ _ _ _ _ _
           HL HS HN HLe HF).
Defined.

Lemma waiting_states_drop_data_witness :
  NoDup (map fst (user_datas _ _ (Samples.table (@RequestInRecv Toy.collab nat [] "/x/req")))) /\
  lookup_sub Toy.collab nat (Samples.table (@RequestInRecv Toy.collab nat [] "/x/req")) 1 =
    Some (Samples.entry (@RequestInRecv Toy.collab nat [] "/x/req")) /\
  (se_user_data _ _ (Samples.entry (@RequestInRecv Toy.collab nat [] "/x/req")) = NegotiationFailed \/
   se_user_data _ _ (Samples.entry (@RequestInRecv Toy.collab nat [] "/x/req")) = NotificationsInWait \/
   (exists r p, se_user_data _ _ (Samples.entry (@RequestInRecv Toy.collab nat [] "/x/req")) = RequestInRecv r p)) /\
  sub_loop Toy.collab nat unit 4 Toy.conn0 (Samples.table (@RequestInRecv Toy.collab nat [] "/x/req")) 1
    [Byte.x09; Byte.x0a] = Ret (Samples.table (@RequestInRecv Toy.collab nat [] "/x/req"), None).
Proof.
  assert (HD : NoDup (map fst (user_datas _ _ (Samples.table (@RequestInRecv Toy.collab nat [] "/x/req")))))
    by (cbn; constructor; [intros []|constructor]).
  assert (HL : lookup_sub Toy.collab nat (Samples.table (@RequestInRecv Toy.collab nat [] "/x/req")) 1 =
               Some (Samples.entry (@RequestInRecv Toy.collab nat [] "/x/req"))) by reflexivity.
  assert (HS : se_user_data _ _ (Samples.entry (@RequestInRecv Toy.collab nat [] "/x/req")) = NegotiationFailed \/
     se_user_data _ _ (Samples.entry (@RequestInRecv Toy.collab nat [] "/x/req")) = NotificationsInWait \/
     (exists r p, se_user_data _ _ (Samples.entry (@RequestInRecv Toy.collab nat [] "/x/req")) = RequestInRecv r p))
    by (right; right; exists [], "/x/req"%string; reflexivity).
  split; [exact HD|]. split; [exact HL|]. split; [exact HS|].
  exact (waiting_states_drop_data _ _ _ 3 Toy.conn0 _ 1 [Byte.x09; Byte.x0a] _ HD HL HS).
Defined.

Lemma update_now_nothing_expired_witness :
  (forall j ud, In (j, ud) (user_datas _ _ (yamux _ _ Toy.conn1)) ->
     timed_out Toy.collab nat 5 ud = false) /\
  exists t, update_now Toy.collab nat unit Toy.conn1 5 =
      Ret (set_next_timeout Toy.collab nat Toy.conn1 t, None) /\
    ((forall n, next_timeout _ _ Toy.conn1 = Some n -> 5 < n) -> t = next_timeout _ _ Toy.conn1) /\
    ((exists n, next_timeout _ _ Toy.conn1 = Some n /\ n <= 5) ->
     t = min_deadline Toy.collab nat (user_datas _ _ (yamux _ _ Toy.conn1))).
Proof.
  assert (HU : user_datas _ _ (yamux _ _ Toy.conn1) = [(1, Toy.req1)]) by reflexivity.
  assert (HT : forall j ud, In (j, ud) (user_datas _ _ (yamux _ _ Toy.conn1)) ->
                 timed_out Toy.collab nat 5 ud = false).
  { rewrite HU. intros j ud [H|[]]. inversion H. reflexivity. }
  split; [exact HT|].
  exact (update_now_nothing_expired _ _ unit Toy.conn1 5 HT).
Defined.

Lemma encrypt_out_nothing_queued_witness :
  (forall s, In s (y_substreams _ _ (yamux _ _ (set_yamux _ _ Toy.conn0 Toy.y_ping))) ->
     concat (se_write_queue _ _ s) = []) /\
  exists e', encrypt_out_loop Toy.collab nat 4 (set_yamux _ _ Toy.conn0 Toy.y_ping) 4 4 0 =
      Ret (e', 0) /\
    encryption _ _ e' = encryption _ _ (set_yamux _ _ Toy.conn0 Toy.y_ping) /\
    user_datas _ _ (yamux _ _ e') = user_datas _ _ (yamux _ _ (set_yamux _ _ Toy.conn0 Toy.y_ping)).
Proof.
  assert (HY : y_substreams _ _ (yamux _ _ (set_yamux _ _ Toy.conn0 Toy.y_ping)) = [Toy.s_ping])
    by reflexivity.
  assert (HQ : forall s, In s (y_substreams _ _ (yamux _ _ (set_yamux _ _ Toy.conn0 Toy.y_ping))) ->
                 concat (se_write_queue _ _ s) = []).
  { rewrite HY. intros s [<-|[]]. reflexivity. }
  split; [exact HQ|].
  exact (encrypt_out_nothing_queued _ _ 3 (set_yamux _ _ Toy.conn0 Toy.y_ping) 4 4 0 HQ).
Defined.

Lemma api_keeps_configured_protocols_witness :
  api_steps Toy.collab nat unit (into_connection Toy.collab nat [] Toy.config) Toy.conn1 /\
  in_request_protocols _ _ Toy.conn1 = cfg_in_request_protocols Toy.config /\
  in_notifications_protocols _ _ Toy.conn1 = cfg_in_notifications_protocols Toy.config /\
  ping_protocol _ _ Toy.conn1 = cfg_ping_protocol Toy.config.
Proof.
  assert (HS : api_steps Toy.collab nat unit (into_connection Toy.collab nat [] Toy.config)
                 Toy.conn1).
  { eapply api_next with (e2 := Toy.conn1); [|apply api_done].
    apply (api_add_request _ _ _ _ 0 "/x/req" [Byte.x07] 42 _ 1). reflexivity. }
  split; [exact HS|].
  exact (api_keeps_configured_protocols Toy.collab nat unit _ Toy.config Toy.conn1 HS).
Defined.

(** ** Counterexamples *)

(** C1 fails: two requests (deadlines 20 and 25); the remote resets the
    first one; the call reports the reset with [wake_up_after = Some 20]
    although the only deadline left is 25. *)
Lemma C1_counterexample :
  add_request Toy.collab nat Toy.conn0 0 "/x/req" [Byte.x07] 42 = Some (Toy.conn1, 1) /\
  add_request Toy.collab nat Toy.conn1 5 "/x/req" [Byte.x08] 43 = Some (Toy.conn2, 2) /\
  read_write Toy.collab nat unit 10 Toy.conn2 10 (Some (Toy.frame 2 1 [])) 0 0
    = Ret (Toy.run 10 Toy.conn2 10 (Some (Toy.frame 2 1 [])) 0 0) /\
  event _ _ _ (Toy.run 10 Toy.conn2 10 (Some (Toy.frame 2 1 [])) 0 0)
    = Some (Response (Err SubstreamReset) 1 42) /\
  wake_up_after _ _ _ (Toy.run 10 Toy.conn2 10 (Some (Toy.frame 2 1 [])) 0 0) = Some 20 /\
  min_deadline _ _ (user_datas _ _ (yamux _ _
    (connection _ _ _ (Toy.run 10 Toy.conn2 10 (Some (Toy.frame 2 1 [])) 0 0))))
    = Some 25 /\
  ~ wake_claim (Toy.run 10 Toy.conn2 10 (Some (Toy.frame 2 1 [])) 0 0).
Proof.
  assert (Hw : wake_up_after _ _ _ (Toy.run 10 Toy.conn2 10 (Some (Toy.frame 2 1 [])) 0 0)
               = Some 20) by reflexivity.
  assert (Hm : min_deadline _ _ (user_datas _ _ (yamux _ _
                 (connection _ _ _ (Toy.run 10 Toy.conn2 10 (Some (Toy.frame 2 1 [])) 0 0))))
               = Some 25) by reflexivity.
  split; [reflexivity|]. split; [reflexivity|].
  split; [reflexivity|]. split; [reflexivity|].
  split; [exact Hw|]. split; [exact Hm|].
  unfold wake_claim. rewrite Hw, Hm. lia.
Qed.

(** C2 fails: a reset of a substream in state [NotificationsOutNegotiating]
    does not pass silently: [read_write] reaches [todo!] and panics. *)
Lemma C2_counterexample :
  open_notifications_substream Toy.collab nat Toy.conn0 0 "/x/notif" [Byte.x01]
    = Some (Toy.conn_notif, 1) /\
  read_write Toy.collab nat unit 10 Toy.conn_notif 1 (Some (Toy.frame 2 1 [])) 0 0 = Panic.
Proof. split; reflexivity. Qed.

(** C3 fails: both requests are past their deadline at time 30; the call
    reports the timeout of the first substream of the table (id 1), not
    the one of the second request (id 2, deadline 25, no response). *)
Lemma C3_counterexample :
  add_request Toy.collab nat Toy.conn0 0 "/x/req" [Byte.x07] 42 = Some (Toy.conn1, 1) /\
  add_request Toy.collab nat Toy.conn1 5 "/x/req" [Byte.x08] 43 = Some (Toy.conn2, 2) /\
  read_write Toy.collab nat unit 10 Toy.conn2 30 None 0 0 = Ret (Toy.run 10 Toy.conn2 30 None 0 0) /\
  event _ _ _ (Toy.run 10 Toy.conn2 30 None 0 0) = Some (Response (Err Timeout) 1 42) /\
  event _ _ _ (Toy.run 10 Toy.conn2 30 None 0 0) <> Some (Response (Err Timeout) 2 43).
Proof.
  assert (HE : event _ _ _ (Toy.run 10 Toy.conn2 30 None 0 0)
               = Some (Response (Err Timeout) 1 42)) by reflexivity.
  split; [reflexivity|]. split; [reflexivity|].
  split; [reflexivity|]. split; [exact HE|].
  rewrite HE. discriminate.
Qed.
